(** * The ephemeris tile file reader, [src/eph-file.c]

    A shallow embedding of the reader of "EPHE" tile files: the chunk
    iterator [eph_load], the tile header and compressed block readers, the
    byte transpose [shuffle_bytes], the table schema matcher
    [eph_read_table_prepare], the unit converter [eph_convert_f] and the row
    decoder [eph_read_table_row]; followed by the properties of them that the
    specification states.

    Conventions of the embedding
    - an [int] is a [Z] kept in the range of 32 bits by [wrap32]; a
      [uint64_t] is a [Z] below 2^64;
    - a buffer ([const void *data]) is the list of its bytes and a pointer
      into it is an offset; integers are stored little-endian;
    - a call either returns ([Done]), is cut short by a failed [assert] or
      [CHECK] ([Aborted]), or does something the C standard leaves undefined,
      such as an access outside the buffer ([Undef]);
    - a [double] is a binary64 [float] of the kernel. *)

From Stdlib Require Import ZArith Lia Floats.
From Stdlib Require Import Strings.Byte.
From stdpp Require Import base list.

#[local] Open Scope Z_scope.

(** ** Machine integers *)

Module Int.

Definition INT_MAX : Z := 2^31 - 1.
Definition INT_MIN : Z := - 2^31.

(** The value of type [int] congruent to [z] modulo 2^32. *)
Definition wrap32 (z : Z) : Z := (z + 2^31) mod 2^32 - 2^31.

(** The value of type [uint64_t] or [unsigned long] congruent to [z]. *)
Definition wrap64 (z : Z) : Z := z mod 2^64.

Definition add32 (a b : Z) : Z := wrap32 (a + b).
Definition sub32 (a b : Z) : Z := wrap32 (a - b).
Definition mul32 (a b : Z) : Z := wrap32 (a * b).

(** [a << n] on [int]; the shift is undefined for a count outside the width. *)
Definition shl32 (a n : Z) : option Z :=
  if (0 <=? n) && (n <? 32) then Some (wrap32 (Z.shiftl a n)) else None.

(** [a / b] on [int], truncating; undefined for a zero divisor and for
    [INT_MIN / -1]. *)
Definition div32 (a b : Z) : option Z :=
  if (b =? 0) || ((a =? INT_MIN) && (b =? -1)) then None else Some (Z.quot a b).

(** A C condition: an integer is true when it is not zero. *)
Definition truth (z : Z) : bool := negb (z =? 0).

Definition in_int (z : Z) : Prop := INT_MIN <= z <= INT_MAX.

End Int.
Import Int.

(** ** Results of a call *)

Inductive outcome (A : Type) : Type :=
| Done (a : A)
| Aborted
| Undef.
Arguments Done {A} a.
Arguments Aborted {A}.
Arguments Undef {A}.

#[global] Instance outcome_ret : MRet outcome := fun A a => Done a.
#[global] Instance outcome_bind : MBind outcome := fun A B f m =>
  match m with
  | Done a => f a
  | Aborted => Aborted
  | Undef => Undef
  end.

#[global] Instance outcome_fmap : FMap outcome := fun A B f m =>
  match m with
  | Done a => Done (f a)
  | Aborted => Aborted
  | Undef => Undef
  end.

(** An access that is undefined when it falls outside its object. *)
Definition access {A} (o : option A) : outcome A :=
  match o with
  | Some a => Done a
  | None => Undef
  end.

(** [assert(c)]. *)
Definition assert (c : bool) : outcome unit :=
  if c then Done tt else Aborted.

(** Modelled from the spec: the macro [CHECK] is defined outside
    [eph-file.c]; the envelope reader "fails with a format error" where a
    check does not hold, which ends the call. *)
Definition CHECK (c : bool) : outcome unit :=
  if c then Done tt else Aborted.

(** What [LOG_E], a macro defined outside [eph-file.c], is given to report:
    the embedding keeps the messages of a call in a list. *)
Inductive log_msg : Type :=
| Cannot_uncompress_data
| Wrong_type
| Cannot_find_column (name : list byte).

(** ** Buffers *)

Module Mem.

(** [data[k]]. *)
Definition get {A} (data : list A) (k : Z) : option A :=
  if k <? 0 then None else data !! Z.to_nat k.

(** [data[k] = v]. *)
Definition set {A} (data : list A) (k : Z) (v : A) : option (list A) :=
  if (0 <=? k) && (k <? Z.of_nat (length data))
  then Some (<[Z.to_nat k := v]> data)
  else None.

(** The [n] bytes at [data + ofs]. *)
Definition read_bytes (data : list byte) (ofs n : Z) : option (list byte) :=
  if (0 <=? ofs) && (0 <=? n) && (ofs + n <=? Z.of_nat (length data))
  then Some (take (Z.to_nat n) (drop (Z.to_nat ofs) data))
  else None.

Definition byte_val (b : byte) : Z := Z.of_N (Byte.to_N b).

(** The unsigned integer whose little-endian bytes are [bs]. *)
Fixpoint le_uint (bs : list byte) : Z :=
  match bs with
  | [] => 0
  | b :: bs' => byte_val b + 256 * le_uint bs'
  end.

(** [memcpy(&x, data + ofs, 4)] for [int x]. *)
Definition read_i32 (data : list byte) (ofs : Z) : option Z :=
  (fun bs => wrap32 (le_uint bs)) <$> read_bytes data ofs 4.

(** [memcpy(&x, data + ofs, 4)] for the bits of a [float x]. *)
Definition read_u32 (data : list byte) (ofs : Z) : option Z :=
  le_uint <$> read_bytes data ofs 4.

(** [memcpy(&x, data + ofs, 8)] for [uint64_t x]. *)
Definition read_u64 (data : list byte) (ofs : Z) : option Z :=
  le_uint <$> read_bytes data ofs 8.

(** The byte of value [z] modulo 256, and the [n] little-endian bytes of
    [z]: used to write buffers down. *)
Definition byte_of (z : Z) : byte :=
  default x00 (Byte.of_N (Z.to_N (z mod 256))).

Fixpoint le_bytes (n : nat) (z : Z) : list byte :=
  match n with
  | O => []
  | S n' => byte_of z :: le_bytes n' (z / 256)
  end.

(** [strncmp(s1, s2, n)]: the difference of the first two bytes that differ,
    0 when [n] bytes agree or both strings end; [None] when a string is read
    past its last byte. *)
Fixpoint strncmp (s1 s2 : list byte) (n : nat) {struct n} : option Z :=
  match n with
  | O => Some 0
  | S n' =>
      match s1, s2 with
      | c1 :: t1, c2 :: t2 =>
          if Byte.eqb c1 c2
          then if Byte.eqb c1 x00 then Some 0 else strncmp t1 t2 n'
          else Some (byte_val c1 - byte_val c2)
      | _, _ => None
      end
  end.

End Mem.
Import Mem.

(** ** Counted loops *)

(** [for (i = i0; i < i0 + n; i++) body], for a body with no [break] and
    no [return]. *)
Fixpoint for_loop {S : Type} (n : nat) (i : Z) (body : Z -> S -> outcome S)
    (s : S) : outcome S :=
  match n with
  | O => Done s
  | Datatypes.S n' => s' ← body i s; for_loop n' (i + 1) body s'
  end.

(** The same for a body that may [return r]: [inr r] leaves the loop. *)
Fixpoint for_loop_ret {S R : Type} (n : nat) (i : Z)
    (body : Z -> S -> outcome (S + R)) (s : S) : outcome (S + R) :=
  match n with
  | O => Done (inl s)
  | Datatypes.S n' =>
      r ← body i s;
      match r with
      | inl s' => for_loop_ret n' (i + 1) body s'
      | inr r => Done (inr r)
      end
  end.

(** ** Tile header *)

(** [(int)(log2(q) / 2)] for the [double] of the integer [q]: the logarithm
    of the C library is taken at its mathematical value, so that the result
    is the floor of half the binary logarithm; [log2(0)] is minus infinity,
    which has no [int]. *)
Definition half_log2 (q : Z) : option Z :=
  if q <=? 0 then None else Some (Z.log2 q / 2).

Record tile_header : Type := {
  th_ret : Z;
  th_version : Z;
  th_order : Z;
  th_pix : Z;
  th_ofs : Z
}.

(** [int eph_read_tile_header(const void *data, int data_size,
    int *data_ofs, int *version, int *order, int *pix)]. *)
Definition eph_read_tile_header (data : list byte) (data_size data_ofs : Z)
    : outcome tile_header :=
  version ← access (read_i32 data data_ofs);
  nuniq ← access (read_u64 data (data_ofs + 4));
  order ← access (half_log2 (nuniq / 4));
  p ← access (shl32 1 (mul32 2 order));
  let pix := wrap32 (wrap64 (nuniq - wrap64 (mul32 4 p))) in
  Done {| th_ret := 0; th_version := version; th_order := order;
          th_pix := pix; th_ofs := add32 data_ofs 12 |}.

(** ** Compressed block *)

Definition Z_OK : Z := 0.

(** The two primitives of the C library and of zlib that the block reader
    calls. [zmalloc n] is [malloc(n)]: a fresh block of [n] bytes, or NULL
    ([None]). [zuncompress dest destLen source sourceLen] is zlib's
    [uncompress]: [source] holds the bytes from the source pointer to the end
    of the buffer; the result is the return code and the contents of the
    destination block afterwards. The block that [dest] points to keeps its
    size, and NULL stays NULL. *)
Class Zlib : Type := {
  zmalloc : Z -> option (list byte);
  zuncompress :
    option (list byte) -> Z -> list byte -> Z -> Z * option (list byte);
  zmalloc_length : forall n block,
    zmalloc n = Some block -> Z.of_nat (length block) = n;
  zuncompress_block : forall block n source m,
    exists block',
      (zuncompress (Some block) n source m).2 = Some block' /\
      length block' = length block;
  zuncompress_null : forall n source m,
    (zuncompress None n source m).2 = None
}.

Record compressed_block : Type := {
  cb_ret : option (list byte);
  cb_size : Z;
  cb_ofs : Z;
  cb_log : list log_msg
}.

(** [void *eph_read_compressed_block(const void *data, int data_size,
    int *data_ofs, int *size)]. *)
Definition eph_read_compressed_block {codec : Zlib} (data : list byte)
    (data_size data_ofs : Z) : outcome compressed_block :=
  size ← access (read_i32 data data_ofs);
  comp_size ← access (read_i32 data (data_ofs + 4));
  let lsize := wrap64 size in
  let ret := zmalloc lsize in
  let ofs' := add32 data_ofs (add32 8 comp_size) in
  let '(code, ret') :=
    zuncompress ret lsize (drop (Z.to_nat (data_ofs + 8)) data)
      (wrap64 comp_size) in
  if negb (code =? Z_OK)
  then Done {| cb_ret := None; cb_size := size; cb_ofs := ofs';
               cb_log := [Cannot_uncompress_data] |}
  else Done {| cb_ret := ret'; cb_size := size; cb_ofs := ofs';
               cb_log := [] |}.

(** ** Chunk iterator *)

Definition FILE_VERSION : Z := 2.

Definition magic : list byte := ["E"; "P"; "H"; "E"]%byte.

(** One call of the visitor: [callback(type, data + 8, chunk_data_size,
    user)], the payload pointer kept as an offset from the start of the
    buffer. The value the visitor returns is not looked at. *)
Record chunk_call : Type := {
  cc_type : list byte;
  cc_payload : Z;
  cc_size : Z
}.

(** A step of a computation that may not end: the rest runs when the step
    returns. *)
Definition after {A B} (m : outcome A) (k : A -> option (outcome B))
    : option (outcome B) :=
  match m with
  | Done a => k a
  | Aborted => Some Aborted
  | Undef => Some Undef
  end.

(** The loop [while (data_size) { ... }], [pos] being the pointer [data].
    The loop need not end, so the embedding counts turns: [None] when [fuel]
    turns were not enough. *)
Fixpoint eph_load_loop (fuel : nat) (data : list byte) (pos data_size : Z)
    (calls : list chunk_call) : option (outcome (Z * list chunk_call)) :=
  if data_size =? 0 then Some (Done (0, calls))
  else
    match fuel with
    | O => None
    | S fuel' =>
        after (CHECK (8 <=? data_size)) (fun _ =>
        after (access (read_bytes data pos 4)) (fun type =>
        after (access (read_i32 data (pos + 4))) (fun chunk_data_size =>
        eph_load_loop fuel' data
          (pos + add32 chunk_data_size 12)
          (sub32 data_size (add32 chunk_data_size 12))
          (calls ++ [{| cc_type := type; cc_payload := pos + 8;
                        cc_size := chunk_data_size |}]))))
    end.

(** [int eph_load(const void *data, int data_size, void *user, callback)]:
    the value returned and the calls made to the visitor. *)
Definition eph_load (fuel : nat) (data : list byte) (data_size : Z)
    : option (outcome (Z * list chunk_call)) :=
  after (CHECK (4 <=? data_size)) (fun _ =>
  after (access (strncmp data (magic ++ [x00]) 4)) (fun c =>
  after (CHECK (c =? 0)) (fun _ =>
  after (access (read_i32 data 4)) (fun version =>
  let data_size := sub32 data_size 8 in
  after (CHECK (version =? FILE_VERSION)) (fun _ =>
  eph_load_loop fuel data 8 data_size []))))).

(** ** The byte transpose *)

(** The assignment [data[j * nb + i] = buf[i * size + j]]. *)
Definition shuffle_cell (buf : list byte) (nb size j i : Z) (data : list byte)
    : outcome (list byte) :=
  b ← access (get buf (add32 (mul32 i size) j));
  access (set data (add32 (mul32 j nb) i) b).

(** [static void shuffle_bytes(uint8_t *data, int nb, int size)].
    [calloc(nb, size)] cannot serve a negative count, and [memcpy] reads
    [nb * size] bytes at [data]. *)
Definition shuffle_bytes (data : list byte) (nb size : Z)
    : outcome (list byte) :=
  if (nb <? 0) || (size <? 0) then Undef
  else
    buf ← access (read_bytes data 0 (mul32 nb size));
    for_loop (Z.to_nat size) 0
      (fun j data => for_loop (Z.to_nat nb) 0 (shuffle_cell buf nb size j) data)
      data.

(** ** Table schema *)

(** Modelled from the spec: [eph_table_column_t] is declared in
    [eph-file.h], outside the sources at hand. Its fields are the ones
    [eph-file.c] reads and writes: the 4-character name, the type tag (one
    [char]), the requested unit and the declared size, all given by the
    caller, and the resolved offset, source unit and row stride. *)
Record eph_table_column : Type := {
  name : list byte;
  type : byte;
  unit : Z;
  start : Z;
  size : Z;
  src_unit : Z;
  row_size : Z
}.

Definition set_row_size (v : Z) (c : eph_table_column) : eph_table_column :=
  {| name := name c; type := type c; unit := unit c; start := start c;
     size := size c; src_unit := src_unit c; row_size := v |}.
Definition set_start (v : Z) (c : eph_table_column) : eph_table_column :=
  {| name := name c; type := type c; unit := unit c; start := v;
     size := size c; src_unit := src_unit c; row_size := row_size c |}.
Definition set_src_unit (v : Z) (c : eph_table_column) : eph_table_column :=
  {| name := name c; type := type c; unit := unit c; start := start c;
     size := size c; src_unit := v; row_size := row_size c |}.
Definition set_size (v : Z) (c : eph_table_column) : eph_table_column :=
  {| name := name c; type := type c; unit := unit c; start := start c;
     size := v; src_unit := src_unit c; row_size := row_size c |}.

(** What a call of [eph_read_table_prepare] leaves: the value returned, the
    buffer (shuffled in place or not), the cursor, the caller's columns and
    what was logged. *)
Record prepared : Type := {
  p_ret : Z;
  p_data : list byte;
  p_ofs : Z;
  p_columns : list eph_table_column;
  p_log : list log_msg
}.

(** The [switch] that gives a column without a size the size of its type. *)
Definition default_size (c : eph_table_column) : eph_table_column :=
  if truth (size c) then c
  else if Byte.eqb (type c) "i"%byte || Byte.eqb (type c) "f"%byte then set_size 4 c
  else if Byte.eqb (type c) "Q"%byte then set_size 8 c
  else c.

(** One turn of the loop of the old format; the state is the columns and
    the local [start]. *)
Definition legacy_column (row_size : Z) (i : Z)
    (s : list eph_table_column * Z) : outcome (list eph_table_column * Z) :=
  let '(columns, start) := s in
  c ← access (get columns i);
  let c := default_size (set_src_unit (unit c) (set_start start (set_row_size row_size c))) in
  columns ← access (set columns i c);
  Done (columns, add32 start (size c)).

(** The search [for (j = 0; j < nb_columns; j++) if (strncmp(columns[j].name,
    name, 4) == 0) break;]: the value of [j] after the loop, [n] turns being
    left. *)
Fixpoint find_column (n : nat) (j : Z) (columns : list eph_table_column)
    (nm : list byte) : outcome Z :=
  match n with
  | O => Done j
  | S n' =>
      c ← access (get columns j);
      d ← access (strncmp (name c) nm 4);
      if d =? 0 then Done j else find_column n' (j + 1) columns nm
  end.

(** One turn of the loop over the columns on disk, [base] being the pointer
    [data]; [inr] is the [return -1] after "Wrong type", with the columns as
    they are at that point. *)
Definition match_column (data : list byte) (base row_size nb_columns : Z)
    (i : Z) (columns : list eph_table_column)
    : outcome (list eph_table_column + list eph_table_column) :=
  nm ← access (read_bytes data (base + 16 + mul32 i 20) 4);
  ty ← access (read_bytes data (base + 20 + mul32 i 20) 4);
  j ← find_column (Z.to_nat nb_columns) 0 columns nm;
  if j =? nb_columns then Done (inl columns)
  else
    c ← access (get columns j);
    t ← access (get ty 0);
    if negb (Byte.eqb (type c) t) then Done (inr columns)
    else
      let c := set_row_size row_size c in
      u ← access (read_i32 data (base + 24 + mul32 i 20));
      let c := set_src_unit u c in
      s ← access (read_i32 data (base + 28 + mul32 i 20));
      let c := set_start s c in
      z ← access (read_i32 data (base + 32 + mul32 i 20));
      let c := set_size z c in
      columns ← access (set columns j c);
      Done (inl columns).

(** One turn of the loop that checks that all the columns have been found. *)
Definition check_column (columns : list eph_table_column) (i : Z) (s : ())
    : outcome (() + log_msg) :=
  c ← access (get columns i);
  if negb (truth (row_size c)) then Done (inr (Cannot_find_column (name c)))
  else Done (inl tt).

(** [shuffle_bytes(data + ofs, nb, size)]: the transpose of the bytes from
    [ofs] on. *)
Definition shuffle_at (data : list byte) (ofs nb size : Z)
    : outcome (list byte) :=
  if (ofs <? 0) || (Z.of_nat (length data) <? ofs) then Undef
  else
    t ← shuffle_bytes (drop (Z.to_nat ofs) data) nb size;
    Done (take (Z.to_nat ofs) data ++ t).

(** [int eph_read_table_prepare(int version, void *data, int data_size,
    int *data_ofs, int row_size, int nb_columns,
    eph_table_column_t *columns)]. *)
Definition eph_read_table_prepare (version : Z) (data : list byte)
    (data_size data_ofs row_size nb_columns : Z)
    (columns : list eph_table_column) : outcome prepared :=
  _ ← assert (data_ofs =? 0);
  let base := data_ofs in
  if version <? 3 then
    data ← (if negb (row_size =? 104)
            then q ← access (div32 data_size row_size);
                 shuffle_at data base row_size q
            else Done data);
    '(columns, _) ← for_loop (Z.to_nat nb_columns) 0
                      (legacy_column row_size) (columns, 0);
    q ← access (div32 data_size row_size);
    Done {| p_ret := q; p_data := data; p_ofs := data_ofs;
            p_columns := columns; p_log := [] |}
  else
    flags ← access (read_i32 data (base + 0));
    row_size ← access (read_i32 data (base + 4));
    n_col ← access (read_i32 data (base + 8));
    n_row ← access (read_i32 data (base + 12));
    r ← for_loop_ret (Z.to_nat n_col) 0
          (match_column data base row_size nb_columns) columns;
    match r with
    | inr columns =>
        Done {| p_ret := -1; p_data := data; p_ofs := data_ofs;
                p_columns := columns; p_log := [Wrong_type] |}
    | inl columns =>
        r ← for_loop_ret (Z.to_nat nb_columns) 0 (check_column columns) tt;
        match r with
        | inr msg =>
            Done {| p_ret := -1; p_data := data; p_ofs := data_ofs;
                    p_columns := columns; p_log := [msg] |}
        | inl _ =>
            data ← (if truth (Z.land flags 1)
                    then shuffle_at data (base + 16 + mul32 n_col 20)
                           row_size n_row
                    else Done data);
            Done {| p_ret := n_row; p_data := data;
                    p_ofs := add32 data_ofs (add32 16 (mul32 n_col 20));
                    p_columns := columns; p_log := [] |}
        end
    end.

(** ** Unit conversion *)

(** The [double] that a [float] of bits [w] converts to: every binary32
    number is a binary64 number. *)
Definition f32_of_bits (w : Z) : float :=
  let s := Z.testbit w 31 in
  let e := Z.land (Z.shiftr w 23) 255 in
  let m := Z.land w (2^23 - 1) in
  if e =? 255 then
    if m =? 0 then (if s then neg_infinity else infinity) else nan
  else
    let mant := if e =? 0 then m else m + 2^23 in
    let ex := if e =? 0 then -149 else e - 150 in
    let f := Z.ldexp (PrimFloat.of_uint63 (Uint63.of_Z mant)) ex in
    if s then (- f)%float else f.

Section Units.

(** The constants [DD2R] (degrees to radians) and [DR2D] (radians to
    degrees) are macros defined outside [eph-file.c]. *)
Variables DD2R DR2D : float.

(** [double eph_convert_f(int src_unit, int unit, double v)]. *)
Definition eph_convert_f (src_unit unit : Z) (v : float) : float :=
  if negb (truth unit) || (src_unit =? unit) then v
  else
    let v := if truth (Z.land src_unit 1) && negb (truth (Z.land unit 1))
             then (v * DD2R)%float else v in
    let v := if negb (truth (Z.land src_unit 1)) && truth (Z.land unit 1)
             then (v * DR2D)%float else v in
    let v := if truth (Z.land src_unit 2) && negb (truth (Z.land unit 2))
             then (v / 60)%float else v in
    let v := if negb (truth (Z.land src_unit 2)) && truth (Z.land unit 2)
             then (v * 60)%float else v in
    let v := if truth (Z.land src_unit 4) && negb (truth (Z.land unit 4))
             then (v / 60)%float else v in
    let v := if negb (truth (Z.land src_unit 4)) && truth (Z.land unit 4)
             then (v * 60)%float else v in
    let v := if truth (Z.land src_unit 8) && negb (truth (Z.land unit 8))
             then (v * 365.25)%float else v in
    let v := if negb (truth (Z.land src_unit 8)) && truth (Z.land unit 8)
             then (v / 365.25)%float else v in
    v.

(** ** Row decoder *)

(** What the call leaves in the object that a variadic argument points to:
    an [int], a [double], a [uint64_t], or the bytes copied to a [char]
    array. *)
Inductive slot : Type :=
| Slot_int (v : Z)
| Slot_double (v : float)
| Slot_uint64 (v : Z)
| Slot_bytes (bs : list byte).

(** The [switch] on the type of column [c]; the state is the caller's
    objects [slots], in the order of the variadic arguments, and the
    position [ap] of the next argument that [va_arg] takes. *)
Definition read_column (data : list byte) (base : Z) (c : eph_table_column)
    (s : list slot * Z) : outcome (list slot * Z) :=
  let '(slots, ap) := s in
  if Byte.eqb (type c) "i"%byte then
    v ← access (read_i32 data (base + start c));
    slots ← access (set slots ap (Slot_int v));
    Done (slots, ap + 1)
  else if Byte.eqb (type c) "f"%byte then
    w ← access (read_u32 data (base + start c));
    slots ← access
      (set slots ap
         (Slot_double (eph_convert_f (src_unit c) (unit c) (f32_of_bits w))));
    Done (slots, ap + 1)
  else if Byte.eqb (type c) "Q"%byte then
    v ← access (read_u64 data (base + start c));
    slots ← access (set slots ap (Slot_uint64 v));
    Done (slots, ap + 1)
  else if Byte.eqb (type c) "s"%byte then
    bs ← access (read_bytes data (base + start c) (size c));
    slots ← access (set slots ap (Slot_bytes bs));
    Done (slots, ap + 1)
  else Done (slots, ap).

Record row : Type := {
  r_ret : Z;
  r_slots : list slot;
  r_ofs : Z
}.

(** [int eph_read_table_row(const void *data, int data_size, int *data_ofs,
    int nb_columns, const eph_table_column_t *columns, ...)]. *)
Definition eph_read_table_row (data : list byte) (data_size data_ofs : Z)
    (nb_columns : Z) (columns : list eph_table_column) (slots : list slot)
    : outcome row :=
  _ ← assert (0 <? nb_columns);
  let base := data_ofs in
  '(slots, _) ← for_loop (Z.to_nat nb_columns) 0
                  (fun i s => c ← access (get columns i);
                              read_column data base c s)
                  (slots, 0);
  c0 ← access (get columns 0);
  Done {| r_ret := 0; r_slots := slots;
          r_ofs := add32 data_ofs (row_size c0) |}.

End Units.

(** * Notions of the specification

    What the properties below are stated with: the words of the
    specification, the functions that the loops of the code compute, and the
    buffers of the examples. *)

(** ** The byte transpose *)

(** Where the byte that the transpose puts at [k] comes from. *)
Definition source_index (nb size k : Z) : Z := (k mod nb) * size + k / nb.

(** The state [d] of the buffer [data] when the cells before [k] have been
    written. *)
Definition written (data : list byte) (nb size k : Z) (d : list byte) : Prop :=
  length d = length data /\
  (forall m, 0 <= m < k ->
     d !! Z.to_nat m = data !! Z.to_nat (source_index nb size m)) /\
  (forall m, k <= m -> d !! Z.to_nat m = data !! Z.to_nat m).

(** ** Unit conversion *)

(** The specification's reading of the converter: bit [k] of a unit code is
    one flag; a flag that the source has and the target lacks applies
    [lose], one that the target has and the source lacks applies [gain]. *)
Definition unit_flag (u k : Z) : bool := Z.testbit u k.

Definition toggle (k : Z) (lose gain : float -> float) (source target : Z)
    (v : float) : float :=
  if unit_flag source k && negb (unit_flag target k) then lose v
  else if negb (unit_flag source k) && unit_flag target k then gain v
  else v.

Definition convert_chain (DD2R DR2D : float) (source target : Z) (v : float)
    : float :=
  let v := toggle 0 (fun v => v * DD2R)%float (fun v => v * DR2D)%float
             source target v in
  let v := toggle 1 (fun v => v / 60)%float (fun v => v * 60)%float
             source target v in
  let v := toggle 2 (fun v => v / 60)%float (fun v => v * 60)%float
             source target v in
  toggle 3 (fun v => v * 365.25)%float (fun v => v / 365.25)%float
    source target v.


(** ** The value of a 4-byte float *)

(** The number that the 32 bits [w] stand for in the binary32 format of
    IEEE 754: one bit of sign, 8 bits of exponent with a bias of 127, and
    23 bits of fraction. An exponent field of 255 is an infinity or not a
    number; an exponent field of 0 is a zero or the subnormal number
    [fraction * 2^-149]; any other is [(2^23 + fraction) * 2^(exponent -
    150)]. *)
Definition binary32 (w : Z) : spec_float :=
  let negative := 2 ^ 31 <=? w in
  let exponent := (w / 2 ^ 23) mod 2 ^ 8 in
  let fraction := w mod 2 ^ 23 in
  if exponent =? 255 then
    if fraction =? 0 then S754_infinity negative else S754_nan
  else if exponent =? 0 then
    if fraction =? 0 then S754_zero negative
    else S754_finite negative (Z.to_pos fraction) (-149)
  else S754_finite negative (Z.to_pos (2 ^ 23 + fraction)) (exponent - 150).

(** That number as a [double], which holds every binary32 number. *)
Definition double_of_binary32 (w : Z) : float := SF2Prim (binary32 w).

(** ** The old table format *)

(** The size of a column of the old format: the declared one, or by default
    4 for the types 'i' and 'f' and 8 for the type 'Q'. *)
Definition declared_size (c : eph_table_column) : Z :=
  if size c =? 0 then
    if Byte.eqb (type c) "i"%byte || Byte.eqb (type c) "f"%byte then 4
    else if Byte.eqb (type c) "Q"%byte then 8
    else 0
  else size c.

(** The offset of column [i]: the [int] sum of the sizes of the columns
    before it. *)
Definition sequential_offset (columns : list eph_table_column) (i : nat) : Z :=
  foldl add32 0 (declared_size <$> take i columns).

(** Column [c] of the old format once resolved at offset [st]. *)
Definition legacy_resolved (row_size st : Z) (c : eph_table_column)
    : eph_table_column :=
  {| name := name c; type := type c; unit := unit c; start := st;
     size := declared_size c; src_unit := unit c; row_size := row_size |}.

(** ** Names *)

(** The string that [n] characters at most of [s] hold: what comes before
    the first NUL. *)
Fixpoint c_string_n (n : nat) (s : list byte) : list byte :=
  match n, s with
  | S n', c :: t => if Byte.eqb c x00 then [] else c :: c_string_n n' t
  | _, _ => []
  end.

(** The string in a name of four characters. *)
Definition c_string (s : list byte) : list byte := c_string_n 4 s.
Arguments c_string : simpl never.

(** Whether the name of column [c] is [nm] for [strncmp]. *)
Definition named (nm : list byte) (c : eph_table_column) : bool :=
  match strncmp (name c) nm 4 with
  | Some 0 => true
  | _ => false
  end.

(** The number of columns before the first one named [nm]: the value of [j]
    after the search. *)
Fixpoint first_named (nm : list byte) (columns : list eph_table_column) : nat :=
  match columns with
  | [] => 0
  | c :: columns' => if named nm c then 0 else S (first_named nm columns')
  end.

(** ** The current table format *)

(** A column as the table describes it: the name, the type tag (the first
    byte of its field, the one that the matcher compares), the unit, the
    offset and the size. *)
Record disk_column : Type := {
  d_name : list byte;
  d_type : byte;
  d_unit : Z;
  d_start : Z;
  d_size : Z
}.

Record table : Type := {
  t_flags : Z;
  t_row_size : Z;
  t_n_col : Z;
  t_n_row : Z;
  t_columns : list disk_column
}.

(** The descriptor of column [i]: 20 bytes from offset [16 + 20 * i]. *)
Definition descriptor (data : list byte) (i : Z) : option disk_column :=
  nm ← read_bytes data (16 + 20 * i) 4;
  ty ← read_bytes data (20 + 20 * i) 4;
  t ← ty !! 0%nat;
  u ← read_i32 data (24 + 20 * i);
  s ← read_i32 data (28 + 20 * i);
  z ← read_i32 data (32 + 20 * i);
  Some {| d_name := nm; d_type := t; d_unit := u; d_start := s; d_size := z |}.

Fixpoint descriptors (data : list byte) (n : nat) (i : Z)
    : option (list disk_column) :=
  match n with
  | O => Some []
  | S n' =>
      d ← descriptor data i;
      ds ← descriptors data n' (i + 1);
      Some (d :: ds)
  end.

(** The table at the start of [data], when its header and descriptors lie
    within the buffer. *)
Definition parse_table (data : list byte) : option table :=
  flags ← read_i32 data 0;
  row_size ← read_i32 data 4;
  n_col ← read_i32 data 8;
  n_row ← read_i32 data 12;
  ds ← descriptors data (Z.to_nat n_col) 0;
  Some {| t_flags := flags; t_row_size := row_size; t_n_col := n_col;
          t_n_row := n_row; t_columns := ds |}.

(** Column [c] once matched with the descriptor [d]. *)
Definition resolve (row_size : Z) (d : disk_column) (c : eph_table_column)
    : eph_table_column :=
  {| name := name c; type := type c; unit := unit c; start := d_start d;
     size := d_size d; src_unit := d_unit d; row_size := row_size |}.

(** What one descriptor does to the columns: nothing when no column has its
    name, [inr] when the first column of that name has another type. *)
Definition match_step (row_size : Z) (columns : list eph_table_column)
    (d : disk_column) : list eph_table_column + list eph_table_column :=
  let j := first_named (d_name d) columns in
  match columns !! j with
  | None => inl columns
  | Some c =>
      if Byte.eqb (type c) (d_type d)
      then inl (<[j := resolve row_size d c]> columns)
      else inr columns
  end.

Fixpoint match_all (row_size : Z) (ds : list disk_column)
    (columns : list eph_table_column)
    : list eph_table_column + list eph_table_column :=
  match ds with
  | [] => inl columns
  | d :: ds' =>
      match match_step row_size columns d with
      | inl columns' => match_all row_size ds' columns'
      | inr columns' => inr columns'
      end
  end.

(** The descriptor [d] stops the matcher: the first column of its name has
    another type. *)
Definition stops (columns : list eph_table_column) (d : disk_column) : Prop :=
  exists c,
    columns !! first_named (d_name d) columns = Some c /\ type c <> d_type d.

(** The first column whose row stride is zero. *)
Fixpoint unresolved (columns : list eph_table_column)
    : option eph_table_column :=
  match columns with
  | [] => None
  | c :: columns' => if row_size c =? 0 then Some c else unresolved columns'
  end.

(** Column [c] is found by name among the columns [ds] of the table. *)
Definition on_disk (ds : list disk_column) (c : eph_table_column) : Prop :=
  exists d, d ∈ ds /\ c_string (d_name d) = c_string (name c).

(** A column of the table has the name of a declared column and another
    type tag. *)
Definition type_clash (ds : list disk_column)
    (columns : list eph_table_column) : Prop :=
  exists c d,
    c ∈ columns /\ d ∈ ds /\ c_string (d_name d) = c_string (name c) /\
    d_type d <> type c.

(** ** Rows *)

(** The value that the decoder reads for column [c] of the row at [base],
    with the conversions of the code ([eph_convert_f], [f32_of_bits]): a
    4-byte integer for the type 'i', the 4-byte float converted from the
    source unit to the requested unit for 'f', an 8-byte unsigned integer
    for 'Q', [size] bytes as they are for 's'; [None] when the type is none
    of these or when the value lies outside the buffer. [decoded_value]
    below says the same in the words of the specification. *)
Definition column_value (DD2R DR2D : float) (data : list byte) (base : Z)
    (c : eph_table_column) : option slot :=
  if Byte.eqb (type c) "i"%byte then
    Slot_int <$> read_i32 data (base + start c)
  else if Byte.eqb (type c) "f"%byte then
    (fun w => Slot_double
                (eph_convert_f DD2R DR2D (src_unit c) (unit c) (f32_of_bits w)))
    <$> read_u32 data (base + start c)
  else if Byte.eqb (type c) "Q"%byte then
    Slot_uint64 <$> read_u64 data (base + start c)
  else if Byte.eqb (type c) "s"%byte then
    Slot_bytes <$> read_bytes data (base + start c) (size c)
  else None.



(** The types that the decoder knows; a column of another type takes no
    argument. *)
Definition known (c : eph_table_column) : bool :=
  Byte.eqb (type c) "i"%byte || Byte.eqb (type c) "f"%byte
  || Byte.eqb (type c) "Q"%byte || Byte.eqb (type c) "s"%byte.

(** The values of a row, one per column of a known type, in the order of
    the columns. *)
Definition row_values (DD2R DR2D : float) (data : list byte) (base : Z)
    (columns : list eph_table_column) : list slot :=
  omap (column_value DD2R DR2D data base) columns.

(** ** Containers *)

(** A sequence of chunk records: each is a type tag of 4 bytes, the length
    of the payload in 4 bytes, the payload, and a trailer of 4 bytes. *)
Inductive chunks : list byte -> Prop :=
| chunks_nil : chunks []
| chunks_cons (tag len payload trailer rest : list byte) :
    length tag = 4%nat ->
    length len = 4%nat ->
    le_uint len = Z.of_nat (length payload) ->
    length trailer = 4%nat ->
    chunks rest ->
    chunks (tag ++ len ++ payload ++ trailer ++ rest).

(** A container: the magic, the supported version, and chunk records up to
    the last byte. *)
Definition container (data : list byte) : Prop :=
  exists version body,
    length version = 4%nat /\
    wrap32 (le_uint version) = FILE_VERSION /\
    data = magic ++ version ++ body /\
    chunks body.

(** ** Buffers and codec of the examples *)

#[global] Instance byte_eq_decision : EqDecision byte := Byte.byte_eq_dec.

(** The buffer that holds a tile header: the version, then [nuniq]. *)
Definition tile_header_bytes (version nuniq : Z) : list byte :=
  le_bytes 4 version ++ le_bytes 8 nuniq.

(** A column as a caller declares it: nothing resolved yet. *)
Definition declare (nm : list byte) (ty : byte) (u sz : Z) : eph_table_column :=
  {| name := nm; type := ty; unit := u; start := 0; size := sz;
     src_unit := 0; row_size := 0 |}.

(** The 16 bytes that open a table of the current format, and the 20 bytes
    that describe one of its columns. *)
Definition table_header (flags row_size n_col n_row : Z) : list byte :=
  le_bytes 4 flags ++ le_bytes 4 row_size ++ le_bytes 4 n_col
  ++ le_bytes 4 n_row.

Definition column_descriptor (nm : list byte) (ty : byte) (u ofs sz : Z)
    : list byte :=
  nm ++ [ty; x00; x00; x00] ++ le_bytes 4 u ++ le_bytes 4 ofs ++ le_bytes 4 sz.

Definition name_mag : list byte := ["m"; "a"; "g"; x00]%byte.
Definition name_id : list byte := ["i"; "d"; x00; x00]%byte.

(** A table of one row of 12 bytes with the columns "mag" (a float in
    degrees at offset 8) and "id" (an integer at offset 0). *)
Definition mag_id_table : list byte :=
  table_header 0 12 2 1
  ++ column_descriptor name_mag "f" 1 8 4
  ++ column_descriptor name_id "i" 0 0 4
  ++ le_bytes 4 7 ++ le_bytes 4 0 ++ le_bytes 4 0x42b40000.

(** A table whose rows are stored shuffled: three rows of two bytes in the
    column "id", the first bytes of the rows before the second ones. *)
Definition shuffled_table : list byte :=
  table_header 1 2 1 3
  ++ column_descriptor name_id "s" 0 0 2
  ++ ["a"; "b"; "c"; "d"; "e"; "f"]%byte.

(** A stand-in for zlib in the examples: blocks are stored as they are.
    The allocator gives zeroed blocks of less than 2^16 bytes; a stored
    block that does not fit the destination is a buffer error (-5), and a
    NULL destination a stream error (-2). *)
Definition stored_malloc (n : Z) : option (list byte) :=
  if (0 <=? n) && (n <? 2^16) then Some (replicate (Z.to_nat n) x00) else None.

Definition stored_uncompress (dest : option (list byte)) (dest_len : Z)
    (source : list byte) (source_len : Z) : Z * option (list byte) :=
  match dest with
  | Some block =>
      if (0 <=? source_len)
         && (source_len <=? Z.of_nat (length source))
         && (source_len <=? Z.of_nat (length block))
      then (Z_OK, Some (take (Z.to_nat source_len) source
                        ++ drop (Z.to_nat source_len) block))
      else (-5, Some block)
  | None => (-2, None)
  end.

#[program] Definition stored_codec : Zlib := {|
  zmalloc := stored_malloc;
  zuncompress := stored_uncompress
|}.
Next Obligation.
  intros n block. unfold stored_malloc.
  destruct (Z.leb_spec 0 n); [|discriminate].
  destruct (n <? 2^16); [|discriminate].
  intros [= <-]. rewrite length_replicate. lia.
Qed.
Next Obligation.
  intros block n source m. unfold stored_uncompress.
  destruct (Z.leb_spec 0 m); cbn [andb]; [|now eexists].
  destruct (Z.leb_spec m (Z.of_nat (length source))); cbn [andb];
    [|now eexists].
  destruct (Z.leb_spec m (Z.of_nat (length block))); [|now eexists].
  eexists. split; [reflexivity|].
  rewrite length_app, length_take, length_drop. lia.
Qed.
Next Obligation. reflexivity. Qed.

(** ** The contract of the inflate primitive *)



(** A block of three stored bytes after a tile header. *)
Definition stored_block_example : list byte :=
  tile_header_bytes 2 (4 * 4 ^ 3 + 5) ++ le_bytes 4 3 ++ le_bytes 4 3
  ++ ["a"; "b"; "c"]%byte.

Definition tag_star : list byte := ["S"; "T"; "A"; "R"]%byte.

(** One chunk "STAR" with a payload of three bytes. *)
Definition star_container : list byte :=
  magic ++ le_bytes 4 2
  ++ tag_star ++ le_bytes 4 3 ++ ["a"; "b"; "c"]%byte ++ le_bytes 4 0.

(** ** Containers written down *)

(** A chunk record as the comment at the top of [eph-file.c] lays it out:
    the type, the length of the data, the data, and 4 bytes of CRC. *)
Record chunk : Type := {
  ch_tag : list byte;
  ch_payload : list byte;
  ch_trailer : list byte
}.

Definition chunk_ok (c : chunk) : Prop :=
  length (ch_tag c) = 4%nat /\ length (ch_trailer c) = 4%nat.

Definition chunk_bytes (c : chunk) : list byte :=
  ch_tag c ++ le_bytes 4 (Z.of_nat (length (ch_payload c)))
  ++ ch_payload c ++ ch_trailer c.

Fixpoint chunks_bytes (cs : list chunk) : list byte :=
  match cs with
  | [] => []
  | c :: cs' => chunk_bytes c ++ chunks_bytes cs'
  end.

(** The file that holds the chunks [cs]. *)
Definition container_bytes (cs : list chunk) : list byte :=
  magic ++ le_bytes 4 FILE_VERSION ++ chunks_bytes cs.

(** The calls that the visitor is owed for the chunks [cs] when the first of
    them starts at [pos]. *)
Fixpoint visits (pos : Z) (cs : list chunk) : list chunk_call :=
  match cs with
  | [] => []
  | c :: cs' =>
      {| cc_type := ch_tag c; cc_payload := pos + 8;
         cc_size := Z.of_nat (length (ch_payload c)) |}
      :: visits (pos + 12 + Z.of_nat (length (ch_payload c))) cs'
  end.

(** Two chunks, the second with no data. *)
Definition two_chunks : list chunk :=
  [ {| ch_tag := tag_star; ch_payload := ["a"; "b"; "c"]%byte;
       ch_trailer := le_bytes 4 0 |};
    {| ch_tag := tag_star; ch_payload := []; ch_trailer := le_bytes 4 0 |} ].

(** * Properties *)

(** ** Integers, buffers and loops *)

Lemma wrap32_range z : in_int (wrap32 z).
Proof.
  unfold in_int, wrap32, INT_MIN, INT_MAX.
  pose proof (Z.mod_pos_bound (z + 2^31) (2^32) ltac:(lia)). lia.
Qed.

Lemma wrap32_id z : in_int z -> wrap32 z = z.
Proof.
  unfold in_int, wrap32, INT_MIN, INT_MAX. intros H.
  rewrite Z.mod_small by lia. lia.
Qed.

Lemma add32_id a b : in_int (a + b) -> add32 a b = a + b.
Proof. apply wrap32_id. Qed.

Lemma sub32_id a b : in_int (a - b) -> sub32 a b = a - b.
Proof. apply wrap32_id. Qed.

Lemma mul32_id a b : in_int (a * b) -> mul32 a b = a * b.
Proof. apply wrap32_id. Qed.

Lemma wrap64_id z : 0 <= z < 2^64 -> wrap64 z = z.
Proof. intros H. unfold wrap64. now rewrite Z.mod_small. Qed.

Lemma in_int_nonneg z : 0 <= z <= INT_MAX -> in_int z.
Proof. unfold in_int, INT_MIN, INT_MAX. lia. Qed.

Lemma get_lookup {A} (l : list A) k :
  0 <= k -> get l k = l !! Z.to_nat k.
Proof. intros H. unfold get. destruct (Z.ltb_spec k 0); [lia|reflexivity]. Qed.

Lemma get_nat {A} (l : list A) (n : nat) : get l (Z.of_nat n) = l !! n.
Proof. rewrite get_lookup by lia. now rewrite Nat2Z.id. Qed.

Lemma set_insert {A} (l : list A) k v :
  0 <= k < Z.of_nat (length l) -> set l k v = Some (<[Z.to_nat k := v]> l).
Proof.
  intros H. unfold set.
  destruct (Z.leb_spec 0 k); [|lia].
  destruct (Z.ltb_spec k (Z.of_nat (length l))); [reflexivity|lia].
Qed.

Lemma read_bytes_Some data ofs n :
  0 <= ofs -> 0 <= n -> ofs + n <= Z.of_nat (length data) ->
  read_bytes data ofs n = Some (take (Z.to_nat n) (drop (Z.to_nat ofs) data)).
Proof.
  intros H1 H2 H3. unfold read_bytes.
  destruct (Z.leb_spec 0 ofs); [|lia].
  destruct (Z.leb_spec 0 n); [|lia].
  destruct (Z.leb_spec (ofs + n) (Z.of_nat (length data))); [reflexivity|lia].
Qed.

Lemma read_bytes_inv data ofs n bs :
  read_bytes data ofs n = Some bs ->
  0 <= ofs /\ 0 <= n /\ ofs + n <= Z.of_nat (length data) /\
  bs = take (Z.to_nat n) (drop (Z.to_nat ofs) data).
Proof.
  unfold read_bytes.
  destruct (Z.leb_spec 0 ofs); [|discriminate].
  destruct (Z.leb_spec 0 n); [|discriminate].
  destruct (Z.leb_spec (ofs + n) (Z.of_nat (length data))); [|discriminate].
  simpl. intros [= <-]. repeat split; lia.
Qed.

Lemma length_read_bytes data ofs n bs :
  read_bytes data ofs n = Some bs -> Z.of_nat (length bs) = n.
Proof.
  intros H. apply read_bytes_inv in H as (H1 & H2 & H3 & ->).
  rewrite length_take, length_drop. lia.
Qed.

Lemma byte_val_bound b : 0 <= byte_val b < 256.
Proof.
  unfold byte_val. pose proof (Byte.to_N_bounded b). lia.
Qed.

Lemma le_uint_bound bs : 0 <= le_uint bs < 256 ^ Z.of_nat (length bs).
Proof.
  induction bs as [|b bs IH]; [simpl; lia|].
  cbn [le_uint length]. rewrite Nat2Z.inj_succ, Z.pow_succ_r by lia.
  pose proof (byte_val_bound b). lia.
Qed.

(** The loop rule: an invariant kept by every turn holds at the end. *)
Lemma for_loop_inv {S : Type} (P : Z -> S -> Prop) body :
  forall (n : nat) (i0 : Z) (s0 : S),
    P i0 s0 ->
    (forall i s, i0 <= i < i0 + Z.of_nat n -> P i s ->
       exists s', body i s = Done s' /\ P (i + 1) s') ->
    exists s', for_loop n i0 body s0 = Done s' /\ P (i0 + Z.of_nat n) s'.
Proof.
  induction n as [|n IH]; intros i0 s0 H0 Hstep.
  - exists s0. split; [reflexivity|].
    now replace (i0 + Z.of_nat 0) with i0 by lia.
  - destruct (Hstep i0 s0 ltac:(lia) H0) as (s1 & Hb & H1).
    destruct (IH (i0 + 1) s1 H1) as (s' & Hl & H').
    { intros i s Hi. apply Hstep. lia. }
    exists s'. split.
    + cbn [for_loop]. rewrite Hb. exact Hl.
    + now replace (i0 + Z.of_nat (Datatypes.S n)) with (i0 + 1 + Z.of_nat n) by lia.
Qed.

(** ** Names *)

Lemma byte_eqb_eq a b : Byte.eqb a b = true <-> a = b.
Proof. split; [apply Byte.byte_dec_bl|apply Byte.byte_dec_lb]. Qed.

Lemma byte_eqb_neq a b : Byte.eqb a b = false <-> a <> b.
Proof.
  split.
  - intros H E. apply byte_eqb_eq in E. congruence.
  - intros H. destruct (Byte.eqb a b) eqn:E; [|reflexivity].
    apply byte_eqb_eq in E. contradiction.
Qed.

Lemma byte_val_inj a b : byte_val a = byte_val b -> a = b.
Proof.
  unfold byte_val. intros H. apply N2Z.inj in H.
  pose proof (Byte.of_to_N a) as Ha. rewrite H, Byte.of_to_N in Ha.
  congruence.
Qed.

Lemma strncmp_is_Some n : forall a b,
  (n <= length a)%nat -> (n <= length b)%nat -> is_Some (strncmp a b n).
Proof.
  induction n as [|n IH]; intros [|c1 a] [|c2 b] Ha Hb; cbn in *;
    try lia; try (eexists; reflexivity).
  destruct (Byte.eqb c1 c2); [|eexists; reflexivity].
  destruct (Byte.eqb c1 x00); [eexists; reflexivity|].
  apply IH; lia.
Qed.

Lemma strncmp_c_string n : forall a b,
  (n <= length a)%nat -> (n <= length b)%nat ->
  strncmp a b n = Some 0 <-> c_string_n n a = c_string_n n b.
Proof.
  induction n as [|n IH]; intros [|c1 a] [|c2 b] Ha Hb; cbn in *;
    try lia; try tauto.
  destruct (Byte.eqb c1 c2) eqn:E.
  - apply byte_eqb_eq in E. subst c2.
    destruct (Byte.eqb c1 x00); [tauto|].
    rewrite IH by lia. split; [now intros ->|now intros [= ->]].
  - apply byte_eqb_neq in E. split.
    + intros [= H]. exfalso. apply E, byte_val_inj. lia.
    + destruct (Byte.eqb c1 x00) eqn:E1, (Byte.eqb c2 x00) eqn:E2;
        try discriminate.
      * apply byte_eqb_eq in E1, E2. congruence.
      * intros [= H _]. contradiction.
Qed.

Arguments strncmp : simpl never.

Lemma named_c_string nm c :
  length (name c) = 4%nat -> length nm = 4%nat ->
  named nm c = true <-> c_string (name c) = c_string nm.
Proof.
  intros Hc Hn. unfold named, c_string.
  rewrite <- strncmp_c_string by lia.
  destruct (strncmp (name c) nm 4) as [[| |]|]; split; congruence.
Qed.

Lemma first_named_le nm columns : (first_named nm columns <= length columns)%nat.
Proof.
  induction columns as [|c l IH]; cbn; [lia|].
  destruct (named nm c); lia.
Qed.

Lemma first_named_lookup nm columns c :
  columns !! first_named nm columns = Some c -> named nm c = true.
Proof.
  induction columns as [|c' l IH]; cbn; [discriminate|].
  destruct (named nm c') eqn:E; cbn; [congruence|exact IH].
Qed.

Lemma first_named_before nm columns j c :
  (j < first_named nm columns)%nat -> columns !! j = Some c ->
  named nm c = false.
Proof.
  revert j. induction columns as [|c' l IH]; intros j; cbn; [lia|].
  destruct (named nm c') eqn:E; [lia|].
  destruct j as [|j]; cbn; [congruence|].
  intros Hj. apply IH. lia.
Qed.

Lemma first_named_names nm columns columns' :
  name <$> columns = name <$> columns' ->
  first_named nm columns = first_named nm columns'.
Proof.
  revert columns'. induction columns as [|c l IH]; intros [|c' l'] H;
    try discriminate; [reflexivity|].
  cbn in H. injection H as Hc Hl. cbn. unfold named. rewrite Hc.
  now rewrite (IH l' Hl).
Qed.

Lemma find_column_first_named nm columns :
  Forall (fun c => length (name c) = 4%nat) columns -> length nm = 4%nat ->
  forall (n : nat) (k : nat),
    (k + n = length columns)%nat ->
    find_column n (Z.of_nat k) columns nm
    = Done (Z.of_nat (k + first_named nm (drop k columns))).
Proof.
  intros Hnames Hnm. induction n as [|n IH]; intros k Hk.
  - cbn. rewrite drop_ge by lia. cbn. now rewrite Nat.add_0_r.
  - destruct (lookup_lt_is_Some_2 columns k ltac:(lia)) as [c Hc].
    cbn [find_column]. rewrite get_nat, Hc. cbn.
    rewrite (drop_S _ _ _ Hc). cbn [first_named]. unfold named.
    assert (Hlen : length (name c) = 4%nat).
    { eapply (proj1 (Forall_lookup _ _) Hnames); eauto. }
    destruct (strncmp_is_Some 4 (name c) nm ltac:(lia) ltac:(lia)) as [d Hd].
    rewrite Hd. cbn.
    destruct (Z.eqb_spec d 0) as [->|Hne].
    + now rewrite Nat.add_0_r.
    + replace (Z.of_nat k + 1) with (Z.of_nat (S k)) by lia.
      rewrite IH by lia. f_equal.
      destruct d; [contradiction|lia|lia].
Qed.

(** ** Tile header *)

Lemma pow4_pow2 n : 0 <= n -> 4 ^ n = 2 ^ (2 * n).
Proof. intros Hn. now rewrite Z.pow_mul_r by lia. Qed.

Lemma half_log2_nuniq order pixel :
  0 <= order -> 0 <= pixel < 4 * 4 ^ order ->
  half_log2 ((4 * 4 ^ order + pixel) / 4) = Some order.
Proof.
  intros Ho Hp. unfold half_log2.
  assert (H4 : 0 < 4 ^ order) by (apply Z.pow_pos_nonneg; lia).
  replace (4 * 4 ^ order + pixel) with (pixel + 4 ^ order * 4) by lia.
  rewrite Z.div_add by lia.
  assert (Hq : 0 <= pixel / 4 < 4 ^ order).
  { split; [apply Z.div_pos; lia|apply Z.div_lt_upper_bound; lia]. }
  destruct (Z.leb_spec (pixel / 4 + 4 ^ order) 0); [lia|].
  f_equal.
  rewrite (Z.log2_unique (pixel / 4 + 4 ^ order) (2 * order)).
  - rewrite Z.mul_comm. apply Z.div_mul. lia.
  - lia.
  - rewrite Z.pow_succ_r, <- pow4_pow2 by lia. lia.
Qed.

(** C3, as stated, fails at order 15: the pixel 2^31 of that order is in
    the range of the claim, and no [int], which [*pix] is, has that value. *)
Lemma eph_read_tile_header_order_15 :
  let order := 15 in
  let pixel := 2147483648 in
  let data := tile_header_bytes 1 (4 * 4 ^ order + pixel) in
  (0 <= pixel < 4 * 4 ^ order) /\
  read_u64 data 4 = Some (4 * 4 ^ order + pixel) /\
  eph_read_tile_header data 12 0
  = Done {| th_ret := 0; th_version := 1; th_order := 15;
            th_pix := -2147483648; th_ofs := 12 |} /\
  (forall z, in_int z -> z <> pixel).
Proof.
  cbv zeta. split; [lia|]. split; [reflexivity|]. split; [reflexivity|].
  unfold in_int, INT_MAX. lia.
Qed.

(** C3, amended. For every order in [0, 14] and pixel in [0, 4 * 4^order),
    [eph_read_tile_header] on a buffer whose header carries
    [nuniq = 4 * 4^order + pixel] yields that order and that pixel, and
    advances the cursor by 12 bytes. *)
Theorem eph_read_tile_header_nuniq (data : list byte) (data_size data_ofs : Z)
    (version order pixel : Z) :
  0 <= order <= 14 -> 0 <= pixel < 4 * 4 ^ order ->
  Z.of_nat (length data) = data_size -> data_size <= INT_MAX ->
  read_i32 data data_ofs = Some version ->
  read_u64 data (data_ofs + 4) = Some (4 * 4 ^ order + pixel) ->
  eph_read_tile_header data data_size data_ofs
  = Done {| th_ret := 0; th_version := version; th_order := order;
            th_pix := pixel; th_ofs := data_ofs + 12 |}.
Proof.
  intros Ho Hp Hlen Hsize Hv Hn.
  unfold eph_read_tile_header. rewrite Hv, Hn. cbn.
  rewrite half_log2_nuniq by lia. cbn.
  assert (Hmax : INT_MAX = 2^31 - 1) by reflexivity.
  assert (Hmin : INT_MIN = - 2^31) by reflexivity.
  assert (H4 : 0 < 4 ^ order <= 4 ^ 14).
  { split; [apply Z.pow_pos_nonneg; lia|apply Z.pow_le_mono_r; lia]. }
  change (4 ^ 14) with 268435456 in H4.
  rewrite (mul32_id 2 order) by (unfold in_int; lia).
  unfold shl32.
  destruct (Z.leb_spec 0 (2 * order)); [|lia].
  destruct (Z.ltb_spec (2 * order) 32); [|lia].
  cbn. rewrite Z.shiftl_1_l, <- pow4_pow2 by lia.
  rewrite (wrap32_id (4 ^ order)) by (unfold in_int; lia).
  rewrite (mul32_id 4 (4 ^ order)) by (unfold in_int; lia).
  rewrite (wrap64_id (4 * 4 ^ order)) by lia.
  replace (4 * 4 ^ order + pixel - 4 * 4 ^ order) with pixel by lia.
  rewrite (wrap64_id pixel) by lia.
  rewrite (wrap32_id pixel) by (unfold in_int; lia).
  unfold read_u64 in Hn.
  destruct (read_bytes data (data_ofs + 4) 8) as [bs|] eqn:Hb; [|discriminate].
  apply read_bytes_inv in Hb as (Hb1 & _ & Hb2 & _).
  unfold read_i32 in Hv.
  destruct (read_bytes data data_ofs 4) as [bs'|] eqn:Hb'; [|discriminate].
  apply read_bytes_inv in Hb' as (Hb3 & _).
  rewrite add32_id by (unfold in_int; lia).
  reflexivity.
Qed.

(** The tile of order 3 and pixel 5, after four bytes of something else. *)
Lemma eph_read_tile_header_nuniq_witness :
  eph_read_tile_header
    (le_bytes 4 0 ++ tile_header_bytes 2 (4 * 4 ^ 3 + 5)) 16 4
  = Done {| th_ret := 0; th_version := 2; th_order := 3;
            th_pix := 5; th_ofs := 4 + 12 |}.
Proof.
  apply (eph_read_tile_header_nuniq
           (le_bytes 4 0 ++ tile_header_bytes 2 (4 * 4 ^ 3 + 5)) 16 4 2 3 5).
  - lia.
  - lia.
  - reflexivity.
  - unfold INT_MAX. lia.
  - reflexivity.
  - reflexivity.
Defined.

(** ** Compressed block *)




Example eph_read_compressed_block_stored :
  eph_read_compressed_block (codec := stored_codec) stored_block_example 23 12
  = Done {| cb_ret := Some ["a"; "b"; "c"]%byte; cb_size := 3; cb_ofs := 23;
            cb_log := [] |}.
Proof. reflexivity. Qed.

(** The same block cut one byte short: the stand-in reports an error. *)
Example eph_read_compressed_block_truncated :
  eph_read_compressed_block (codec := stored_codec)
    (take 22 stored_block_example) 22 12
  = Done {| cb_ret := None; cb_size := 3; cb_ofs := 23;
            cb_log := [Cannot_uncompress_data] |}.
Proof. reflexivity. Qed.


(** ** Chunk iterator *)

Example eph_load_star :
  eph_load 1 star_container 23
  = Some (Done (0, [ {| cc_type := tag_star; cc_payload := 16;
                        cc_size := 3 |} ])).
Proof. reflexivity. Qed.

(** The payload cut one byte short: the remainder -1 fails the check. *)
Example eph_load_star_truncated :
  eph_load 2 (take 22 star_container) 22 = Some Aborted.
Proof. reflexivity. Qed.

Example eph_load_bad_magic :
  eph_load 1 (["E"; "P"; "H"; "F"]%byte ++ le_bytes 4 2) 8 = Some Aborted.
Proof. reflexivity. Qed.

Example eph_load_bad_version :
  eph_load 1 (magic ++ le_bytes 4 3) 8 = Some Aborted.
Proof. reflexivity. Qed.

(** A payload length of -12 makes the iterator visit the same chunk for
    ever. *)
Example eph_load_no_progress :
  eph_load 1000 (magic ++ le_bytes 4 2 ++ tag_star ++ le_bytes 4 (-12)) 16
  = None.
Proof. vm_compute. reflexivity. Qed.

Lemma chunks_length body :
  chunks body -> body = [] \/ (12 <= length body)%nat.
Proof.
  intros [|tag len payload trailer rest Ht Hl _ Hc _]; [now left|right].
  rewrite !length_app. lia.
Qed.

(** C1 at the input that breaks it: after the magic and the version come 8
    bytes, a tag and the length -4. No chunk record fits in 8 bytes, and
    [eph_load] returns 0, having passed the visitor a payload of -4 bytes
    that starts at the end of the buffer. *)
Theorem eph_load_negative_length :
  let data := magic ++ le_bytes 4 2 ++ tag_star ++ le_bytes 4 (-4) in
  Z.of_nat (length data) = 16 /\
  eph_load 1 data 16
  = Some (Done (0, [ {| cc_type := tag_star; cc_payload := 16;
                        cc_size := -4 |} ])) /\
  ~ container data.
Proof.
  cbv zeta. split; [reflexivity|]. split; [reflexivity|].
  intros (version & body & Hv & _ & Hdata & Hbody).
  apply (f_equal length) in Hdata as Hlen.
  rewrite !length_app in Hlen. cbn in Hlen.
  destruct (chunks_length body Hbody) as [->|H12]; cbn in Hlen; lia.
Qed.

(** *** Containers are accepted *)

Lemma read_bytes_prefix data pos (a b : list byte) :
  0 <= pos <= Z.of_nat (length data) ->
  drop (Z.to_nat pos) data = a ++ b ->
  read_bytes data pos (Z.of_nat (length a)) = Some a /\
  drop (Z.to_nat (pos + Z.of_nat (length a))) data = b.
Proof.
  intros Hpos Hd.
  assert (Hl : (length (drop (Z.to_nat pos) data) = length a + length b)%nat).
  { now rewrite Hd, length_app. }
  rewrite length_drop in Hl. split.
  - rewrite read_bytes_Some by lia.
    now rewrite Hd, Nat2Z.id, take_app_length.
  - replace (Z.to_nat (pos + Z.of_nat (length a)))
      with (Z.to_nat pos + length a)%nat by lia.
    now rewrite <- drop_drop, Hd, drop_app_length.
Qed.

Lemma wrap32_sub_wrap32 a b : wrap32 (a - wrap32 b) = wrap32 (a - b).
Proof.
  unfold wrap32. f_equal.
  pose proof (Z.div_mod (b + 2^31) (2^32) ltac:(lia)) as Hb.
  replace (a - ((b + 2^31) mod 2^32 - 2^31) + 2^31)
    with (a - b + 2^31 + ((b + 2^31) / 2^32) * 2^32) by lia.
  apply Z.mod_add. lia.
Qed.

Lemma sub32_add32 a b c : sub32 a (add32 b c) = wrap32 (a - b - c).
Proof.
  unfold sub32, add32. rewrite wrap32_sub_wrap32. f_equal. lia.
Qed.

Lemma eph_load_loop_chunks data :
  Z.of_nat (length data) <= INT_MAX ->
  forall body, chunks body ->
  forall fuel pos calls,
    0 <= pos -> drop (Z.to_nat pos) data = body ->
    (length body <= fuel)%nat ->
    exists calls',
      eph_load_loop fuel data pos (Z.of_nat (length body)) calls
      = Some (Done (0, calls')).
Proof.
  intros Hlen body Hbody.
  assert (Hmax : INT_MAX = 2^31 - 1) by reflexivity.
  assert (Hmin : INT_MIN = - 2^31) by reflexivity.
  induction Hbody as [|tag len payload trailer rest Htag Hlenb Hpay Htr Hrest IH];
    intros fuel pos calls Hpos Hdrop Hfuel.
  - exists calls. now destruct fuel.
  - assert (Hl : (length (drop (Z.to_nat pos) data)
                  = 12 + length payload + length rest)%nat).
    { rewrite Hdrop, !length_app. lia. }
    rewrite length_drop in Hl.
    rewrite !length_app in Hfuel |- *.
    destruct fuel as [|fuel]; [lia|]. cbn [eph_load_loop].
    destruct (Z.eqb_spec (Z.of_nat (length tag + (length len + (length payload
                + (length trailer + length rest))))) 0) as [|_]; [lia|].
    destruct (Z.leb_spec 8 (Z.of_nat (length tag + (length len + (length payload
                + (length trailer + length rest)))))) as [_|]; [|lia].
    cbn [CHECK after].
    destruct (read_bytes_prefix data pos tag _ ltac:(lia) Hdrop) as [Hr1 Hd1].
    rewrite Htag in Hr1, Hd1. change (Z.of_nat 4) with 4 in Hr1, Hd1.
    rewrite Hr1. cbn [access after].
    destruct (read_bytes_prefix data (pos + 4) len _ ltac:(lia) Hd1)
      as [Hr2 Hd2].
    rewrite Hlenb in Hr2, Hd2. change (Z.of_nat 4) with 4 in Hr2, Hd2.
    unfold read_i32. rewrite Hr2.
    cbn [fmap option_fmap option_map access after].
    rewrite Hpay, (wrap32_id (Z.of_nat (length payload)))
      by (unfold in_int; lia).
    rewrite sub32_add32, add32_id by (unfold in_int; lia).
    rewrite wrap32_id by (unfold in_int; lia).
    destruct (read_bytes_prefix data (pos + 4 + 4) payload _ ltac:(lia) Hd2)
      as [_ Hd3].
    destruct (read_bytes_prefix data
                (pos + 4 + 4 + Z.of_nat (length payload)) trailer _
                ltac:(lia) Hd3) as [_ Hd4].
    rewrite Htr in Hd4. change (Z.of_nat 4) with 4 in Hd4.
    replace (Z.of_nat (length tag + (length len + (length payload
               + (length trailer + length rest))))
             - Z.of_nat (length payload) - 12)
      with (Z.of_nat (length rest)) by lia.
    apply IH; [lia| |lia].
    rewrite <- Hd4. f_equal. lia.
Qed.

(** Every container whose size is an [int] is accepted: [eph_load] returns
    0, in no more turns than the buffer has bytes. *)
Lemma eph_load_container data :
  Z.of_nat (length data) <= INT_MAX ->
  container data ->
  exists calls,
    eph_load (length data) data (Z.of_nat (length data))
    = Some (Done (0, calls)).
Proof.
  intros Hlen (version & body & Hv & Hver & -> & Hbody).
  assert (Hmax : INT_MAX = 2^31 - 1) by reflexivity.
  assert (Hmin : INT_MIN = - 2^31) by reflexivity.
  rewrite !length_app in Hlen |- *. cbn [magic length] in Hlen |- *.
  unfold eph_load.
  destruct (Z.leb_spec 4 (Z.of_nat (4 + (length version + length body))));
    [|lia].
  cbn [CHECK after]. change (strncmp _ _ 4) with (Some 0).
  cbn [access after Z.eqb CHECK].
  destruct (read_bytes_prefix (magic ++ version ++ body) 4 version body
              ltac:(rewrite !length_app; cbn [magic length]; lia) eq_refl)
    as [Hr Hd].
  rewrite Hv in Hr, Hd. change (Z.of_nat 4) with 4 in Hr, Hd.
  unfold read_i32. rewrite Hr. cbn [fmap option_fmap option_map access after].
  rewrite Hver. cbn [Z.eqb FILE_VERSION Pos.eqb CHECK after].
  rewrite sub32_id by (unfold in_int; lia).
  replace (Z.of_nat (4 + (length version + length body)) - 8)
    with (Z.of_nat (length body)) by lia.
  apply (eph_load_loop_chunks (magic ++ version ++ body)).
  - rewrite !length_app. cbn [magic length]. lia.
  - exact Hbody.
  - lia.
  - exact Hd.
  - lia.
Qed.

(** *** What is accepted with lengths that are not negative is a container *)

Lemma eph_load_loop_calls data : forall fuel pos rem calls r calls',
  eph_load_loop fuel data pos rem calls = Some (Done (r, calls')) ->
  exists new, calls' = calls ++ new.
Proof.
  induction fuel as [|fuel IH]; intros pos rem calls r calls'; cbn.
  - destruct (rem =? 0); [|discriminate].
    intros [= _ <-]. exists []. now rewrite app_nil_r.
  - destruct (rem =? 0).
    { intros [= _ <-]. exists []. now rewrite app_nil_r. }
    destruct (8 <=? rem); [|discriminate].
    destruct (read_bytes data pos 4) as [tag|]; [|discriminate].
    destruct (read_i32 data (pos + 4)) as [s|]; [|discriminate].
    cbn. intros H. apply IH in H as [new ->].
    eexists. now rewrite <- app_assoc.
Qed.

Lemma chunk_split (l : list byte) (s : nat) :
  l = take 4 l ++ take 4 (drop 4 l) ++ take s (drop 8 l)
      ++ take 4 (drop (8 + s) l) ++ drop (12 + s) l.
Proof.
  rewrite <- (take_drop 4 l) at 1. f_equal.
  rewrite <- (take_drop 4 (drop 4 l)) at 1. f_equal.
  rewrite drop_drop. change (4 + 4)%nat with 8%nat.
  rewrite <- (take_drop s (drop 8 l)) at 1. f_equal.
  rewrite drop_drop.
  rewrite <- (take_drop 4 (drop (8 + s) l)) at 1. f_equal.
  rewrite drop_drop. f_equal. lia.
Qed.

Lemma wrap32_le_uint (bs : list byte) s :
  length bs = 4%nat -> wrap32 (le_uint bs) = s -> 0 <= s -> le_uint bs = s.
Proof.
  intros Hl Hw Hs. pose proof (le_uint_bound bs) as Hb. rewrite Hl in Hb.
  change (256 ^ Z.of_nat 4) with (2^32) in Hb.
  destruct (Z.lt_ge_cases (le_uint bs) (2^31)) as [Hlt|Hge].
  - rewrite wrap32_id in Hw; [exact Hw|]. unfold in_int, INT_MIN, INT_MAX. lia.
  - exfalso. unfold wrap32 in Hw.
    replace (le_uint bs + 2^31) with (le_uint bs - 2^31 + 1 * 2^32) in Hw by lia.
    rewrite Z.mod_add, Z.mod_small in Hw by lia. lia.
Qed.

Lemma wrap32_high z : 2^31 <= z < 2^32 + 2^31 -> wrap32 z = z - 2^32.
Proof.
  intros Hz. unfold wrap32.
  replace (z + 2^31) with (z - 2^31 + 1 * 2^32) by lia.
  rewrite Z.mod_add, Z.mod_small by lia. lia.
Qed.

Lemma wrap32_zero z : - 2^32 < z < 2^32 -> wrap32 z = 0 -> z = 0.
Proof.
  intros Hz Hw. unfold wrap32 in Hw.
  pose proof (Z.div_mod (z + 2^31) (2^32) ltac:(lia)) as Hd.
  pose proof (Z.mod_pos_bound (z + 2^31) (2^32) ltac:(lia)) as Hb.
  assert (Hq : (z + 2^31) / 2^32 = 0) by nia.
  lia.
Qed.

(** A turn that starts before the buffer or with a negative remainder does
    not end well. *)
Lemma eph_load_loop_overrun data fuel pos rem calls r :
  rem < 0 \/ (pos < 0 /\ rem <> 0) ->
  eph_load_loop fuel data pos rem calls <> Some (Done r).
Proof.
  intros H. destruct fuel as [|fuel]; cbn [eph_load_loop].
  - destruct (Z.eqb_spec rem 0); [lia|discriminate].
  - destruct (Z.eqb_spec rem 0); [lia|].
    destruct (Z.leb_spec 8 rem); cbn [CHECK after]; [|discriminate].
    unfold read_bytes. destruct (Z.leb_spec 0 pos); [lia|]. discriminate.
Qed.

Lemma eph_load_loop_sound data :
  Z.of_nat (length data) + 12 <= INT_MAX ->
  forall fuel pos rem calls new,
    0 <= pos -> 0 <= rem -> pos + rem = Z.of_nat (length data) ->
    eph_load_loop fuel data pos rem calls = Some (Done (0, calls ++ new)) ->
    Forall (fun c => 0 <= cc_size c) new ->
    chunks (drop (Z.to_nat pos) data).
Proof.
  intros Hlen.
  assert (Hmax : INT_MAX = 2^31 - 1) by reflexivity.
  assert (Hmin : INT_MIN = - 2^31) by reflexivity.
  assert (Hend : forall pos, pos + 0 = Z.of_nat (length data) ->
            chunks (drop (Z.to_nat pos) data)).
  { intros pos Hp. rewrite drop_ge by lia. constructor. }
  induction fuel as [|fuel IH]; intros pos rem calls new Hpos Hrem Hsum;
    cbn [eph_load_loop].
  - destruct (Z.eqb_spec rem 0) as [->|_]; [|discriminate]. auto.
  - destruct (Z.eqb_spec rem 0) as [->|Hne]; [auto|].
    destruct (Z.leb_spec 8 rem) as [H8|]; [|discriminate]. cbn [CHECK after].
    destruct (read_bytes data pos 4) as [tag|] eqn:Htag; [|discriminate].
    destruct (read_i32 data (pos + 4)) as [s|] eqn:Hs; [|discriminate].
    cbn [access after]. intros Hrec Hnew.
    destruct (eph_load_loop_calls _ _ _ _ _ _ _ Hrec) as [new' Hnew'].
    rewrite <- app_assoc in Hnew'. apply app_inv_head in Hnew'. subst new.
    apply Forall_cons in Hnew as [Hs0 Hnew']. cbn in Hs0.
    unfold read_i32 in Hs.
    destruct (read_bytes data (pos + 4) 4) as [len|] eqn:Hlenb; [|discriminate].
    cbn in Hs. injection Hs as Hs.
    pose proof (wrap32_range (le_uint len)) as Hsr. rewrite Hs in Hsr.
    unfold in_int in Hsr.
    rewrite sub32_add32 in Hrec.
    destruct (Z.le_gt_cases (s + 12) rem) as [Hfit|Hover].
    2: { exfalso. apply eph_load_loop_overrun in Hrec; [exact Hrec|].
         destruct (Z.le_gt_cases (s + 12) INT_MAX) as [Hsmall|Hbig].
         - left. rewrite wrap32_id by (unfold in_int; lia). lia.
         - right. unfold add32. rewrite wrap32_high by lia.
           split; [lia|]. intros H0. apply wrap32_zero in H0; lia. }
    rewrite wrap32_id in Hrec by (unfold in_int; lia).
    rewrite add32_id in Hrec by (unfold in_int; lia).
    rewrite (app_assoc calls) in Hrec.
    specialize (IH (pos + (s + 12)) (rem - s - 12) _ new'
                  ltac:(lia) ltac:(lia) ltac:(lia) Hrec Hnew').
    pose proof (length_read_bytes _ _ _ _ Hlenb) as Hl4.
    apply read_bytes_inv in Htag as (_ & _ & _ & ->).
    apply read_bytes_inv in Hlenb as (_ & _ & _ & ->).
    replace (Z.to_nat (pos + 4)) with (Z.to_nat pos + 4)%nat in * by lia.
    rewrite <- drop_drop in *.
    replace (Z.to_nat (pos + (s + 12)))
      with (Z.to_nat pos + (12 + Z.to_nat s))%nat in IH by lia.
    rewrite <- drop_drop in IH.
    change (Z.to_nat 4) with 4%nat in *.
    assert (Hl : (length (drop (Z.to_nat pos) data) = Z.to_nat rem)%nat).
    { rewrite length_drop. lia. }
    set (l := drop (Z.to_nat pos) data) in *.
    rewrite (chunk_split l (Z.to_nat s)).
    apply chunks_cons.
    + rewrite length_take. lia.
    + rewrite length_take, length_drop. lia.
    + rewrite length_take, length_drop.
      rewrite (wrap32_le_uint _ s); [lia| |exact Hs|exact Hs0].
      rewrite length_take, length_drop. lia.
    + rewrite length_take, length_drop. lia.
    + exact IH.
Qed.

(** X1. Whatever [eph_load] accepts after visiting only chunks of a length
    that is not negative is a container: the magic, the version 2, and chunk
    records that fill the buffer to its last byte. *)
Lemma eph_load_sound fuel data calls :
  Z.of_nat (length data) + 12 <= INT_MAX ->
  eph_load fuel data (Z.of_nat (length data)) = Some (Done (0, calls)) ->
  Forall (fun c => 0 <= cc_size c) calls ->
  container data.
Proof.
  intros Hlen Hload Hcalls.
  assert (Hmax : INT_MAX = 2^31 - 1) by reflexivity.
  assert (Hmin : INT_MIN = - 2^31) by reflexivity.
  unfold eph_load in Hload.
  destruct (Z.leb_spec 4 (Z.of_nat (length data))) as [H4|]; [|discriminate].
  cbn [CHECK after] in Hload.
  destruct (strncmp data (magic ++ [x00]) 4) as [c|] eqn:Hcmp; [|discriminate].
  cbn [access after] in Hload.
  destruct (Z.eqb_spec c 0) as [->|]; [|discriminate].
  cbn [CHECK after] in Hload.
  destruct (read_i32 data 4) as [version|] eqn:Hver; [|discriminate].
  cbn [access after] in Hload.
  destruct (Z.eqb_spec version FILE_VERSION) as [->|]; [|discriminate].
  cbn [CHECK after] in Hload.
  unfold read_i32 in Hver.
  destruct (read_bytes data 4 4) as [ver|] eqn:Hvb; [|discriminate].
  cbn in Hver. injection Hver as Hver.
  pose proof (length_read_bytes _ _ _ _ Hvb) as Hvl.
  apply read_bytes_inv in Hvb as (_ & _ & Hl8 & ->).
  rewrite sub32_id in Hload by (unfold in_int; lia).
  apply (eph_load_loop_sound data Hlen fuel 8 _ [] calls) in Hload;
    [|lia|lia|lia|exact Hcalls].
  exists (take 4 (drop 4 data)), (drop 8 data).
  split; [|split; [exact Hver|split; [|exact Hload]]].
  - rewrite length_take, length_drop. lia.
  - assert (Hm : take 4 data = magic).
    { apply (strncmp_c_string 4) in Hcmp; [|lia|cbn; lia].
      destruct data as [|b0 [|b1 [|b2 [|b3 rest]]]]; cbn in H4; try lia.
      clear -Hcmp. cbn in Hcmp.
      destruct (Byte.eqb b0 x00); [discriminate|].
      destruct (Byte.eqb b1 x00); [discriminate|].
      destruct (Byte.eqb b2 x00); [discriminate|].
      destruct (Byte.eqb b3 x00); [discriminate|].
      now injection Hcmp as -> -> -> ->. }
    rewrite <- Hm.
    rewrite <- (take_drop 4 data) at 1. f_equal.
    rewrite <- (take_drop 4 (drop 4 data)) at 1. f_equal.
    now rewrite drop_drop.
Qed.

Lemma eph_load_sound_witness : container star_container.
Proof.
  apply (eph_load_sound 1 star_container
           [ {| cc_type := tag_star; cc_payload := 16; cc_size := 3 |} ]).
  - vm_compute. discriminate.
  - reflexivity.
  - repeat constructor. simpl. lia.
Defined.

(** ** The byte transpose *)

Lemma source_index_cell nb size i j :
  0 <= i < nb -> source_index nb size (j * nb + i) = i * size + j.
Proof.
  intros Hi. unfold source_index.
  replace (j * nb + i) with (i + j * nb) by lia.
  rewrite Z.mod_add, Z.div_add by lia.
  rewrite Z.mod_small, Z.div_small by lia. lia.
Qed.

Lemma cell_bound nb size i j :
  0 <= i < nb -> 0 <= j < size -> 0 <= i * size + j < nb * size.
Proof. intros. nia. Qed.

Section Transpose.

Variables (data : list byte) (nb size : Z).
Hypothesis Hnb : 0 <= nb.
Hypothesis Hsize : 0 <= size.
Hypothesis Hlen : nb * size <= Z.of_nat (length data).
Hypothesis Hint : nb * size <= INT_MAX.

Lemma shuffle_cell_written j i d :
  0 <= j < size -> 0 <= i < nb ->
  written data nb size (j * nb + i) d ->
  exists d',
    shuffle_cell (take (Z.to_nat (nb * size)) data) nb size j i d = Done d' /\
    written data nb size (j * nb + (i + 1)) d'.
Proof.
  intros Hj Hi (Hl & Hlow & Hhigh).
  pose proof (cell_bound nb size i j Hi Hj) as Hsrc.
  pose proof (cell_bound size nb j i Hj Hi) as Hdst.
  assert (Hmax : INT_MAX = 2^31 - 1) by reflexivity.
  unfold shuffle_cell.
  rewrite (mul32_id i size), (add32_id (i * size) j)
    by (apply in_int_nonneg; nia).
  rewrite (mul32_id j nb), (add32_id (j * nb) i)
    by (apply in_int_nonneg; nia).
  rewrite get_lookup by lia.
  rewrite lookup_take_lt by lia.
  destruct (data !! Z.to_nat (i * size + j)) as [b|] eqn:Hb.
  2: { apply lookup_ge_None in Hb. lia. }
  cbn. rewrite set_insert by lia. cbn.
  eexists. split; [reflexivity|].
  split; [now rewrite length_insert|]. split.
  - intros m Hm. destruct (Z.eq_dec m (j * nb + i)) as [->|Hne].
    + rewrite list_lookup_insert_eq by lia.
      now rewrite source_index_cell.
    + rewrite list_lookup_insert_ne by lia. apply Hlow. lia.
  - intros m Hm. rewrite list_lookup_insert_ne by lia. apply Hhigh. lia.
Qed.

Lemma shuffle_row_written j d :
  0 <= j < size ->
  written data nb size (j * nb) d ->
  exists d',
    for_loop (Z.to_nat nb) 0
      (shuffle_cell (take (Z.to_nat (nb * size)) data) nb size j) d = Done d' /\
    written data nb size ((j + 1) * nb) d'.
Proof.
  intros Hj Hw.
  destruct (for_loop_inv (fun i d => written data nb size (j * nb + i) d)
              (shuffle_cell (take (Z.to_nat (nb * size)) data) nb size j)
              (Z.to_nat nb) 0 d) as (d' & Hd & Hw').
  - now rewrite Z.add_0_r.
  - intros i s Hi Hs. apply shuffle_cell_written; [lia|lia|exact Hs].
  - exists d'. split; [exact Hd|].
    replace ((j + 1) * nb) with (j * nb + (0 + Z.of_nat (Z.to_nat nb))) by lia.
    exact Hw'.
Qed.

Lemma shuffle_bytes_written :
  exists out,
    shuffle_bytes data nb size = Done out /\
    written data nb size (nb * size) out.
Proof.
  unfold shuffle_bytes.
  destruct (Z.ltb_spec nb 0); [lia|]. destruct (Z.ltb_spec size 0); [lia|].
  cbn [orb].
  assert (Hmax : INT_MAX = 2^31 - 1) by reflexivity.
  rewrite mul32_id by (apply in_int_nonneg; nia).
  rewrite read_bytes_Some by lia. cbn. rewrite drop_0.
  destruct (for_loop_inv (fun j d => written data nb size (j * nb) d)
              (fun j d => for_loop (Z.to_nat nb) 0
                 (shuffle_cell (take (Z.to_nat (nb * size)) data) nb size j) d)
              (Z.to_nat size) 0 data) as (d' & Hd & Hw').
  - split; [reflexivity|]. split; [intros; lia|reflexivity].
  - intros j s Hj Hs. apply shuffle_row_written; [lia|exact Hs].
  - exists d'. split; [exact Hd|].
    replace (nb * size) with ((0 + Z.of_nat (Z.to_nat size)) * nb) by lia.
    exact Hw'.
Qed.

End Transpose.

Example shuffle_bytes_2_3 :
  shuffle_bytes ["a"; "b"; "c"; "d"; "e"; "f"]%byte 2 3
  = Done ["a"; "d"; "b"; "e"; "c"; "f"]%byte.
Proof. reflexivity. Qed.

Example shuffle_bytes_longer_buffer :
  shuffle_bytes ["a"; "b"; "c"; "d"; "e"; "f"; "g"]%byte 3 2
  = Done ["a"; "c"; "e"; "b"; "d"; "f"; "g"]%byte.
Proof. reflexivity. Qed.

(** C4. For [nb >= 1], [size >= 1] and a buffer of [nb * size] bytes (a
    product that the code forms as an [int]), [shuffle_bytes] rewrites the
    buffer so that [output[j * nb + i] = input[i * size + j]] for every row
    [i] in [0, nb) and column [j] in [0, size); and applying it again with
    the two dimensions swapped gives the original buffer back. *)
Theorem shuffle_bytes_transpose (data : list byte) (nb size : Z) :
  1 <= nb -> 1 <= size ->
  Z.of_nat (length data) = nb * size -> nb * size <= INT_MAX ->
  exists out,
    shuffle_bytes data nb size = Done out /\
    length out = length data /\
    (forall i j, 0 <= i < nb -> 0 <= j < size ->
       get out (j * nb + i) = get data (i * size + j)) /\
    shuffle_bytes out size nb = Done data.
Proof.
  intros Hnb Hsize Hlen Hint.
  destruct (shuffle_bytes_written data nb size) as (out & Hout & Hl & Hlow & _);
    [lia..|].
  exists out. split; [exact Hout|]. split; [exact Hl|].
  assert (Hcell : forall i j, 0 <= i < nb -> 0 <= j < size ->
            out !! Z.to_nat (j * nb + i) = data !! Z.to_nat (i * size + j)).
  { intros i j Hi Hj. rewrite Hlow by nia. now rewrite source_index_cell. }
  split.
  { intros i j Hi Hj. rewrite !get_lookup by nia. now apply Hcell. }
  destruct (shuffle_bytes_written out size nb) as (back & Hback & Hl' & Hlow' & _);
    [lia | lia | rewrite Hl; lia | lia |].
  rewrite Hback. f_equal.
  apply list_eq. intros n.
  destruct (Z.lt_ge_cases (Z.of_nat n) (size * nb)) as [Hn|Hn].
  - specialize (Hlow' (Z.of_nat n) ltac:(lia)).
    rewrite Nat2Z.id in Hlow'. rewrite Hlow'. unfold source_index.
    pose proof (Z.mod_pos_bound (Z.of_nat n) size ltac:(lia)).
    assert (0 <= Z.of_nat n / size < nb).
    { split; [apply Z.div_pos; lia|]. apply Z.div_lt_upper_bound; lia. }
    rewrite Hcell by lia. f_equal.
    pose proof (Z.div_mod (Z.of_nat n) size ltac:(lia)). lia.
  - rewrite !(proj2 (lookup_ge_None _ _)); [reflexivity|lia..].
Qed.

Lemma shuffle_bytes_transpose_witness :
  exists out,
    shuffle_bytes ["a"; "b"; "c"; "d"; "e"; "f"]%byte 2 3 = Done out /\
    length out = 6%nat /\
    (forall i j, 0 <= i < 2 -> 0 <= j < 3 ->
       get out (j * 2 + i) = get ["a"; "b"; "c"; "d"; "e"; "f"]%byte (i * 3 + j)) /\
    shuffle_bytes out 3 2 = Done ["a"; "b"; "c"; "d"; "e"; "f"]%byte.
Proof.
  apply (shuffle_bytes_transpose ["a"; "b"; "c"; "d"; "e"; "f"]%byte 2 3).
  - lia.
  - lia.
  - reflexivity.
  - unfold INT_MAX. lia.
Defined.

(** ** The cursor of the schema matcher *)

Example eph_read_table_prepare_mag_id :
  eph_read_table_prepare 3 mag_id_table 52 0 0 2
    [declare name_id "i" 0 0; declare name_mag "f" 0 0]
  = Done {| p_ret := 1; p_data := mag_id_table; p_ofs := 56;
            p_columns :=
              [ {| name := name_id; type := "i"; unit := 0; start := 0;
                   size := 4; src_unit := 0; row_size := 12 |};
                {| name := name_mag; type := "f"; unit := 0; start := 8;
                   size := 4; src_unit := 1; row_size := 12 |} ];
            p_log := [] |}.
Proof. reflexivity. Qed.

(** C9. [eph_read_table_prepare] asserts that the cursor is zero on entry:
    from any other cursor the call does not get past the assertion, whereas
    the tile header, compressed block and row readers do read at a cursor
    that is not zero. *)
Theorem eph_read_table_prepare_cursor_zero :
  (forall version data data_size data_ofs row_size nb_columns columns,
     data_ofs <> 0 ->
     eph_read_table_prepare version data data_size data_ofs row_size
       nb_columns columns = Aborted) /\
  (exists data data_size data_ofs h,
     data_ofs <> 0 /\
     eph_read_tile_header data data_size data_ofs = Done h) /\
  (forall codec : Zlib, exists data data_size data_ofs b,
     data_ofs <> 0 /\
     eph_read_compressed_block data data_size data_ofs = Done b) /\
  (forall DD2R DR2D, exists data data_size data_ofs nb_columns columns slots r,
     data_ofs <> 0 /\
     eph_read_table_row DD2R DR2D data data_size data_ofs nb_columns columns
       slots = Done r).
Proof.
  split; [|split; [|split]].
  - intros version data data_size data_ofs row_size nb_columns columns Hne.
    unfold eph_read_table_prepare.
    destruct (Z.eqb_spec data_ofs 0) as [|_]; [contradiction|]. reflexivity.
  - exists (le_bytes 4 0 ++ tile_header_bytes 2 (4 * 4 ^ 3 + 5)), 16, 4.
    eexists. split; [lia|reflexivity].
  - intros codec.
    exists (le_bytes 4 0 ++ le_bytes 4 2 ++ le_bytes 4 2 ++ le_bytes 2 0), 14, 4.
    unfold eph_read_compressed_block.
    change (read_i32 _ 4) with (Some 2). change (read_i32 _ (4 + 4)) with (Some 2).
    cbn [access mbind outcome_bind].
    destruct (zuncompress _ _ _ _) as [code ret'].
    destruct (negb (code =? Z_OK)); eexists; (split; [lia|reflexivity]).
  - intros DD2R DR2D.
    exists (le_bytes 4 0 ++ le_bytes 4 7), 8, 4, 1,
      [ {| name := name_id; type := "i"; unit := 0; start := 0; size := 4;
           src_unit := 0; row_size := 4 |} ], [Slot_int 0].
    eexists. split; [lia|reflexivity].
Qed.

Lemma eph_read_table_prepare_cursor_zero_witness :
  eph_read_table_prepare 3 (le_bytes 4 0 ++ mag_id_table) 56 4 0 2
    [declare name_id "i" 0 0; declare name_mag "f" 0 0] = Aborted.
Proof.
  apply (proj1 eph_read_table_prepare_cursor_zero).
  lia.
Defined.

(** ** The old table format *)

Lemma default_size_resolved row_size st c :
  default_size (set_src_unit (unit c) (set_start st (set_row_size row_size c)))
  = legacy_resolved row_size st c.
Proof.
  destruct c as [nm ty u s0 sz su rs].
  unfold default_size, legacy_resolved, declared_size, truth. cbn.
  destruct (Z.eqb_spec sz 0) as [->|E]; cbn.
  - destruct (Byte.eqb ty "i" || Byte.eqb ty "f"); cbn.
    + reflexivity.
    + destruct (Byte.eqb ty "Q"); reflexivity.
  - reflexivity.
Qed.

Lemma sequential_offset_S columns i c :
  columns !! i = Some c ->
  sequential_offset columns (S i)
  = add32 (sequential_offset columns i) (declared_size c).
Proof.
  intros Hc. unfold sequential_offset.
  rewrite (take_S_r _ _ _ Hc), fmap_app, foldl_app. reflexivity.
Qed.

Lemma sum_nonneg (l : list Z) : Forall (Z.le 0) l -> 0 <= foldr Z.add 0 l.
Proof. induction 1; cbn; lia. Qed.

Lemma foldl_add32_sum (l : list Z) : forall acc,
  Forall (Z.le 0) l -> 0 <= acc -> acc + foldr Z.add 0 l <= INT_MAX ->
  foldl add32 acc l = acc + foldr Z.add 0 l.
Proof.
  induction l as [|z l IH]; intros acc Hl Hacc Hb; cbn in *; [lia|].
  apply Forall_cons in Hl as [Hz Hl].
  pose proof (sum_nonneg l Hl).
  rewrite add32_id by (apply in_int_nonneg; lia).
  rewrite IH by (trivial; lia). lia.
Qed.

(** Without overflow the offset is the plain sum of the sizes. *)
Lemma sequential_offset_sum columns i :
  Forall (fun c => 0 <= declared_size c) columns ->
  foldr Z.add 0 (declared_size <$> columns) <= INT_MAX ->
  sequential_offset columns i = foldr Z.add 0 (declared_size <$> take i columns).
Proof.
  intros Hpos Hsum. unfold sequential_offset.
  rewrite <- (take_drop i columns) in Hsum at 1.
  rewrite fmap_app, foldr_app in Hsum.
  assert (Hshift : forall (l : list Z) acc,
            foldr Z.add acc l = acc + foldr Z.add 0 l).
  { induction l as [|y l IH]; intros acc; cbn; [lia|]. rewrite IH. lia. }
  rewrite Hshift in Hsum.
  assert (Ht : Forall (Z.le 0) (declared_size <$> take i columns)).
  { apply Forall_fmap, Forall_take. exact Hpos. }
  assert (Hd : Forall (Z.le 0) (declared_size <$> drop i columns)).
  { apply Forall_fmap, Forall_drop. exact Hpos. }
  apply sum_nonneg in Hd.
  rewrite foldl_add32_sum; [lia|exact Ht|lia|lia].
Qed.

Lemma shuffle_at_0 data nb size :
  shuffle_at data 0 nb size = shuffle_bytes data nb size.
Proof.
  unfold shuffle_at.
  destruct (Z.ltb_spec 0 0); [lia|].
  destruct (Z.ltb_spec (Z.of_nat (length data)) 0); [lia|].
  cbn. rewrite drop_0.
  destruct (shuffle_bytes data nb size); reflexivity.
Qed.

Lemma legacy_columns_resolved row_size columns :
  exists cols st,
    for_loop (length columns) 0 (legacy_column row_size) (columns, 0)
    = Done (cols, st) /\
    cols = imap (fun i c =>
                   legacy_resolved row_size (sequential_offset columns i) c)
             columns.
Proof.
  destruct (for_loop_inv
    (fun i (s : list eph_table_column * Z) =>
       s.2 = sequential_offset columns (Z.to_nat i) /\
       s.1 = imap (fun i c =>
                     legacy_resolved row_size (sequential_offset columns i) c)
               (take (Z.to_nat i) columns) ++ drop (Z.to_nat i) columns)
    (legacy_column row_size) (length columns) 0 (columns, 0))
    as ([cols st] & Hloop & Hst & Hcols).
  - split; reflexivity.
  - intros i [cols st] Hi [Hst Hcols]. cbn in Hst, Hcols. subst st cols.
    destruct (lookup_lt_is_Some_2 columns (Z.to_nat i) ltac:(lia)) as [c Hc].
    unfold legacy_column.
    rewrite get_lookup by lia.
    rewrite lookup_app_r; rewrite length_imap, length_take; [|lia].
    replace (Z.to_nat i - Z.to_nat i `min` length columns)%nat with 0%nat by lia.
    rewrite lookup_drop, Nat.add_0_r, Hc. cbn.
    rewrite default_size_resolved.
    rewrite set_insert
      by (rewrite length_app, length_imap, length_take, length_drop; lia).
    cbn. eexists. split; [reflexivity|]. cbn.
    replace (Z.to_nat (i + 1)) with (S (Z.to_nat i)) by lia.
    split; [symmetry; now apply sequential_offset_S|].
    rewrite (take_S_r _ _ _ Hc), imap_app. cbn.
    rewrite length_take, Nat.min_l by lia. rewrite Nat.add_0_r.
    rewrite <- app_assoc. cbn.
    rewrite insert_app_r_alt; rewrite length_imap, length_take; [|lia].
    replace (Z.to_nat i - Z.to_nat i `min` length columns)%nat with 0%nat by lia.
    rewrite (drop_S _ _ _ Hc). reflexivity.
  - exists cols, st. split; [exact Hloop|]. cbn in Hcols.
    rewrite Z.add_0_l, Nat2Z.id, firstn_all, drop_all, app_nil_r in Hcols.
    exact Hcols.
Qed.

Lemma div32_quot a b :
  0 <= a -> 0 < b -> div32 a b = Some (a ÷ b).
Proof.
  intros Ha Hb. unfold div32.
  destruct (Z.eqb_spec b 0); [lia|].
  destruct (Z.eqb_spec b (-1)); [lia|].
  now rewrite andb_false_r.
Qed.

Lemma quot_rows data_size row_size :
  0 <= data_size -> 0 < row_size ->
  0 <= data_size ÷ row_size /\ row_size * (data_size ÷ row_size) <= data_size.
Proof.
  intros Hd Hr. rewrite Z.quot_div_nonneg by lia.
  split; [apply Z.div_pos; lia|apply Z.mul_div_le; lia].
Qed.

(** C7. For a table of a version below 3, [eph_read_table_prepare] resolves
    the columns in the order of their declaration: the offset of a column is
    the ([int]) sum of the sizes of the columns before it, its size is the
    declared one or by default 4 for the types 'i' and 'f' and 8 for the
    type 'Q', its source unit is the requested unit and its row stride is
    the declared row size. The call returns [data_size / row_size], the row
    count. Unless the row size is 104, the whole block is de-interleaved
    with [nb] the row size and [size] the row count: byte [i] of row [j],
    at [j * row_size + i], is the byte that was at [i * rows + j], and the
    bytes after the last row are kept; this is what [shuffle_bytes data
    row_size rows] leaves. With a row size of 104 the bytes are left as
    they are. *)
Theorem eph_read_table_prepare_legacy (version : Z) (data : list byte)
    (data_size row_size nb_columns : Z) (columns : list eph_table_column) :
  version < 3 -> 0 < row_size ->
  Z.of_nat (length data) = data_size -> data_size <= INT_MAX ->
  nb_columns = Z.of_nat (length columns) ->
  exists r,
    eph_read_table_prepare version data data_size 0 row_size nb_columns columns
    = Done r /\
    p_ret r = data_size ÷ row_size /\
    p_ofs r = 0 /\
    (row_size = 104 -> p_data r = data) /\
    (row_size <> 104 ->
     shuffle_bytes data row_size (data_size ÷ row_size) = Done (p_data r) /\
     length (p_data r) = length data /\
     (forall i j, 0 <= i < row_size -> 0 <= j < data_size ÷ row_size ->
        get (p_data r) (j * row_size + i)
        = get data (i * (data_size ÷ row_size) + j)) /\
     (forall k, row_size * (data_size ÷ row_size) <= k ->
        get (p_data r) k = get data k)) /\
    length (p_columns r) = length columns /\
    (forall (i : nat) c, columns !! i = Some c ->
       p_columns r !! i
       = Some {| name := name c; type := type c; unit := unit c;
                 start := sequential_offset columns i;
                 size := declared_size c;
                 src_unit := unit c;
                 row_size := row_size |}).
Proof.
  intros Hv Hrow Hlen Hsize ->.
  assert (Hds : 0 <= data_size) by lia.
  destruct (quot_rows data_size row_size Hds Hrow) as [Hq0 Hq].
  destruct (legacy_columns_resolved row_size columns) as (cols & st & Hloop & Hcols).
  assert (Hcolumns :
    length cols = length columns /\
    forall (i : nat) c, columns !! i = Some c ->
      cols !! i = Some (legacy_resolved row_size (sequential_offset columns i) c)).
  { subst cols. split; [apply length_imap|].
    intros i c Hc. now rewrite list_lookup_imap, Hc. }
  unfold eph_read_table_prepare. cbn.
  destruct (Z.ltb_spec version 3); [|lia].
  rewrite Nat2Z.id, (div32_quot data_size row_size) by lia.
  destruct (Z.eqb_spec row_size 104) as [E|E]; cbn.
  - rewrite Hloop. cbn. eexists. split; [reflexivity|]. cbn.
    repeat split; try tauto.
  - rewrite shuffle_at_0.
    destruct (shuffle_bytes_written data row_size (data_size ÷ row_size))
      as (out & Hout & Hl & Hlow & Hhigh); [lia..|].
    rewrite Hout. cbn. rewrite Hloop. cbn.
    eexists. split; [reflexivity|]. cbn.
    split; [reflexivity|]. split; [reflexivity|]. split; [tauto|].
    split; [|exact Hcolumns]. intros _.
    split; [reflexivity|]. split; [exact Hl|]. split.
    + intros i j Hi Hj. rewrite !get_lookup by nia.
      rewrite Hlow by nia. now rewrite source_index_cell.
    + intros k Hk. rewrite !get_lookup by nia. now apply Hhigh.
Qed.

(** Three columns of the old format in rows of 16 bytes, two rows. *)
Lemma eph_read_table_prepare_legacy_witness :
  exists r,
    eph_read_table_prepare 2 (le_bytes 16 0x0807060504030201 ++ le_bytes 16 0)
      32 0 16 3
      [declare name_id "Q" 0 0; declare name_mag "f" 1 0;
       declare name_id "s" 0 4]
    = Done r /\
    p_ret r = 32 ÷ 16 /\
    p_ofs r = 0 /\
    (16 = 104 ->
     p_data r = le_bytes 16 0x0807060504030201 ++ le_bytes 16 0) /\
    (16 <> 104 ->
     shuffle_bytes (le_bytes 16 0x0807060504030201 ++ le_bytes 16 0) 16
       (32 ÷ 16) = Done (p_data r) /\
     length (p_data r) = 32%nat /\
     (forall i j, 0 <= i < 16 -> 0 <= j < 32 ÷ 16 ->
        get (p_data r) (j * 16 + i)
        = get (le_bytes 16 0x0807060504030201 ++ le_bytes 16 0)
            (i * (32 ÷ 16) + j)) /\
     (forall k, 16 * (32 ÷ 16) <= k ->
        get (p_data r) k
        = get (le_bytes 16 0x0807060504030201 ++ le_bytes 16 0) k)) /\
    length (p_columns r) = 3%nat /\
    (forall (i : nat) c,
       [declare name_id "Q" 0 0; declare name_mag "f" 1 0;
        declare name_id "s" 0 4] !! i = Some c ->
       p_columns r !! i
       = Some {| name := name c; type := type c; unit := unit c;
                 start := sequential_offset
                            [declare name_id "Q" 0 0; declare name_mag "f" 1 0;
                             declare name_id "s" 0 4] i;
                 size := declared_size c;
                 src_unit := unit c;
                 row_size := 16 |}).
Proof.
  apply (eph_read_table_prepare_legacy 2
           (le_bytes 16 0x0807060504030201 ++ le_bytes 16 0) 32 16 3
           [declare name_id "Q" 0 0; declare name_mag "f" 1 0;
            declare name_id "s" 0 4]).
  - lia.
  - lia.
  - reflexivity.
  - unfold INT_MAX. lia.
  - reflexivity.
Defined.

Example eph_read_table_prepare_legacy_offsets :
  p_columns <$>
    eph_read_table_prepare 2 (le_bytes 16 0x0807060504030201 ++ le_bytes 16 0)
      32 0 16 3
      [declare name_id "Q" 0 0; declare name_mag "f" 1 0;
       declare name_id "s" 0 4]
  = Done
      [ {| name := name_id; type := "Q"; unit := 0; start := 0; size := 8;
           src_unit := 0; row_size := 16 |};
        {| name := name_mag; type := "f"; unit := 1; start := 8; size := 4;
           src_unit := 1; row_size := 16 |};
        {| name := name_id; type := "s"; unit := 0; start := 12; size := 4;
           src_unit := 0; row_size := 16 |} ].
Proof. reflexivity. Qed.

(** ** The current table format *)

Lemma descriptor_name_length data i d :
  descriptor data i = Some d -> length (d_name d) = 4%nat.
Proof.
  unfold descriptor. intros H.
  destruct (read_bytes data (16 + 20 * i) 4) as [nm|] eqn:E; [|discriminate].
  apply length_read_bytes in E. cbn in H.
  repeat match type of H with
         | context [?o ≫= _] => destruct o; cbn in H; [|discriminate]
         end.
  injection H as <-. cbn. lia.
Qed.

Lemma descriptor_in_buffer data i d :
  descriptor data i = Some d -> 36 + 20 * i <= Z.of_nat (length data).
Proof.
  unfold descriptor. intros H.
  repeat match type of H with
         | context [?o ≫= _] =>
             let E := fresh "E" in
             destruct o eqn:E; cbn in H; [|discriminate]
         end.
  unfold read_i32 in *.
  destruct (read_bytes data (32 + 20 * i) 4) eqn:E'; [|discriminate].
  apply read_bytes_inv in E'. lia.
Qed.

Lemma match_column_step data row_size columns i d :
  Forall (fun c => length (name c) = 4%nat) columns ->
  Z.of_nat (length data) <= INT_MAX -> 0 <= i ->
  descriptor data i = Some d ->
  match_column data 0 row_size (Z.of_nat (length columns)) i columns
  = Done (match_step row_size columns d).
Proof.
  intros Hnames Hlen Hi Hd.
  pose proof (descriptor_name_length _ _ _ Hd) as Hnm.
  pose proof (descriptor_in_buffer _ _ _ Hd) as Hbuf.
  assert (Hmax : INT_MAX = 2^31 - 1) by reflexivity.
  unfold match_column.
  rewrite mul32_id by (apply in_int_nonneg; lia).
  replace (0 + 16 + i * 20) with (16 + 20 * i) by lia.
  replace (0 + 20 + i * 20) with (20 + 20 * i) by lia.
  replace (0 + 24 + i * 20) with (24 + 20 * i) by lia.
  replace (0 + 28 + i * 20) with (28 + 20 * i) by lia.
  replace (0 + 32 + i * 20) with (32 + 20 * i) by lia.
  unfold descriptor in Hd.
  destruct (read_bytes data (16 + 20 * i) 4) as [nm|]; [|discriminate].
  destruct (read_bytes data (20 + 20 * i) 4) as [ty|]; [|discriminate].
  cbn in Hd.
  destruct (ty !! 0%nat) as [t|] eqn:Ht; [|discriminate].
  destruct (read_i32 data (24 + 20 * i)) as [u|]; [|discriminate].
  destruct (read_i32 data (28 + 20 * i)) as [s|]; [|discriminate].
  destruct (read_i32 data (32 + 20 * i)) as [z|]; [|discriminate].
  cbn in Hd. injection Hd as <-. cbn in Hnm. cbn.
  pose proof (find_column_first_named nm columns Hnames Hnm
                (length columns) 0%nat eq_refl) as Hf.
  rewrite drop_0 in Hf. change (Z.of_nat 0) with 0 in Hf. cbn in Hf.
  rewrite Nat2Z.id, Hf. unfold match_step. cbn.
  pose proof (first_named_le nm columns) as Hle.
  destruct (Z.eqb_spec (Z.of_nat (first_named nm columns))
              (Z.of_nat (length columns))) as [E|E].
  - rewrite (proj2 (lookup_ge_None _ _)) by lia. reflexivity.
  - rewrite get_nat.
    destruct (lookup_lt_is_Some_2 columns (first_named nm columns) ltac:(lia))
      as [c Hc].
    rewrite Hc. cbn. change (Z.to_nat 0) with 0%nat. rewrite Ht. cbn.
    destruct (Byte.eqb (type c) t); cbn; [|reflexivity].
    rewrite set_insert by lia. cbn. rewrite Nat2Z.id. reflexivity.
Qed.

Lemma match_step_names row_size columns d columns' :
  match_step row_size columns d = inl columns' ->
  name <$> columns' = name <$> columns /\
  type <$> columns' = type <$> columns /\
  length columns' = length columns.
Proof.
  unfold match_step.
  destruct (columns !! first_named (d_name d) columns) as [c|] eqn:Hc.
  - destruct (Byte.eqb (type c) (d_type d)); [|discriminate].
    intros [= <-]. rewrite !list_fmap_insert, length_insert. cbn.
    rewrite !list_insert_id; [tauto| |]; now rewrite list_lookup_fmap, Hc.
  - intros [= <-]. tauto.
Qed.

Lemma names_length_ext (columns columns' : list eph_table_column) :
  name <$> columns' = name <$> columns ->
  Forall (fun c => length (name c) = 4%nat) columns ->
  Forall (fun c => length (name c) = 4%nat) columns'.
Proof.
  intros Hn H.
  apply (Forall_fmap name (fun nm => length nm = 4%nat)).
  rewrite Hn. now apply Forall_fmap.
Qed.

Lemma match_loop data row_size :
  Z.of_nat (length data) <= INT_MAX ->
  forall (n : nat) (i : Z) ds columns,
    0 <= i ->
    Forall (fun c => length (name c) = 4%nat) columns ->
    descriptors data n i = Some ds ->
    for_loop_ret n i
      (match_column data 0 row_size (Z.of_nat (length columns))) columns
    = Done (match_all row_size ds columns).
Proof.
  intros Hlen. induction n as [|n IH]; intros i ds columns Hi Hnames Hds.
  - cbn in Hds. injection Hds as <-. reflexivity.
  - cbn in Hds.
    destruct (descriptor data i) as [d|] eqn:Hd; [|discriminate]. cbn in Hds.
    destruct (descriptors data n (i + 1)) as [ds'|] eqn:Hds'; [|discriminate].
    cbn in Hds. injection Hds as <-.
    cbn [for_loop_ret match_all].
    rewrite (match_column_step data row_size columns i d) by assumption.
    cbn. destruct (match_step row_size columns d) as [columns'|columns'] eqn:Hs.
    + destruct (match_step_names _ _ _ _ Hs) as (Hn & _ & Hl).
      rewrite <- Hl. apply IH; [lia| |exact Hds'].
      now apply (names_length_ext columns).
    + reflexivity.
Qed.

Lemma stops_ext columns columns' d :
  name <$> columns' = name <$> columns ->
  type <$> columns' = type <$> columns ->
  stops columns' d <-> stops columns d.
Proof.
  assert (Hgen : forall a b : list eph_table_column,
            name <$> a = name <$> b -> type <$> a = type <$> b ->
            stops a d -> stops b d).
  { intros a b Hn Ht (c & Hc & Hty).
    rewrite (first_named_names _ a b Hn) in Hc.
    assert (Hl : (type <$> b) !! first_named (d_name d) b = Some (type c)).
    { rewrite <- Ht, list_lookup_fmap, Hc. reflexivity. }
    rewrite list_lookup_fmap in Hl.
    destruct (b !! first_named (d_name d) b) as [c'|] eqn:Hc'; [|discriminate].
    exists c'. split; [exact Hc'|]. cbn in Hl. congruence. }
  intros Hn Ht. split; apply Hgen; congruence.
Qed.

Lemma match_all_inr row_size ds : forall columns,
  (exists r, match_all row_size ds columns = inr r) <->
  (exists d, d ∈ ds /\ stops columns d).
Proof.
  induction ds as [|d ds IH]; intros columns; cbn [match_all].
  - split; [intros [r [=]]|intros (d & Hd & _); inversion Hd].
  - destruct (match_step row_size columns d) as [columns'|columns'] eqn:Hs.
    + destruct (match_step_names _ _ _ _ Hs) as (Hn & Ht & _).
      rewrite IH. split.
      * intros (d' & Hd' & Hst). exists d'. split; [now right|].
        now apply (stops_ext columns columns').
      * intros (d' & Hd' & Hst).
        apply elem_of_cons in Hd' as [->|Hd'].
        -- exfalso. destruct Hst as (c & Hc & Hty).
           unfold match_step in Hs. rewrite Hc in Hs.
           destruct (Byte.eqb (type c) (d_type d)) eqn:E; [|discriminate].
           apply byte_eqb_eq in E. contradiction.
        -- exists d'. split; [exact Hd'|].
           now apply (stops_ext columns columns').
    + split; [|intros _; now eexists].
      intros _. exists d. split; [left|].
      unfold match_step in Hs.
      destruct (columns !! first_named (d_name d) columns) as [c|] eqn:Hc;
        [|discriminate].
      destruct (Byte.eqb (type c) (d_type d)) eqn:E; [discriminate|].
      apply byte_eqb_neq in E. exists c. tauto.
Qed.

Lemma match_all_inl rs ds : forall columns res,
  match_all rs ds columns = inl res ->
  length res = length columns /\
  forall j c', res !! j = Some c' ->
    ((exists d, d ∈ ds /\ first_named (d_name d) columns = j) /\
     row_size c' = rs) \/
    ((forall d, d ∈ ds -> first_named (d_name d) columns <> j) /\
     columns !! j = Some c').
Proof.
  induction ds as [|d ds IH]; intros columns res; cbn [match_all].
  - intros [= <-]. split; [reflexivity|]. intros j c' Hc. right.
    split; [|exact Hc]. intros d Hd. inversion Hd.
  - destruct (match_step rs columns d) as [columns'|] eqn:Hs;
      [|discriminate].
    intros Hres. destruct (match_step_names _ _ _ _ Hs) as (Hn & _ & Hl).
    destruct (IH _ _ Hres) as [Hlen Hall]. split; [congruence|].
    intros j c' Hc.
    destruct (Hall j c' Hc) as [[(d' & Hd' & Hj) Hrs]|[Hnone Hc']].
    + left. split; [|exact Hrs]. exists d'. split; [now right|].
      now rewrite <- (first_named_names _ columns' columns Hn).
    + assert (Hrest : forall d', d' ∈ ds ->
                first_named (d_name d') columns <> j).
      { intros d' Hd'.
        rewrite <- (first_named_names _ columns' columns Hn). now apply Hnone. }
      unfold match_step in Hs.
      destruct (columns !! first_named (d_name d) columns) as [c|] eqn:Hcj.
      * destruct (Byte.eqb (type c) (d_type d)); [|discriminate].
        injection Hs as <-.
        destruct (Nat.eq_dec (first_named (d_name d) columns) j) as [E|E].
        -- left. split; [exists d; split; [left|exact E]|].
           rewrite E in Hc'. rewrite list_lookup_insert_eq in Hc'.
           ++ injection Hc' as <-. reflexivity.
           ++ rewrite <- E. now apply lookup_lt_Some in Hcj.
        -- right. rewrite list_lookup_insert_ne in Hc' by exact E.
           split; [|exact Hc'].
           intros d' Hd'. apply elem_of_cons in Hd' as [->|Hd']; auto.
      * injection Hs as <-. right. split; [|exact Hc'].
        intros d' Hd'. apply elem_of_cons in Hd' as [->|Hd']; auto.
        intros E. rewrite E in Hcj.
        apply lookup_lt_Some in Hc'. apply lookup_ge_None in Hcj. lia.
Qed.

Lemma unresolved_Some columns c :
  unresolved columns = Some c -> c ∈ columns /\ row_size c = 0.
Proof.
  induction columns as [|c' l IH]; cbn; [discriminate|].
  destruct (Z.eqb_spec (row_size c') 0) as [E|E].
  - intros [= <-]. split; [left|exact E].
  - intros H. destruct (IH H). split; [now right|assumption].
Qed.

Lemma unresolved_None columns :
  unresolved columns = None -> Forall (fun c => row_size c <> 0) columns.
Proof.
  induction columns as [|c' l IH]; cbn; [constructor|].
  destruct (Z.eqb_spec (row_size c') 0) as [E|E]; [discriminate|].
  intros H. constructor; auto.
Qed.

Lemma check_column_lookup columns (k : nat) c :
  columns !! k = Some c ->
  check_column columns (Z.of_nat k) tt
  = Done (if row_size c =? 0 then inr (Cannot_find_column (name c))
          else inl tt).
Proof.
  intros Hc. unfold check_column, truth. rewrite get_nat, Hc. cbn.
  now destruct (row_size c =? 0).
Qed.

Lemma check_loop columns : forall (n k : nat),
  (k + n = length columns)%nat ->
  for_loop_ret n (Z.of_nat k) (check_column columns) tt
  = Done (match unresolved (drop k columns) with
          | Some c => inr (Cannot_find_column (name c))
          | None => inl tt
          end).
Proof.
  induction n as [|n IH]; intros k Hk.
  - cbn. now rewrite drop_ge by lia.
  - destruct (lookup_lt_is_Some_2 columns k ltac:(lia)) as [c Hc].
    cbn [for_loop_ret]. rewrite (check_column_lookup _ _ _ Hc).
    rewrite (drop_S _ _ _ Hc). cbn [unresolved].
    destruct (row_size c =? 0); cbn; [reflexivity|].
    replace (Z.of_nat k + 1) with (Z.of_nat (S k)) by lia.
    apply IH. lia.
Qed.

Lemma descriptors_names data : forall n i ds,
  descriptors data n i = Some ds ->
  Forall (fun d => length (d_name d) = 4%nat) ds.
Proof.
  induction n as [|n IH]; intros i ds H; cbn in H.
  - injection H as <-. constructor.
  - destruct (descriptor data i) as [d|] eqn:Hd; [|discriminate]. cbn in H.
    destruct (descriptors data n (i + 1)) as [ds'|] eqn:Hds; [|discriminate].
    cbn in H. injection H as <-. constructor.
    + eapply descriptor_name_length; eauto.
    + eapply IH; eauto.
Qed.

Lemma descriptors_in_buffer data : forall n i ds,
  descriptors data n i = Some ds ->
  (0 < n)%nat -> 16 + 20 * (i + Z.of_nat n) <= Z.of_nat (length data).
Proof.
  induction n as [|n IH]; intros i ds H Hn; [lia|]. cbn in H.
  destruct (descriptor data i) as [d|] eqn:Hd; [|discriminate]. cbn in H.
  destruct (descriptors data n (i + 1)) as [ds'|] eqn:Hds; [|discriminate].
  destruct n as [|n'].
  - apply descriptor_in_buffer in Hd. lia.
  - specialize (IH _ _ Hds ltac:(lia)). lia.
Qed.

(** With names that differ as strings, the search finds the one column of
    the name it looks for. *)
Lemma first_named_unique nm columns (j : nat) c :
  Forall (fun c => length (name c) = 4%nat) columns -> length nm = 4%nat ->
  NoDup (c_string ∘ name <$> columns) ->
  columns !! j = Some c -> c_string (name c) = c_string nm ->
  first_named nm columns = j.
Proof.
  intros Hnames Hnm Hdup Hc Hs.
  assert (Hlen : forall k c', columns !! k = Some c' -> length (name c') = 4%nat).
  { intros k c' Hk. eapply (proj1 (Forall_lookup _ _) Hnames); eauto. }
  destruct (Nat.lt_ge_cases j (first_named nm columns)) as [Hlt|Hge].
  - pose proof (first_named_before nm columns j c Hlt Hc) as Hfalse.
    apply (named_c_string nm c (Hlen _ _ Hc) Hnm) in Hs. congruence.
  - destruct (lookup_lt_is_Some_2 columns (first_named nm columns)) as [c0 Hc0].
    { apply lookup_lt_Some in Hc. lia. }
    pose proof (first_named_lookup nm columns c0 Hc0) as Hn0.
    apply (named_c_string nm c0 (Hlen _ _ Hc0) Hnm) in Hn0.
    eapply (NoDup_lookup _ _ _ (c_string nm) Hdup).
    + rewrite list_lookup_fmap, Hc0. cbn. now rewrite Hn0.
    + rewrite list_lookup_fmap, Hc. cbn. now rewrite Hs.
Qed.

Section Matching.

Variables (ds : list disk_column) (columns : list eph_table_column) (rs : Z).
Hypothesis Hds : Forall (fun d => length (d_name d) = 4%nat) ds.
Hypothesis Hnames : Forall (fun c => length (name c) = 4%nat) columns.

Lemma stops_type_clash :
  (exists d, d ∈ ds /\ stops columns d) -> type_clash ds columns.
Proof.
  intros (d & Hd & c & Hc & Hty).
  exists c, d. split; [eapply list_elem_of_lookup_2; eauto|].
  split; [exact Hd|]. split; [|congruence].
  symmetry. apply named_c_string.
  - eapply (proj1 (Forall_lookup _ _) Hnames); eauto.
  - eapply (proj1 (Forall_forall _ _) Hds); eauto.
  - eapply first_named_lookup; eauto.
Qed.

Hypothesis Hdup : NoDup (c_string ∘ name <$> columns).

Lemma type_clash_stops :
  type_clash ds columns -> exists d, d ∈ ds /\ stops columns d.
Proof.
  intros (c & d & Hc & Hd & Hs & Hty).
  exists d. split; [exact Hd|].
  apply list_elem_of_lookup_1 in Hc as [j Hj].
  exists c. split; [|congruence].
  rewrite (first_named_unique (d_name d) columns j c); auto.
  eapply (proj1 (Forall_forall _ _) Hds); eauto.
Qed.

Hypothesis Hfresh : Forall (fun c => row_size c = 0) columns.
Hypothesis Hrs : rs <> 0.

Lemma unresolved_not_on_disk res c' :
  match_all rs ds columns = inl res ->
  unresolved res = Some c' ->
  c' ∈ columns /\ ~ on_disk ds c'.
Proof.
  intros Hres Hu.
  destruct (match_all_inl _ _ _ _ Hres) as [_ Hall].
  apply unresolved_Some in Hu as [Hin H0].
  apply list_elem_of_lookup_1 in Hin as [j Hj].
  destruct (Hall j c' Hj) as [[_ Hr]|[Hnone Hc]]; [congruence|].
  split; [eapply list_elem_of_lookup_2; eauto|].
  intros (d & Hd & Hs). apply (Hnone d Hd).
  apply (first_named_unique (d_name d) columns j c'); auto.
  eapply (proj1 (Forall_forall _ _) Hds); eauto.
Qed.

Lemma resolved_on_disk res c :
  match_all rs ds columns = inl res ->
  unresolved res = None ->
  c ∈ columns -> on_disk ds c.
Proof.
  intros Hres Hu Hin.
  destruct (match_all_inl _ _ _ _ Hres) as [Hlen Hall].
  apply unresolved_None in Hu.
  apply list_elem_of_lookup_1 in Hin as [j Hj].
  destruct (lookup_lt_is_Some_2 res j) as [c' Hc'].
  { rewrite Hlen. eapply lookup_lt_Some; eauto. }
  destruct (Hall j c' Hc') as [[(d & Hd & Hf) _]|[_ Hc]].
  - exists d. split; [exact Hd|]. symmetry. apply named_c_string.
    + eapply (proj1 (Forall_lookup _ _) Hnames); eauto.
    + eapply (proj1 (Forall_forall _ _) Hds); eauto.
    + apply (first_named_lookup _ columns). now rewrite Hf.
  - exfalso.
    apply (proj1 (Forall_lookup _ _) Hu _ _ Hc').
    apply (proj1 (Forall_lookup _ _) Hfresh _ _ Hc).
Qed.

End Matching.

Lemma parse_table_inv data t :
  parse_table data = Some t ->
  read_i32 data 0 = Some (t_flags t) /\
  read_i32 data 4 = Some (t_row_size t) /\
  read_i32 data 8 = Some (t_n_col t) /\
  read_i32 data 12 = Some (t_n_row t) /\
  descriptors data (Z.to_nat (t_n_col t)) 0 = Some (t_columns t).
Proof.
  unfold parse_table. intros H.
  destruct (read_i32 data 0) as [flags|]; [|discriminate].
  destruct (read_i32 data 4) as [row_size|]; [|discriminate].
  destruct (read_i32 data 8) as [n_col|]; [|discriminate].
  destruct (read_i32 data 12) as [n_row|]; [|discriminate].
  cbn in H.
  destruct (descriptors data (Z.to_nat n_col) 0) as [ds|] eqn:E;
    [|discriminate].
  cbn in H. injection H as <-. cbn. repeat split; try reflexivity. exact E.
Qed.

Lemma descriptors_end data t :
  parse_table data = Some t -> 0 <= t_n_col t ->
  16 + 20 * t_n_col t <= Z.of_nat (length data).
Proof.
  intros Ht Hn. apply parse_table_inv in Ht as (_ & _ & _ & Hrow & Hds).
  destruct (Z.to_nat (t_n_col t)) as [|n] eqn:E.
  - unfold read_i32 in Hrow.
    destruct (read_bytes data 12 4) eqn:Hb; [|discriminate].
    apply read_bytes_inv in Hb. lia.
  - apply descriptors_in_buffer in Hds; lia.
Qed.

(** C2, as stated, fails on a table whose row stride is zero: the column
    "mag" is declared as a float and is on disk as a float, and the call
    reports that it cannot find it. *)
Lemma eph_read_table_prepare_zero_stride :
  let data := table_header 0 0 1 2 ++ column_descriptor name_mag "f" 0 0 4 in
  let columns := [declare name_mag "f" 0 0] in
  parse_table data
  = Some {| t_flags := 0; t_row_size := 0; t_n_col := 1; t_n_row := 2;
            t_columns := [ {| d_name := name_mag; d_type := "f"; d_unit := 0;
                              d_start := 0; d_size := 4 |} ] |} /\
  eph_read_table_prepare 3 data 36 0 0 1 columns
  = Done {| p_ret := -1; p_data := data; p_ofs := 0;
            p_columns := [ {| name := name_mag; type := "f"; unit := 0;
                              start := 0; size := 4; src_unit := 0;
                              row_size := 0 |} ];
            p_log := [Cannot_find_column name_mag] |}.
Proof. split; reflexivity. Qed.

(** The same when the caller's record still holds a row stride: the column
    "id" is not in the table, and the call succeeds. *)
Example eph_read_table_prepare_stale_stride :
  p_ret <$>
    eph_read_table_prepare 3
      (table_header 0 4 1 2 ++ column_descriptor name_mag "f" 0 0 4) 36 0 0 1
      [set_row_size 4 (declare name_id "i" 0 0)]
  = Done 2.
Proof. reflexivity. Qed.

(** C2, amended. For a table of version 3 or more with a row stride that is
    not zero, and columns declared with names that differ and with a zero
    row stride: [eph_read_table_prepare] fails with "Wrong type" when a
    column of the table has the name of a declared column and another type
    tag; otherwise it fails with "Cannot find column" when some declared
    column, which it names, is not in the table; it succeeds exactly when
    every declared column is found by name in the table and no column of
    the table with that name has another type tag; and then it returns the
    row count of the table. *)
Theorem eph_read_table_prepare_match (version : Z) (data : list byte)
    (data_size row_size_arg nb_columns : Z) (columns : list eph_table_column)
    (t : table) :
  3 <= version ->
  nb_columns = Z.of_nat (length columns) ->
  Z.of_nat (length data) = data_size -> data_size <= INT_MAX ->
  parse_table data = Some t ->
  0 <= t_n_col t ->
  t_row_size t <> 0 ->
  (Z.land (t_flags t) 1 <> 0 ->
   0 <= t_row_size t /\ 0 <= t_n_row t /\
   16 + 20 * t_n_col t + t_row_size t * t_n_row t <= data_size) ->
  Forall (fun c => length (name c) = 4%nat) columns ->
  Forall (fun c => row_size c = 0) columns ->
  NoDup (c_string ∘ name <$> columns) ->
  exists r,
    eph_read_table_prepare version data data_size 0 row_size_arg nb_columns
      columns = Done r /\
    (type_clash (t_columns t) columns ->
     p_ret r = -1 /\ p_log r = [Wrong_type]) /\
    (~ type_clash (t_columns t) columns ->
     (exists c, c ∈ columns /\ ~ on_disk (t_columns t) c) ->
     p_ret r = -1 /\
     exists c, c ∈ columns /\ ~ on_disk (t_columns t) c /\
               p_log r = [Cannot_find_column (name c)]) /\
    (p_log r = [] <->
     ~ type_clash (t_columns t) columns /\
     forall c, c ∈ columns -> on_disk (t_columns t) c) /\
    (p_log r = [] ->
     p_ret r = t_n_row t /\ p_ofs r = 16 + 20 * t_n_col t).
Proof.
  intros Hv -> Hlen Hsize Ht Hncol Hstride Hrows Hnames Hfresh Hdup.
  pose proof (descriptors_end data t Ht Hncol) as Hend.
  destruct (parse_table_inv data t Ht) as (Hflags & Hrs & Hnc & Hnr & Hds).
  pose proof (descriptors_names _ _ _ _ Hds) as Hdn.
  assert (Hmax : INT_MAX = 2^31 - 1) by reflexivity.
  unfold eph_read_table_prepare. cbn [assert Z.eqb mbind outcome_bind].
  destruct (Z.ltb_spec version 3); [lia|].
  change (0 + 0) with 0. change (0 + 4) with 4. change (0 + 8) with 8.
  change (0 + 12) with 12.
  rewrite Hflags, Hrs, Hnc, Hnr. cbn [access mbind outcome_bind].
  rewrite (match_loop data (t_row_size t) ltac:(lia) _ 0 (t_columns t) columns)
    by (trivial; lia).
  cbn [mbind outcome_bind].
  destruct (match_all (t_row_size t) (t_columns t) columns) as [res|res] eqn:Hm.
  2: { assert (Hclash : type_clash (t_columns t) columns).
       { apply stops_type_clash; [assumption..|].
         apply (match_all_inr (t_row_size t)). now exists res. }
       eexists. split; [reflexivity|]. cbn.
       split; [tauto|]. split; [tauto|]. split; [|discriminate].
       split; [discriminate|tauto]. }
  assert (Hclash : ~ type_clash (t_columns t) columns).
  { intros Hc. apply type_clash_stops in Hc; [|assumption..].
    apply (match_all_inr (t_row_size t)) in Hc as [r Hr]. congruence. }
  destruct (match_all_inl _ _ _ _ Hm) as [Hlres _].
  rewrite <- Hlres, Nat2Z.id.
  pose proof (check_loop res (length res) 0 eq_refl) as Hcheck.
  rewrite drop_0 in Hcheck. change (Z.of_nat 0) with 0 in Hcheck.
  rewrite Hcheck. cbn [mbind outcome_bind].
  destruct (unresolved res) as [c'|] eqn:Hu.
  - destruct (unresolved_not_on_disk (t_columns t) columns (t_row_size t)
                Hdn Hnames Hdup Hstride res c' Hm Hu) as [Hin Hnot].
    eexists. split; [reflexivity|]. cbn.
    split; [tauto|]. split.
    { intros _ _. split; [reflexivity|]. exists c'. tauto. }
    split; [|discriminate].
    split; [discriminate|]. intros [_ Hall]. exfalso. auto.
  - assert (Hall : forall c, c ∈ columns -> on_disk (t_columns t) c).
    { intros c Hc.
      apply (resolved_on_disk (t_columns t) columns (t_row_size t)
               Hdn Hnames Hfresh res c Hm Hu Hc). }
    assert (Hofs : add32 0 (add32 16 (mul32 (t_n_col t) 20))
                   = 16 + 20 * t_n_col t).
    { rewrite mul32_id by (apply in_int_nonneg; lia).
      rewrite (add32_id 16) by (apply in_int_nonneg; lia).
      rewrite (add32_id 0) by (apply in_int_nonneg; lia). lia. }
    rewrite Hofs.
    assert (Hdata : exists data',
      (if truth (Z.land (t_flags t) 1)
       then shuffle_at data (0 + 16 + mul32 (t_n_col t) 20) (t_row_size t)
              (t_n_row t)
       else Done data) = Done data').
    { unfold truth.
      destruct (Z.eqb_spec (Z.land (t_flags t) 1) 0) as [E|E]; cbn;
        [now eexists|].
      destruct (Hrows E) as (Hr0 & Hn0 & Hfit).
      rewrite mul32_id by (apply in_int_nonneg; lia).
      unfold shuffle_at.
      destruct (Z.ltb_spec (0 + 16 + t_n_col t * 20) 0); [lia|].
      destruct (Z.ltb_spec (Z.of_nat (length data)) (0 + 16 + t_n_col t * 20));
        [lia|].
      cbn [orb].
      destruct (shuffle_bytes_written
                  (drop (Z.to_nat (0 + 16 + t_n_col t * 20)) data)
                  (t_row_size t) (t_n_row t)) as (out & Hout & _);
        [lia|lia|rewrite length_drop; lia|nia|].
      rewrite Hout. cbn. now eexists. }
    destruct Hdata as [data' ->]. cbn [mbind outcome_bind].
    eexists. split; [reflexivity|]. cbn.
    split; [tauto|]. split.
    { intros _ (c & Hc & Hn). exfalso. auto. }
    split; [tauto|]. intros _. split; reflexivity.
Qed.

(** The table of "mag" and "id" read with both columns declared, in the
    other order. *)
Lemma eph_read_table_prepare_match_witness :
  exists r,
    eph_read_table_prepare 3 mag_id_table 68 0 0 2
      [declare name_id "i" 0 0; declare name_mag "f" 0 0] = Done r /\
    (type_clash
       [ {| d_name := name_mag; d_type := "f"; d_unit := 1; d_start := 8;
            d_size := 4 |};
         {| d_name := name_id; d_type := "i"; d_unit := 0; d_start := 0;
            d_size := 4 |} ]
       [declare name_id "i" 0 0; declare name_mag "f" 0 0] ->
     p_ret r = -1 /\ p_log r = [Wrong_type]) /\
    (~ type_clash
         [ {| d_name := name_mag; d_type := "f"; d_unit := 1; d_start := 8;
              d_size := 4 |};
           {| d_name := name_id; d_type := "i"; d_unit := 0; d_start := 0;
              d_size := 4 |} ]
         [declare name_id "i" 0 0; declare name_mag "f" 0 0] ->
     (exists c,
        c ∈ [declare name_id "i" 0 0; declare name_mag "f" 0 0] /\
        ~ on_disk
            [ {| d_name := name_mag; d_type := "f"; d_unit := 1; d_start := 8;
                 d_size := 4 |};
              {| d_name := name_id; d_type := "i"; d_unit := 0; d_start := 0;
                 d_size := 4 |} ] c) ->
     p_ret r = -1 /\
     exists c,
       c ∈ [declare name_id "i" 0 0; declare name_mag "f" 0 0] /\
       ~ on_disk
           [ {| d_name := name_mag; d_type := "f"; d_unit := 1; d_start := 8;
                d_size := 4 |};
             {| d_name := name_id; d_type := "i"; d_unit := 0; d_start := 0;
                d_size := 4 |} ] c /\
       p_log r = [Cannot_find_column (name c)]) /\
    (p_log r = [] <->
     ~ type_clash
         [ {| d_name := name_mag; d_type := "f"; d_unit := 1; d_start := 8;
              d_size := 4 |};
           {| d_name := name_id; d_type := "i"; d_unit := 0; d_start := 0;
              d_size := 4 |} ]
         [declare name_id "i" 0 0; declare name_mag "f" 0 0] /\
     forall c,
       c ∈ [declare name_id "i" 0 0; declare name_mag "f" 0 0] ->
       on_disk
         [ {| d_name := name_mag; d_type := "f"; d_unit := 1; d_start := 8;
              d_size := 4 |};
           {| d_name := name_id; d_type := "i"; d_unit := 0; d_start := 0;
              d_size := 4 |} ] c) /\
    (p_log r = [] -> p_ret r = 1 /\ p_ofs r = 16 + 20 * 2).
Proof.
  apply (eph_read_table_prepare_match 3 mag_id_table 68 0 2
           [declare name_id "i" 0 0; declare name_mag "f" 0 0]
           {| t_flags := 0; t_row_size := 12; t_n_col := 2; t_n_row := 1;
              t_columns :=
                [ {| d_name := name_mag; d_type := "f"; d_unit := 1;
                     d_start := 8; d_size := 4 |};
                  {| d_name := name_id; d_type := "i"; d_unit := 0;
                     d_start := 0; d_size := 4 |} ] |}).
  - lia.
  - reflexivity.
  - reflexivity.
  - unfold INT_MAX. lia.
  - reflexivity.
  - simpl. lia.
  - simpl. lia.
  - simpl. intros H. exfalso. apply H. reflexivity.
  - repeat constructor.
  - repeat constructor.
  - apply (bool_decide_unpack _). vm_compute. exact I.
Defined.

(** ** Failure of the schema matcher *)

(** C10. [eph_read_table_prepare] is not atomic on failure: on a table of
    the current format whose second column has another type than declared,
    it returns -1 after it has copied the row stride, source unit, offset
    and size of the first column into the caller's record. *)
Theorem eph_read_table_prepare_not_atomic :
  exists version data data_size row_size nb_columns columns r,
    3 <= version /\
    eph_read_table_prepare version data data_size 0 row_size nb_columns
      columns = Done r /\
    p_ret r = -1 /\
    p_columns r <> columns /\
    p_columns r !! 0%nat
    = Some {| name := name_mag; type := "f"; unit := 0; start := 8; size := 4;
              src_unit := 1; row_size := 12 |} /\
    columns !! 0%nat = Some (declare name_mag "f" 0 0).
Proof.
  exists 3, mag_id_table, 52, 0, 2,
    [declare name_mag "f" 0 0; declare name_id "Q" 0 0].
  eexists. split; [lia|]. split; [reflexivity|].
  split; [reflexivity|]. split; [discriminate|]. split; reflexivity.
Qed.

(** ** Unit conversion *)

Lemma land_pow2 u k :
  0 <= k -> Z.land u (2^k) = if Z.testbit u k then 2^k else 0.
Proof.
  intros Hk. apply Z.bits_inj'. intros n Hn.
  rewrite Z.land_spec, Z.pow2_bits_eqb by lia.
  destruct (Z.eqb_spec k n) as [->|Hne].
  - destruct (Z.testbit u n); cbn.
    + now rewrite Z.pow2_bits_true.
    + now rewrite Z.bits_0.
  - rewrite andb_false_r.
    destruct (Z.testbit u k); [|now rewrite Z.bits_0].
    rewrite Z.pow2_bits_false; [reflexivity|lia].
Qed.

Lemma truth_land_pow2 u k : 0 <= k -> truth (Z.land u (2^k)) = Z.testbit u k.
Proof.
  intros Hk. rewrite land_pow2 by exact Hk. unfold truth.
  destruct (Z.testbit u k); [|reflexivity].
  destruct (Z.eqb_spec (2^k) 0) as [E|E]; [|reflexivity].
  pose proof (Z.pow_pos_nonneg 2 k). lia.
Qed.

Lemma truth_land_1 u : truth (Z.land u 1) = Z.testbit u 0.
Proof. exact (truth_land_pow2 u 0 ltac:(lia)). Qed.

Lemma truth_land_2 u : truth (Z.land u 2) = Z.testbit u 1.
Proof. exact (truth_land_pow2 u 1 ltac:(lia)). Qed.

Lemma truth_land_4 u : truth (Z.land u 4) = Z.testbit u 2.
Proof. exact (truth_land_pow2 u 2 ltac:(lia)). Qed.

Lemma truth_land_8 u : truth (Z.land u 8) = Z.testbit u 3.
Proof. exact (truth_land_pow2 u 3 ltac:(lia)). Qed.

(** C8. [eph_convert_f] returns the value unchanged when the target unit is
    0 or equals the source unit; otherwise it applies, in the order bit 0,
    1, 2, 3, the four transforms that the low four bits of the two unit
    codes select: degrees and radians for bit 0, a scale by 60 for each of
    bits 1 and 2, a scale by 365.25 for bit 3. *)
Theorem eph_convert_f_spec (DD2R DR2D : float) (src_unit unit : Z) (v : float) :
  (unit = 0 \/ src_unit = unit -> eph_convert_f DD2R DR2D src_unit unit v = v) /\
  (unit <> 0 -> src_unit <> unit ->
   eph_convert_f DD2R DR2D src_unit unit v
   = convert_chain DD2R DR2D src_unit unit v).
Proof.
  unfold eph_convert_f, truth. split.
  - intros [->| ->].
    + reflexivity.
    + rewrite Z.eqb_refl. now rewrite orb_true_r.
  - intros H0 Hne.
    destruct (Z.eqb_spec unit 0) as [|_]; [contradiction|].
    destruct (Z.eqb_spec src_unit unit) as [|_]; [contradiction|].
    cbn [negb orb].
    fold (truth (Z.land src_unit 1)) (truth (Z.land unit 1))
         (truth (Z.land src_unit 2)) (truth (Z.land unit 2))
         (truth (Z.land src_unit 4)) (truth (Z.land unit 4))
         (truth (Z.land src_unit 8)) (truth (Z.land unit 8)).
    rewrite !truth_land_1, !truth_land_2, !truth_land_4, !truth_land_8.
    unfold convert_chain, toggle, unit_flag.
    destruct (Z.testbit src_unit 0), (Z.testbit unit 0),
             (Z.testbit src_unit 1), (Z.testbit unit 1),
             (Z.testbit src_unit 2), (Z.testbit unit 2),
             (Z.testbit src_unit 3), (Z.testbit unit 3); reflexivity.
Qed.

(** Degrees in arc minutes (flags 1 and 2) to radians (no flag but bit 4, so
    that the target is not 0): times [DD2R], then divided by 60. *)
Lemma eph_convert_f_spec_witness :
  eph_convert_f 0x1.1df46a2529d39p-6%float 0x1.ca5dc1a63c1f8p+5%float 3 16 5400
  = (5400 * 0x1.1df46a2529d39p-6 / 60)%float.
Proof.
  apply (proj2 (eph_convert_f_spec 0x1.1df46a2529d39p-6%float
                  0x1.ca5dc1a63c1f8p+5%float 3 16 5400)).
  - lia.
  - lia.
Defined.


(** ** The value of a 4-byte float *)



Example double_of_binary32_90 : double_of_binary32 0x42b40000 = 90%float.
Proof. reflexivity. Qed.

Example double_of_binary32_minus_half :
  double_of_binary32 0xbf000000 = (-0.5)%float.
Proof. reflexivity. Qed.

Example double_of_binary32_subnormal :
  double_of_binary32 1 = 0x1p-149%float.
Proof. reflexivity. Qed.

(** ** Row decoder *)

Section Rows.

Variables DD2R DR2D : float.

Lemma read_column_value data base c v (slots : list slot) ap :
  column_value DD2R DR2D data base c = Some v ->
  0 <= ap < Z.of_nat (length slots) ->
  read_column DD2R DR2D data base c (slots, ap)
  = Done (<[Z.to_nat ap := v]> slots, ap + 1).
Proof.
  intros Hv Hap. unfold column_value in Hv. unfold read_column.
  destruct (Byte.eqb (type c) "i").
  { destruct (read_i32 data (base + start c)); [|discriminate].
    injection Hv as <-. cbn. rewrite set_insert by lia. reflexivity. }
  destruct (Byte.eqb (type c) "f").
  { destruct (read_u32 data (base + start c)); [|discriminate].
    injection Hv as <-. cbn. rewrite set_insert by lia. reflexivity. }
  destruct (Byte.eqb (type c) "Q").
  { destruct (read_u64 data (base + start c)); [|discriminate].
    injection Hv as <-. cbn. rewrite set_insert by lia. reflexivity. }
  destruct (Byte.eqb (type c) "s"); [|discriminate].
  destruct (read_bytes data (base + start c) (size c)); [|discriminate].
  injection Hv as <-. cbn. rewrite set_insert by lia. reflexivity.
Qed.




End Rows.

(** The row of the table of "mag" and "id": the integer 7 and the float 90
    (degrees), asked for in radians. *)
Example eph_read_table_row_mag_id :
  r_slots <$>
    eph_read_table_row 0x1.1df46a2529d39p-6%float 0x1.ca5dc1a63c1f8p+5%float
      mag_id_table 68 56 2
      [ {| name := name_id; type := "i"; unit := 0; start := 0; size := 4;
           src_unit := 0; row_size := 12 |};
        {| name := name_mag; type := "f"; unit := 16; start := 8; size := 4;
           src_unit := 1; row_size := 12 |} ]
      [Slot_int 0; Slot_double 0]
  = Done [Slot_int 7; Slot_double (90 * 0x1.1df46a2529d39p-6)%float].
Proof. vm_compute. reflexivity. Qed.

(** A column of a type that the decoder does not know takes no argument:
    the value of the next column goes to its slot. *)
Example eph_read_table_row_unknown_type :
  r_slots <$>
    eph_read_table_row 0x1.1df46a2529d39p-6%float 0x1.ca5dc1a63c1f8p+5%float
      mag_id_table 68 56 2
      [ {| name := name_mag; type := "d"; unit := 0; start := 8; size := 4;
           src_unit := 0; row_size := 12 |};
        {| name := name_id; type := "i"; unit := 0; start := 0; size := 4;
           src_unit := 0; row_size := 12 |} ]
      [Slot_double 0; Slot_int 0]
  = Done [Slot_int 7; Slot_int 0].
Proof. vm_compute. reflexivity. Qed.


(** * Further properties

    What the code shows beyond the sentences of the specification: how the
    readers behave on files written as the format comment lays them out, on
    damaged ones, and when one reader is called after another. *)

(** ** Little-endian integers *)

Lemma byte_val_byte_of z : byte_val (byte_of z) = z mod 256.
Proof.
  pose proof (Z.mod_pos_bound z 256 ltac:(lia)) as Hb.
  unfold byte_of, byte_val.
  destruct (Byte.of_N (Z.to_N (z mod 256))) as [b|] eqn:E; cbn.
  - apply Byte.to_of_N in E. rewrite E. lia.
  - apply Byte.of_N_None_iff in E. lia.
Qed.

Lemma length_le_bytes n z : length (le_bytes n z) = n.
Proof. revert z. induction n as [|n IH]; intros z; cbn; [|rewrite IH]; lia. Qed.

Lemma le_uint_le_bytes n z : le_uint (le_bytes n z) = z mod 256 ^ Z.of_nat n.
Proof.
  revert z. induction n as [|n IH]; intros z.
  - cbn. now rewrite Z.mod_1_r.
  - cbn [le_bytes le_uint]. rewrite IH, byte_val_byte_of.
    rewrite Nat2Z.inj_succ, Z.pow_succ_r by lia.
    rewrite Z.rem_mul_r; [reflexivity|lia|apply Z.pow_pos_nonneg; lia].
Qed.

Lemma read_i32_le_bytes data pos z rest :
  0 <= pos <= Z.of_nat (length data) ->
  drop (Z.to_nat pos) data = le_bytes 4 z ++ rest ->
  in_int z -> 0 <= z ->
  read_i32 data pos = Some z.
Proof.
  intros Hpos Hd Hz H0.
  destruct (read_bytes_prefix data pos (le_bytes 4 z) rest Hpos Hd) as [Hr _].
  rewrite length_le_bytes in Hr. change (Z.of_nat 4) with 4 in Hr.
  unfold read_i32. rewrite Hr. cbn [fmap option_fmap option_map].
  rewrite le_uint_le_bytes. change (256 ^ Z.of_nat 4) with (2^32).
  unfold in_int, INT_MAX in Hz.
  rewrite Z.mod_small by lia.
  now rewrite wrap32_id.
Qed.

Lemma read_i32_le_bytes_int data pos z rest :
  0 <= pos <= Z.of_nat (length data) ->
  drop (Z.to_nat pos) data = le_bytes 4 z ++ rest ->
  in_int z ->
  read_i32 data pos = Some z.
Proof.
  intros Hpos Hd Hz.
  destruct (read_bytes_prefix data pos (le_bytes 4 z) rest Hpos Hd) as [Hr _].
  rewrite length_le_bytes in Hr. change (Z.of_nat 4) with 4 in Hr.
  unfold read_i32. rewrite Hr. cbn [fmap option_fmap option_map].
  rewrite le_uint_le_bytes. change (256 ^ Z.of_nat 4) with (2^32).
  f_equal. unfold wrap32. rewrite Z.add_mod_idemp_l by lia.
  unfold in_int, INT_MIN, INT_MAX in Hz. rewrite Z.mod_small; lia.
Qed.

Lemma read_u64_le_bytes data pos z rest :
  0 <= pos <= Z.of_nat (length data) ->
  drop (Z.to_nat pos) data = le_bytes 8 z ++ rest ->
  0 <= z < 2 ^ 64 ->
  read_u64 data pos = Some z.
Proof.
  intros Hpos Hd Hz.
  destruct (read_bytes_prefix data pos (le_bytes 8 z) rest Hpos Hd) as [Hr _].
  rewrite length_le_bytes in Hr. change (Z.of_nat 8) with 8 in Hr.
  unfold read_u64. rewrite Hr. cbn [fmap option_fmap option_map].
  rewrite le_uint_le_bytes. change (256 ^ Z.of_nat 8) with (2^64).
  now rewrite Z.mod_small.
Qed.

(** ** Chunk iterator: containers written down *)

Lemma length_chunk_bytes c :
  chunk_ok c ->
  Z.of_nat (length (chunk_bytes c)) = 12 + Z.of_nat (length (ch_payload c)).
Proof.
  intros [Ht Hc]. unfold chunk_bytes.
  rewrite !length_app, length_le_bytes. lia.
Qed.

(** One turn of the loop per chunk record: after the records [cs] the loop
    stands at what follows them. *)
Lemma eph_load_loop_walk data :
  Z.of_nat (length data) <= INT_MAX ->
  forall cs fuel pos calls tail,
    Forall chunk_ok cs -> 0 <= pos ->
    drop (Z.to_nat pos) data = chunks_bytes cs ++ tail ->
    eph_load_loop (length cs + fuel) data pos
      (Z.of_nat (length (chunks_bytes cs ++ tail))) calls
    = eph_load_loop fuel data (pos + Z.of_nat (length (chunks_bytes cs)))
        (Z.of_nat (length tail)) (calls ++ visits pos cs).
Proof.
  intros Hlen.
  assert (Hmax : INT_MAX = 2^31 - 1) by reflexivity.
  assert (Hmin : INT_MIN = - 2^31) by reflexivity.
  induction cs as [|c cs IH]; intros fuel pos calls tail Hok Hpos Hdrop.
  - cbn. now rewrite Z.add_0_r, app_nil_r.
  - apply Forall_cons in Hok as [Hc Hcs].
    pose proof (length_chunk_bytes c Hc) as Hlc.
    destruct Hc as [Htag Htr].
    cbn [chunks_bytes] in Hdrop |- *. unfold chunk_bytes in Hdrop.
    rewrite <- !app_assoc in Hdrop.
    assert (Hl : (length (drop (Z.to_nat pos) data)
                  = length (chunk_bytes c)
                    + length (chunks_bytes cs ++ tail))%nat).
    { rewrite Hdrop. unfold chunk_bytes. rewrite !length_app. lia. }
    rewrite length_drop in Hl.
    set (n := Z.of_nat (length (ch_payload c))) in *.
    replace (Z.of_nat (length ((chunk_bytes c ++ chunks_bytes cs) ++ tail)))
      with (12 + n + Z.of_nat (length (chunks_bytes cs ++ tail)))
      by (rewrite <- app_assoc, (length_app (chunk_bytes c)); lia).
    cbn [length Nat.add eph_load_loop].
    destruct (Z.eqb_spec (12 + n + Z.of_nat (length (chunks_bytes cs ++ tail))) 0);
      [lia|].
    destruct (Z.leb_spec 8 (12 + n + Z.of_nat (length (chunks_bytes cs ++ tail))));
      [|lia].
    cbn [CHECK after].
    destruct (read_bytes_prefix data pos (ch_tag c) _ ltac:(lia) Hdrop)
      as [Hr1 Hd1].
    rewrite Htag in Hr1, Hd1. change (Z.of_nat 4) with 4 in Hr1, Hd1.
    rewrite Hr1. cbn [access after].
    rewrite (read_i32_le_bytes data (pos + 4) n _ ltac:(lia) Hd1)
      by (unfold in_int; lia).
    cbn [access after].
    destruct (read_bytes_prefix data (pos + 4) (le_bytes 4 n) _ ltac:(lia) Hd1)
      as [_ Hd2].
    rewrite length_le_bytes in Hd2. change (Z.of_nat 4) with 4 in Hd2.
    destruct (read_bytes_prefix data (pos + 4 + 4) (ch_payload c) _
                ltac:(lia) Hd2) as [_ Hd3].
    fold n in Hd3.
    destruct (read_bytes_prefix data (pos + 4 + 4 + n) (ch_trailer c) _
                ltac:(lia) Hd3) as [_ Hd4].
    rewrite Htr in Hd4. change (Z.of_nat 4) with 4 in Hd4.
    rewrite add32_id by (unfold in_int; lia).
    rewrite sub32_id by (unfold in_int; lia).
    replace (12 + n + Z.of_nat (length (chunks_bytes cs ++ tail)) - (n + 12))
      with (Z.of_nat (length (chunks_bytes cs ++ tail))) by lia.
    replace (pos + 4 + 4 + n + 4) with (pos + (n + 12)) in Hd4 by lia.
    rewrite (IH fuel (pos + (n + 12)) _ tail Hcs ltac:(lia) Hd4).
    rewrite <- app_assoc. cbn [visits app]. fold n.
    rewrite length_app.
    replace (pos + (n + 12) + Z.of_nat (length (chunks_bytes cs)))
      with (pos + Z.of_nat (length (chunk_bytes c) + length (chunks_bytes cs)))
      by lia.
    replace (pos + 12 + n) with (pos + (n + 12)) by lia.
    reflexivity.
Qed.

Lemma container_header cs :
  let data := container_bytes cs in
  strncmp data (magic ++ [x00]) 4 = Some 0 /\
  read_i32 data 4 = Some FILE_VERSION /\
  drop 8 data = chunks_bytes cs /\
  Z.of_nat (length data) = 8 + Z.of_nat (length (chunks_bytes cs)).
Proof.
  cbv zeta.
  assert (Hl : Z.of_nat (length (container_bytes cs))
               = 8 + Z.of_nat (length (chunks_bytes cs))).
  { unfold container_bytes. rewrite !length_app, length_le_bytes.
    cbn [magic length]. lia. }
  split; [reflexivity|]. split; [|split; [reflexivity|exact Hl]].
  apply (read_i32_le_bytes _ 4 FILE_VERSION (chunks_bytes cs)).
  - lia.
  - reflexivity.
  - unfold in_int, INT_MIN, INT_MAX, FILE_VERSION. lia.
  - unfold FILE_VERSION. lia.
Qed.

Lemma visits_payload data :
  forall cs pos tail (i : nat) c,
    Forall chunk_ok cs -> 0 <= pos <= Z.of_nat (length data) ->
    drop (Z.to_nat pos) data = chunks_bytes cs ++ tail ->
    cs !! i = Some c ->
    exists call,
      visits pos cs !! i = Some call /\
      cc_type call = ch_tag c /\
      cc_size call = Z.of_nat (length (ch_payload c)) /\
      read_bytes data (cc_payload call) (cc_size call) = Some (ch_payload c).
Proof.
  induction cs as [|c0 cs IH]; intros pos tail i c Hok Hpos Hdrop Hi;
    [discriminate|].
  apply Forall_cons in Hok as [[Htag Htr] Hcs].
  cbn [chunks_bytes] in Hdrop. unfold chunk_bytes in Hdrop.
  rewrite <- !app_assoc in Hdrop.
  assert (Hl : (length (drop (Z.to_nat pos) data)
                = 12 + length (ch_payload c0)
                  + length (chunks_bytes cs ++ tail))%nat).
  { rewrite Hdrop, !length_app, length_le_bytes. lia. }
  rewrite length_drop in Hl.
  destruct (read_bytes_prefix data pos (ch_tag c0) _ ltac:(lia) Hdrop)
    as [_ Hd1].
  rewrite Htag in Hd1. change (Z.of_nat 4) with 4 in Hd1.
  destruct (read_bytes_prefix data (pos + 4) (le_bytes 4 _) _ ltac:(lia) Hd1)
    as [_ Hd2].
  rewrite length_le_bytes in Hd2. change (Z.of_nat 4) with 4 in Hd2.
  destruct (read_bytes_prefix data (pos + 4 + 4) (ch_payload c0) _
              ltac:(lia) Hd2) as [Hr3 Hd3].
  destruct i as [|i]; cbn in Hi.
  - injection Hi as <-. eexists. split; [reflexivity|]. cbn.
    split; [reflexivity|]. split; [reflexivity|].
    now replace (pos + 8) with (pos + 4 + 4) by lia.
  - destruct (read_bytes_prefix data
                (pos + 4 + 4 + Z.of_nat (length (ch_payload c0)))
                (ch_trailer c0) _ ltac:(lia) Hd3) as [_ Hd4].
    rewrite Htr in Hd4. change (Z.of_nat 4) with 4 in Hd4.
    cbn [visits lookup list_lookup].
    apply (IH (pos + 12 + Z.of_nat (length (ch_payload c0))) tail i c Hcs);
      [lia| |exact Hi].
    rewrite <- Hd4. f_equal. lia.
Qed.

Lemma length_visits cs : forall pos, length (visits pos cs) = length cs.
Proof. induction cs as [|c cs IH]; intros pos; cbn; [|rewrite IH]; lia. Qed.

(** X2. A file written as the format comment describes, with chunks [cs],
    is read in one turn per chunk: [eph_load] returns 0 and has called the
    visitor once per chunk, in the order of the file, with the type of the
    chunk, the offset of its data and the length of its data; that offset
    and that length designate the data of the chunk, inside the buffer. *)
Theorem eph_load_visits (cs : list chunk) :
  Forall chunk_ok cs ->
  Z.of_nat (length (container_bytes cs)) <= INT_MAX ->
  eph_load (length cs) (container_bytes cs)
    (Z.of_nat (length (container_bytes cs)))
  = Some (Done (0, visits 8 cs)) /\
  length (visits 8 cs) = length cs /\
  forall (i : nat) c, cs !! i = Some c ->
    exists call,
      visits 8 cs !! i = Some call /\
      cc_type call = ch_tag c /\
      cc_size call = Z.of_nat (length (ch_payload c)) /\
      read_bytes (container_bytes cs) (cc_payload call) (cc_size call)
      = Some (ch_payload c).
Proof.
  intros Hok Hlen.
  destruct (container_header cs) as (Hm & Hv & Hd & Hl).
  assert (Hmax : INT_MAX = 2^31 - 1) by reflexivity.
  assert (Hmin : INT_MIN = - 2^31) by reflexivity.
  split; [|split; [apply length_visits|]].
  - unfold eph_load.
    destruct (Z.leb_spec 4 (Z.of_nat (length (container_bytes cs)))); [|lia].
    cbn [CHECK after]. rewrite Hm. cbn [access after Z.eqb CHECK].
    rewrite Hv. cbn [access after Z.eqb FILE_VERSION Pos.eqb CHECK].
    rewrite sub32_id by (unfold in_int; lia).
    replace (Z.of_nat (length (container_bytes cs)) - 8)
      with (Z.of_nat (length (chunks_bytes cs ++ [])))
      by (rewrite app_nil_r; lia).
    rewrite <- (Nat.add_0_r (length cs)).
    rewrite (eph_load_loop_walk _ Hlen cs 0 8 [] [] Hok ltac:(lia))
      by (now rewrite app_nil_r).
    reflexivity.
  - intros i c Hi.
    apply (visits_payload (container_bytes cs) cs 8 [] i c Hok);
      [lia| |exact Hi].
    now rewrite app_nil_r.
Qed.

Lemma eph_load_visits_witness :
  eph_load 2 (container_bytes two_chunks)
    (Z.of_nat (length (container_bytes two_chunks)))
  = Some (Done (0, visits 8 two_chunks)) /\
  length (visits 8 two_chunks) = 2%nat /\
  forall (i : nat) c, two_chunks !! i = Some c ->
    exists call,
      visits 8 two_chunks !! i = Some call /\
      cc_type call = ch_tag c /\
      cc_size call = Z.of_nat (length (ch_payload c)) /\
      read_bytes (container_bytes two_chunks) (cc_payload call) (cc_size call)
      = Some (ch_payload c).
Proof.
  apply (eph_load_visits two_chunks).
  - repeat constructor.
  - vm_compute. discriminate.
Defined.

Example eph_load_two_chunks :
  eph_load 2 (container_bytes two_chunks) 35
  = Some (Done (0, [ {| cc_type := tag_star; cc_payload := 16; cc_size := 3 |};
                     {| cc_type := tag_star; cc_payload := 31;
                        cc_size := 0 |} ])).
Proof. reflexivity. Qed.

Lemma chunks_bytes_app cs cs' :
  chunks_bytes (cs ++ cs') = chunks_bytes cs ++ chunks_bytes cs'.
Proof.
  induction cs as [|c cs IH]; cbn; [reflexivity|].
  now rewrite IH, app_assoc.
Qed.

(** A loop that stands inside a chunk record, [m] bytes before the end of
    the buffer, fails a check within two turns. *)
Lemma eph_load_loop_partial data c (m : nat) fuel pos calls :
  chunk_ok c ->
  Z.of_nat (length (chunk_bytes c)) <= INT_MAX ->
  (0 < m < length (chunk_bytes c))%nat ->
  0 <= pos <= Z.of_nat (length data) ->
  drop (Z.to_nat pos) data = take m (chunk_bytes c) ->
  (2 <= fuel)%nat ->
  eph_load_loop fuel data pos (Z.of_nat m) calls = Some Aborted.
Proof.
  intros Hc Hint Hm Hpos Hdrop Hfuel.
  pose proof (length_chunk_bytes c Hc) as Hlc. destruct Hc as [Htag Htr].
  assert (Hmax : INT_MAX = 2^31 - 1) by reflexivity.
  assert (Hmin : INT_MIN = - 2^31) by reflexivity.
  destruct fuel as [|[|fuel]]; [lia|lia|].
  cbn [eph_load_loop].
  destruct (Z.eqb_spec (Z.of_nat m) 0) as [|_]; [lia|].
  destruct (Z.leb_spec 8 (Z.of_nat m)) as [H8|]; [|reflexivity].
  cbn [CHECK after].
  set (n := Z.of_nat (length (ch_payload c))) in *.
  assert (Hsplit : take m (chunk_bytes c)
                   = ch_tag c ++ le_bytes 4 n
                     ++ take (m - 8) (ch_payload c ++ ch_trailer c)).
  { unfold chunk_bytes. fold n.
    rewrite take_app_ge by lia. f_equal.
    rewrite take_app_ge by (rewrite length_le_bytes; lia). f_equal.
    rewrite length_le_bytes. f_equal. lia. }
  rewrite Hsplit in Hdrop.
  assert (Hl : (length (drop (Z.to_nat pos) data) = m)%nat).
  { rewrite Hdrop, <- Hsplit, length_take. lia. }
  rewrite length_drop in Hl.
  destruct (read_bytes_prefix data pos (ch_tag c) _ ltac:(lia) Hdrop)
    as [Hr1 Hd1].
  rewrite Htag in Hr1, Hd1. change (Z.of_nat 4) with 4 in Hr1, Hd1.
  rewrite Hr1. cbn [access after].
  rewrite (read_i32_le_bytes data (pos + 4) n _ ltac:(lia) Hd1)
    by (unfold in_int; lia).
  cbn [access after eph_load_loop].
  rewrite sub32_add32, wrap32_id by (unfold in_int; lia).
  destruct (Z.eqb_spec (Z.of_nat m - n - 12) 0) as [|_]; [lia|].
  destruct (Z.leb_spec 8 (Z.of_nat m - n - 12)); [lia|]. reflexivity.
Qed.

(** X3. A file that ends inside its last chunk record, [k] bytes short, is
    not accepted: [eph_load] stops at a failed check, after the visits of
    the chunks before. *)
Theorem eph_load_truncated (cs : list chunk) (c : chunk) (k fuel : nat) :
  Forall chunk_ok cs -> chunk_ok c ->
  (0 < k < length (chunk_bytes c))%nat ->
  Z.of_nat (length (container_bytes (cs ++ [c]))) <= INT_MAX ->
  (length cs + 2 <= fuel)%nat ->
  eph_load fuel
    (take (length (container_bytes (cs ++ [c])) - k)
       (container_bytes (cs ++ [c])))
    (Z.of_nat (length (container_bytes (cs ++ [c])) - k))
  = Some Aborted.
Proof.
  intros Hcs Hc Hk Hint Hfuel.
  assert (Hmax : INT_MAX = 2^31 - 1) by reflexivity.
  assert (Hmin : INT_MIN = - 2^31) by reflexivity.
  set (m := (length (chunk_bytes c) - k)%nat).
  assert (Hfull : Z.of_nat (length (container_bytes (cs ++ [c])))
                  = 8 + Z.of_nat (length (chunks_bytes cs))
                    + Z.of_nat (length (chunk_bytes c))).
  { destruct (container_header (cs ++ [c])) as (_ & _ & _ & ->).
    rewrite chunks_bytes_app, length_app. cbn [chunks_bytes].
    rewrite app_nil_r. lia. }
  assert (Hdata : take (length (container_bytes (cs ++ [c])) - k)
                    (container_bytes (cs ++ [c]))
                  = magic ++ le_bytes 4 FILE_VERSION
                    ++ chunks_bytes cs ++ take m (chunk_bytes c)).
  { unfold container_bytes. rewrite chunks_bytes_app. cbn [chunks_bytes].
    rewrite app_nil_r.
    rewrite (app_assoc (le_bytes 4 FILE_VERSION)), (app_assoc magic).
    rewrite take_app_ge.
    - rewrite <- !app_assoc. do 3 f_equal. subst m.
      rewrite !length_app, length_le_bytes. cbn [magic length].
      f_equal. lia.
    - unfold container_bytes in Hfull.
      rewrite !length_app, length_le_bytes in *. cbn [magic length] in *.
      lia. }
  rewrite Hdata.
  set (data := magic ++ le_bytes 4 FILE_VERSION
               ++ chunks_bytes cs ++ take m (chunk_bytes c)).
  assert (Hl : Z.of_nat (length data)
               = 8 + Z.of_nat (length (chunks_bytes cs)) + Z.of_nat m).
  { subst data. rewrite !length_app, length_le_bytes, length_take.
    cbn [magic length]. lia. }
  replace (Z.of_nat (length (container_bytes (cs ++ [c])) - k))
    with (Z.of_nat (length data)) by lia.
  unfold eph_load.
  destruct (Z.leb_spec 4 (Z.of_nat (length data))); [|lia].
  cbn [CHECK after].
  change (strncmp data (magic ++ [x00]) 4) with (Some 0).
  cbn [access after Z.eqb CHECK].
  rewrite (read_i32_le_bytes data 4 FILE_VERSION
             (chunks_bytes cs ++ take m (chunk_bytes c)));
    [|lia|reflexivity|unfold in_int, FILE_VERSION; lia|unfold FILE_VERSION; lia].
  cbn [access after Z.eqb FILE_VERSION Pos.eqb CHECK].
  rewrite sub32_id by (unfold in_int; lia).
  replace (Z.of_nat (length data) - 8)
    with (Z.of_nat (length (chunks_bytes cs ++ take m (chunk_bytes c))))
    by (rewrite length_app, length_take; lia).
  replace fuel with (length cs + (fuel - length cs))%nat by lia.
  assert (Hdl : Z.of_nat (length data) <= INT_MAX) by (subst m; lia).
  rewrite (eph_load_loop_walk data Hdl cs _ 8 []
             (take m (chunk_bytes c)) Hcs ltac:(lia) eq_refl).
  rewrite length_take. cbn [app].
  replace (m `min` length (chunk_bytes c))%nat with m by lia.
  apply (eph_load_loop_partial data c m); try assumption; try lia.
  replace (Z.to_nat (8 + Z.of_nat (length (chunks_bytes cs))))
    with (8 + length (chunks_bytes cs))%nat by lia.
  subst data. change (drop (8 + ?n) (magic ++ le_bytes 4 FILE_VERSION ++ ?l))
    with (drop n l).
  now rewrite drop_app_length.
Qed.

Lemma eph_load_truncated_witness :
  eph_load 3
    (take (length (container_bytes two_chunks) - 1)
       (container_bytes two_chunks))
    (Z.of_nat (length (container_bytes two_chunks) - 1))
  = Some Aborted.
Proof.
  apply (eph_load_truncated
           [ {| ch_tag := tag_star; ch_payload := ["a"; "b"; "c"]%byte;
                ch_trailer := le_bytes 4 0 |} ]
           {| ch_tag := tag_star; ch_payload := []; ch_trailer := le_bytes 4 0 |}
           1 3).
  - repeat constructor.
  - repeat constructor.
  - vm_compute. lia.
  - vm_compute. discriminate.
  - simpl. lia.
Defined.

(** ** Chunk iterator: what is refused at the header *)

Lemma strncmp_magic data :
  (4 <= length data)%nat ->
  strncmp data (magic ++ [x00]) 4 = Some 0 -> take 4 data = magic.
Proof.
  intros H4 Hcmp.
  apply (strncmp_c_string 4) in Hcmp; [|lia|cbn; lia].
  destruct data as [|b0 [|b1 [|b2 [|b3 rest]]]]; cbn in H4; try lia.
  clear -Hcmp. cbn in Hcmp.
  destruct (Byte.eqb b0 x00); [discriminate|].
  destruct (Byte.eqb b1 x00); [discriminate|].
  destruct (Byte.eqb b2 x00); [discriminate|].
  destruct (Byte.eqb b3 x00); [discriminate|].
  now injection Hcmp as -> -> -> ->.
Qed.

(** X4. [eph_load] stops at a failed check, whatever follows and before any
    call of the visitor, when the size given is below 4, when the buffer
    does not start with the four characters "EPHE", or when the version
    after them is not 2. *)
Theorem eph_load_bad_header (fuel : nat) (data : list byte) (data_size : Z) :
  data_size < 4 \/
  ((4 <= length data)%nat /\ take 4 data <> magic) \/
  ((8 <= length data)%nat /\ read_i32 data 4 <> Some FILE_VERSION) ->
  eph_load fuel data data_size = Some Aborted.
Proof.
  intros H. unfold eph_load.
  destruct (Z.leb_spec 4 data_size) as [Hs|Hs]; [|reflexivity].
  cbn [CHECK after].
  assert (H4 : (4 <= length data)%nat) by (destruct H as [|[[]|[]]]; lia).
  destruct (strncmp_is_Some 4 data (magic ++ [x00]) H4 ltac:(cbn; lia))
    as [c Hc].
  rewrite Hc. cbn [access after].
  destruct (Z.eqb_spec c 0) as [->|Hne]; [|reflexivity].
  cbn [CHECK after].
  apply strncmp_magic in Hc; [|exact H4].
  destruct H as [H|[[_ H]|[H8 H]]]; [lia|contradiction|].
  destruct (read_i32 data 4) as [version|] eqn:Hv.
  - cbn [access after].
    destruct (Z.eqb_spec version FILE_VERSION) as [->|]; [contradiction|].
    reflexivity.
  - unfold read_i32 in Hv. rewrite read_bytes_Some in Hv by lia.
    discriminate.
Qed.

Lemma eph_load_bad_header_witness :
  eph_load 1 (magic ++ le_bytes 4 3) 8 = Some Aborted.
Proof.
  apply (eph_load_bad_header 1 (magic ++ le_bytes 4 3) 8).
  right. right. split; [simpl; lia|vm_compute; discriminate].
Defined.

(** ** Chunk iterator: a chunk that is never left *)

Lemma eph_load_loop_mono data :
  forall fuel pos rem calls r (k : nat),
    eph_load_loop fuel data pos rem calls = Some r ->
    eph_load_loop (fuel + k) data pos rem calls = Some r.
Proof.
  induction fuel as [|fuel IH]; intros pos rem calls r k.
  - cbn [eph_load_loop]. destruct (rem =? 0) eqn:E; [|discriminate].
    intros <-. destruct (0 + k)%nat; cbn [eph_load_loop]; now rewrite E.
  - change (S fuel + k)%nat with (S (fuel + k)). cbn [eph_load_loop].
    destruct (rem =? 0); [trivial|].
    destruct (CHECK (8 <=? rem)); cbn [after]; trivial.
    destruct (access (read_bytes data pos 4)); cbn [after]; trivial.
    destruct (access (read_i32 data (pos + 4))); cbn [after]; trivial.
    apply IH.
Qed.

Lemma eph_load_loop_stuck data pos rem tag :
  8 <= rem -> in_int rem ->
  read_bytes data pos 4 = Some tag ->
  read_i32 data (pos + 4) = Some (-12) ->
  forall fuel calls, eph_load_loop fuel data pos rem calls = None.
Proof.
  intros H8 Hint Htag Hlen.
  induction fuel as [|fuel IH]; intros calls; cbn [eph_load_loop].
  - destruct (Z.eqb_spec rem 0); [lia|reflexivity].
  - destruct (Z.eqb_spec rem 0); [lia|].
    destruct (Z.leb_spec 8 rem); [|lia].
    cbn [CHECK after]. rewrite Htag, Hlen. cbn [access after].
    change (add32 (-12) 12) with 0.
    rewrite Z.add_0_r, sub32_id, Z.sub_0_r by (now rewrite Z.sub_0_r).
    apply IH.
Qed.

(** X5. A chunk whose length field holds -12 is never left: on a file that
    has such a chunk after any number of well-formed ones, whatever comes
    after it, [eph_load] does not return, however many turns of its loop
    it is given; it calls the visitor for that chunk again and again. *)
Theorem eph_load_endless (cs : list chunk) (tag rest : list byte)
    (fuel : nat) :
  Forall chunk_ok cs -> length tag = 4%nat ->
  Z.of_nat (length (container_bytes cs ++ tag ++ le_bytes 4 (-12) ++ rest))
  <= INT_MAX ->
  eph_load fuel (container_bytes cs ++ tag ++ le_bytes 4 (-12) ++ rest)
    (Z.of_nat (length (container_bytes cs ++ tag ++ le_bytes 4 (-12) ++ rest)))
  = None.
Proof.
  intros Hcs Htag Hint.
  assert (Hmax : INT_MAX = 2^31 - 1) by reflexivity.
  assert (Hmin : INT_MIN = - 2^31) by reflexivity.
  set (tail := tag ++ le_bytes 4 (-12) ++ rest).
  assert (Hdata : container_bytes cs ++ tail
                  = magic ++ le_bytes 4 FILE_VERSION
                    ++ chunks_bytes cs ++ tail).
  { unfold container_bytes. now rewrite <- !app_assoc. }
  fold tail in Hint. rewrite Hdata in Hint |- *.
  set (data := magic ++ le_bytes 4 FILE_VERSION ++ chunks_bytes cs ++ tail)
    in *.
  assert (Hlt : Z.of_nat (length tail) = 8 + Z.of_nat (length rest)).
  { subst tail. rewrite !length_app, length_le_bytes. lia. }
  assert (Hl : Z.of_nat (length data)
               = 8 + Z.of_nat (length (chunks_bytes cs))
                 + Z.of_nat (length tail)).
  { subst data. rewrite !length_app, length_le_bytes. cbn [magic length].
    lia. }
  assert (Hd8 : drop 8 data = chunks_bytes cs ++ tail) by reflexivity.
  assert (Hloop : eph_load_loop (length cs + fuel) data 8
                    (Z.of_nat (length (chunks_bytes cs ++ tail))) []
                  = None).
  { rewrite (eph_load_loop_walk data Hint cs fuel 8 [] tail Hcs ltac:(lia)
               Hd8).
    assert (Hdt : drop (Z.to_nat (8 + Z.of_nat (length (chunks_bytes cs))))
                    data = tail).
    { replace (Z.to_nat (8 + Z.of_nat (length (chunks_bytes cs))))
        with (8 + length (chunks_bytes cs))%nat by lia.
      rewrite <- drop_drop, Hd8. now rewrite drop_app_length. }
    destruct (read_bytes_prefix data (8 + Z.of_nat (length (chunks_bytes cs)))
                tag (le_bytes 4 (-12) ++ rest) ltac:(lia) Hdt) as [Hr Hd'].
    rewrite Htag in Hr, Hd'. change (Z.of_nat 4) with 4 in Hr, Hd'.
    apply (eph_load_loop_stuck data _ _ tag); [lia|unfold in_int; lia|exact Hr|].
    apply (read_i32_le_bytes_int data _ (-12) rest); [lia|exact Hd'|].
    unfold in_int. lia. }
  unfold eph_load.
  destruct (Z.leb_spec 4 (Z.of_nat (length data))); [|lia].
  cbn [CHECK after].
  assert (Hm : strncmp data (magic ++ [x00]) 4 = Some 0) by reflexivity.
  rewrite Hm. cbn [access after Z.eqb CHECK].
  rewrite (read_i32_le_bytes data 4 FILE_VERSION (chunks_bytes cs ++ tail));
    [|lia|reflexivity|unfold in_int, FILE_VERSION; lia|unfold FILE_VERSION; lia].
  cbn [access after Z.eqb FILE_VERSION Pos.eqb CHECK].
  rewrite sub32_id by (unfold in_int; lia).
  replace (Z.of_nat (length data) - 8)
    with (Z.of_nat (length (chunks_bytes cs ++ tail)))
    by (rewrite length_app; lia).
  destruct (eph_load_loop fuel data 8
              (Z.of_nat (length (chunks_bytes cs ++ tail))) []) as [r|] eqn:E;
    [|reflexivity].
  apply (eph_load_loop_mono data fuel _ _ _ r (length cs)) in E.
  rewrite Nat.add_comm in E. congruence.
Qed.

(** After one chunk, a chunk of length -12 and the byte "x". *)
Lemma eph_load_endless_witness :
  eph_load 1000
    (container_bytes
       [ {| ch_tag := tag_star; ch_payload := ["a"; "b"; "c"]%byte;
            ch_trailer := le_bytes 4 0 |} ]
     ++ tag_star ++ le_bytes 4 (-12) ++ ["x"]%byte)
    (Z.of_nat
       (length
          (container_bytes
             [ {| ch_tag := tag_star; ch_payload := ["a"; "b"; "c"]%byte;
                  ch_trailer := le_bytes 4 0 |} ]
           ++ tag_star ++ le_bytes 4 (-12) ++ ["x"]%byte)))
  = None.
Proof.
  apply (eph_load_endless
           [ {| ch_tag := tag_star; ch_payload := ["a"; "b"; "c"]%byte;
                ch_trailer := le_bytes 4 0 |} ]
           tag_star ["x"]%byte 1000).
  - repeat constructor.
  - reflexivity.
  - vm_compute. discriminate.
Defined.

(** ** Tile header: every pixel of an order *)

(** An order has [12 * 4^order] pixels, and [nuniq = 4 * 4^order + pixel]
    numbers them all. *)
Lemma half_log2_order order q :
  0 <= order -> 4 ^ order <= q < 4 * 4 ^ order ->
  half_log2 q = Some order.
Proof.
  intros Ho Hq. unfold half_log2.
  assert (H4 : 0 < 4 ^ order) by (apply Z.pow_pos_nonneg; lia).
  destruct (Z.leb_spec q 0); [lia|]. f_equal.
  assert (Hlow : 2 * order <= Z.log2 q).
  { apply Z.log2_le_pow2; [lia|]. rewrite <- pow4_pow2 by lia. lia. }
  assert (Hhigh : Z.log2 q < 2 * order + 2).
  { apply Z.log2_lt_pow2; [lia|].
    replace (2 * order + 2) with (2 * (order + 1)) by lia.
    rewrite <- pow4_pow2 by lia. rewrite Z.pow_add_r by lia. lia. }
  symmetry. apply (Z.div_unique _ _ _ (Z.log2 q - 2 * order)); lia.
Qed.

Lemma eph_read_tile_header_order data data_size data_ofs version nuniq order :
  Z.of_nat (length data) <= INT_MAX ->
  read_i32 data data_ofs = Some version ->
  read_u64 data (data_ofs + 4) = Some nuniq ->
  half_log2 (nuniq / 4) = Some order ->
  0 <= order <= 14 ->
  0 <= nuniq - 4 * 4 ^ order <= INT_MAX ->
  eph_read_tile_header data data_size data_ofs
  = Done {| th_ret := 0; th_version := version; th_order := order;
            th_pix := nuniq - 4 * 4 ^ order; th_ofs := data_ofs + 12 |}.
Proof.
  intros Hsize Hv Hn Hl Ho Hp.
  unfold eph_read_tile_header. rewrite Hv, Hn. cbn [access mbind outcome_bind].
  rewrite Hl. cbn [access mbind outcome_bind].
  assert (Hmax : INT_MAX = 2^31 - 1) by reflexivity.
  assert (Hmin : INT_MIN = - 2^31) by reflexivity.
  assert (H4 : 0 < 4 ^ order <= 4 ^ 14).
  { split; [apply Z.pow_pos_nonneg; lia|apply Z.pow_le_mono_r; lia]. }
  change (4 ^ 14) with 268435456 in H4.
  rewrite (mul32_id 2 order) by (unfold in_int; lia).
  unfold shl32.
  destruct (Z.leb_spec 0 (2 * order)); [|lia].
  destruct (Z.ltb_spec (2 * order) 32); [|lia].
  cbn [andb access mbind outcome_bind].
  rewrite Z.shiftl_1_l, <- pow4_pow2 by lia.
  rewrite (wrap32_id (4 ^ order)) by (unfold in_int; lia).
  rewrite (mul32_id 4 (4 ^ order)) by (unfold in_int; lia).
  rewrite (wrap64_id (4 * 4 ^ order)) by lia.
  rewrite (wrap64_id (nuniq - 4 * 4 ^ order)) by lia.
  rewrite (wrap32_id (nuniq - 4 * 4 ^ order)) by (unfold in_int; lia).
  unfold read_u64 in Hn.
  destruct (read_bytes data (data_ofs + 4) 8) as [bs|] eqn:Hb; [|discriminate].
  apply read_bytes_inv in Hb as (Hb1 & _ & Hb2 & _).
  unfold read_i32 in Hv.
  destruct (read_bytes data data_ofs 4) as [bs'|] eqn:Hb'; [|discriminate].
  apply read_bytes_inv in Hb' as (Hb3 & _).
  rewrite add32_id by (unfold in_int; lia).
  reflexivity.
Qed.

(** X6. [eph_read_tile_header] gives back the order and the pixel of every
    tile that HEALPix has up to order 14: for a pixel in [0, 12 * 4^order)
    that an [int] holds, a header that carries [nuniq = 4 * 4^order + pixel]
    yields that order and that pixel, and the cursor moves on by 12. *)
Theorem eph_read_tile_header_healpix (data : list byte)
    (data_size data_ofs version order pixel : Z) :
  0 <= order <= 14 -> 0 <= pixel < 12 * 4 ^ order -> pixel <= INT_MAX ->
  Z.of_nat (length data) <= INT_MAX ->
  read_i32 data data_ofs = Some version ->
  read_u64 data (data_ofs + 4) = Some (4 * 4 ^ order + pixel) ->
  eph_read_tile_header data data_size data_ofs
  = Done {| th_ret := 0; th_version := version; th_order := order;
            th_pix := pixel; th_ofs := data_ofs + 12 |}.
Proof.
  intros Ho Hp Hpi Hsize Hv Hn.
  assert (H4 : 0 < 4 ^ order) by (apply Z.pow_pos_nonneg; lia).
  rewrite (eph_read_tile_header_order data data_size data_ofs version
             (4 * 4 ^ order + pixel) order); try assumption.
  - do 2 f_equal. lia.
  - apply half_log2_order; [lia|].
    replace (4 * 4 ^ order + pixel) with (pixel + 4 ^ order * 4) by lia.
    rewrite Z.div_add by lia.
    assert (0 <= pixel / 4 < 3 * 4 ^ order); [|lia].
    split; [apply Z.div_pos; lia|apply Z.div_lt_upper_bound; lia].
  - lia.
Qed.

(** The last pixel of order 3, number 767 of 768. *)
Lemma eph_read_tile_header_healpix_witness :
  eph_read_tile_header (tile_header_bytes 2 (4 * 4 ^ 3 + 767)) 12 0
  = Done {| th_ret := 0; th_version := 2; th_order := 3;
            th_pix := 767; th_ofs := 0 + 12 |}.
Proof.
  apply (eph_read_tile_header_healpix
           (tile_header_bytes 2 (4 * 4 ^ 3 + 767)) 12 0 2 3 767).
  - lia.
  - simpl. lia.
  - unfold INT_MAX. lia.
  - unfold INT_MAX. simpl. lia.
  - reflexivity.
  - reflexivity.
Defined.

Lemma nuniq_order nuniq :
  4 <= nuniq < 3 * 2 ^ 30 ->
  exists o,
    0 <= o <= 14 /\
    half_log2 (nuniq / 4) = Some o /\
    0 <= nuniq - 4 * 4 ^ o <= INT_MAX /\
    nuniq - 4 * 4 ^ o < 12 * 4 ^ o.
Proof.
  intros Hn.
  assert (Hmax : INT_MAX = 2^31 - 1) by reflexivity.
  set (q := nuniq / 4).
  assert (Hq : 1 <= q < 3 * 2 ^ 28).
  { subst q. split; [apply Z.div_le_lower_bound; lia|].
    apply Z.div_lt_upper_bound; lia. }
  assert (Hnq : 4 * q <= nuniq < 4 * q + 4).
  { subst q. pose proof (Z.div_mod nuniq 4 ltac:(lia)).
    pose proof (Z.mod_pos_bound nuniq 4 ltac:(lia)). lia. }
  set (l := Z.log2 q).
  destruct (Z.log2_spec q ltac:(lia)) as [Hl1 Hl2]. fold l in Hl1, Hl2.
  assert (Hl0 : 0 <= l) by apply Z.log2_nonneg.
  set (o := l / 2).
  assert (Hlo : 2 * o <= l < 2 * o + 2).
  { subst o. pose proof (Z.div_mod l 2 ltac:(lia)).
    pose proof (Z.mod_pos_bound l 2 ltac:(lia)). lia. }
  assert (Ho0 : 0 <= o) by lia.
  assert (Hpow : 4 ^ o <= q < 4 * 4 ^ o).
  { rewrite pow4_pow2 by lia. split.
    - etransitivity; [|exact Hl1]. apply Z.pow_le_mono_r; lia.
    - eapply Z.lt_le_trans; [exact Hl2|].
      replace (4 * 2 ^ (2 * o)) with (2 ^ (2 * o + 2))
        by (rewrite Z.pow_add_r by lia; lia).
      apply Z.pow_le_mono_r; lia. }
  assert (Ho14 : o <= 14).
  { destruct (Z.le_gt_cases o 14) as [|Hgt]; [assumption|exfalso].
    assert (4 ^ 15 <= 4 ^ o) by (apply Z.pow_le_mono_r; lia).
    change (4 ^ 15) with 1073741824 in *. lia. }
  assert (H4 : 0 < 4 ^ o <= 4 ^ 14).
  { split; [apply Z.pow_pos_nonneg; lia|apply Z.pow_le_mono_r; lia]. }
  change (4 ^ 14) with 268435456 in H4.
  assert (Hfit : nuniq - 4 * 4 ^ o <= INT_MAX).
  { destruct (Z.eq_dec o 14) as [->|Hne].
    - change (4 ^ 14) with 268435456. lia.
    - assert (4 ^ o <= 4 ^ 13) by (apply Z.pow_le_mono_r; lia).
      change (4 ^ 13) with 67108864 in *. lia. }
  exists o. split; [lia|]. split; [now apply half_log2_order|]. lia.
Qed.

(** X7. For every [nuniq] from 4 to below [3 * 2^30], the order and the pixel
    that [eph_read_tile_header] yields put together give [nuniq] again, and
    the pixel is one of the [12 * 4^order] pixels of that order. *)
Theorem eph_read_tile_header_decomposes (data : list byte)
    (data_size data_ofs version nuniq : Z) :
  4 <= nuniq < 3 * 2 ^ 30 ->
  Z.of_nat (length data) <= INT_MAX ->
  read_i32 data data_ofs = Some version ->
  read_u64 data (data_ofs + 4) = Some nuniq ->
  exists h,
    eph_read_tile_header data data_size data_ofs = Done h /\
    th_version h = version /\
    0 <= th_order h <= 14 /\
    0 <= th_pix h < 12 * 4 ^ th_order h /\
    4 * 4 ^ th_order h + th_pix h = nuniq.
Proof.
  intros Hn Hsize Hv Hu.
  destruct (nuniq_order nuniq Hn) as (o & Ho & Hl & Hp & Hp12).
  eexists. split.
  - now apply (eph_read_tile_header_order data data_size data_ofs version
                 nuniq o).
  - cbn. repeat split; lia.
Qed.

(** The largest [nuniq] of an int pixel at order 14. *)
Lemma eph_read_tile_header_decomposes_witness :
  exists h,
    eph_read_tile_header (tile_header_bytes 2 (3 * 2 ^ 30 - 1)) 12 0 = Done h /\
    th_version h = 2 /\
    0 <= th_order h <= 14 /\
    0 <= th_pix h < 12 * 4 ^ th_order h /\
    4 * 4 ^ th_order h + th_pix h = 3 * 2 ^ 30 - 1.
Proof.
  apply (eph_read_tile_header_decomposes
           (tile_header_bytes 2 (3 * 2 ^ 30 - 1)) 12 0 2 (3 * 2 ^ 30 - 1)).
  - lia.
  - unfold INT_MAX. simpl. lia.
  - reflexivity.
  - reflexivity.
Defined.

(** ** The byte transpose inside a longer buffer *)

(** X8. [shuffle_bytes] on a buffer that holds [nb * size] bytes or more, one
    of the two dimensions possibly zero: the first [nb * size] bytes are
    transposed, [output[j * nb + i] = input[i * size + j]], and every byte
    after them is left as it was; the buffer keeps its length. *)
Theorem shuffle_bytes_in_place (data : list byte) (nb size : Z) :
  0 <= nb -> 0 <= size ->
  nb * size <= Z.of_nat (length data) -> nb * size <= INT_MAX ->
  exists out,
    shuffle_bytes data nb size = Done out /\
    length out = length data /\
    (forall i j, 0 <= i < nb -> 0 <= j < size ->
       get out (j * nb + i) = get data (i * size + j)) /\
    (forall k, nb * size <= k -> get out k = get data k) /\
    drop (Z.to_nat (nb * size)) out = drop (Z.to_nat (nb * size)) data.
Proof.
  intros Hnb Hsize Hlen Hint.
  destruct (shuffle_bytes_written data nb size Hnb Hsize Hlen Hint)
    as (out & Hout & Hl & Hlow & Hhigh).
  exists out. split; [exact Hout|]. split; [exact Hl|].
  split; [|split].
  - intros i j Hi Hj. rewrite !get_lookup by nia.
    rewrite Hlow by nia. now rewrite source_index_cell.
  - intros k Hk. rewrite !get_lookup by nia. now apply Hhigh.
  - apply list_eq. intros n. rewrite !lookup_drop.
    specialize (Hhigh (Z.of_nat (Z.to_nat (nb * size) + n)) ltac:(lia)).
    now rewrite Nat2Z.id in Hhigh.
Qed.

(** Two rows of three bytes, then a byte that is no part of the table. *)
Lemma shuffle_bytes_in_place_witness :
  exists out,
    shuffle_bytes ["a"; "b"; "c"; "d"; "e"; "f"; "g"]%byte 3 2 = Done out /\
    length out = 7%nat /\
    (forall i j, 0 <= i < 3 -> 0 <= j < 2 ->
       get out (j * 3 + i)
       = get ["a"; "b"; "c"; "d"; "e"; "f"; "g"]%byte (i * 2 + j)) /\
    (forall k, 3 * 2 <= k ->
       get out k = get ["a"; "b"; "c"; "d"; "e"; "f"; "g"]%byte k) /\
    drop (Z.to_nat (3 * 2)) out = ["g"]%byte.
Proof.
  apply (shuffle_bytes_in_place ["a"; "b"; "c"; "d"; "e"; "f"; "g"]%byte 3 2).
  - lia.
  - lia.
  - simpl. lia.
  - unfold INT_MAX. lia.
Defined.

(** ** The current table format: what a call leaves *)

Lemma match_step_kept rs columns d res :
  match_step rs columns d = inl res \/ match_step rs columns d = inr res ->
  name <$> res = name <$> columns /\
  type <$> res = type <$> columns /\
  unit <$> res = unit <$> columns.
Proof.
  unfold match_step.
  destruct (columns !! first_named (d_name d) columns) as [c|] eqn:Hc.
  - destruct (Byte.eqb (type c) (d_type d)).
    + intros [[= <-]|[=]]. rewrite !list_fmap_insert. cbn.
      rewrite !list_insert_id; [tauto|..]; now rewrite list_lookup_fmap, Hc.
    + intros [[=]|[= <-]]. tauto.
  - intros [[= <-]|[=]]. tauto.
Qed.

Lemma match_all_kept rs ds : forall columns res,
  match_all rs ds columns = inl res \/ match_all rs ds columns = inr res ->
  name <$> res = name <$> columns /\
  type <$> res = type <$> columns /\
  unit <$> res = unit <$> columns.
Proof.
  induction ds as [|d ds IH]; intros columns res; cbn [match_all].
  - intros [[= <-]|[=]]. tauto.
  - destruct (match_step rs columns d) as [columns'|columns'] eqn:Hs.
    + intros H. destruct (IH _ _ H) as (Hn & Ht & Hu).
      destruct (match_step_kept rs columns d columns' (or_introl Hs))
        as (Hn' & Ht' & Hu').
      repeat split; congruence.
    + intros [[=]|[= <-]].
      apply (match_step_kept rs columns d columns'). now right.
Qed.

(** Where the matcher ends, column [j] holds what the last descriptor that
    found it says. *)
Lemma match_all_resolved rs ds : forall columns res,
  match_all rs ds columns = inl res ->
  forall j c, columns !! j = Some c ->
    (exists d, d ∈ ds /\ first_named (d_name d) columns = j /\
               type c = d_type d /\ res !! j = Some (resolve rs d c)) \/
    ((forall d, d ∈ ds -> first_named (d_name d) columns <> j) /\
     res !! j = Some c).
Proof.
  induction ds as [|d ds IH]; intros columns res; cbn [match_all].
  - intros [= <-] j c Hc. right. split; [|exact Hc].
    intros d Hd. inversion Hd.
  - destruct (match_step rs columns d) as [columns'|] eqn:Hs; [|discriminate].
    intros Hres j c Hc.
    destruct (match_step_names _ _ _ _ Hs) as (Hn & _ & _).
    assert (Hfn : forall d', first_named (d_name d') columns'
                             = first_named (d_name d') columns).
    { intros d'. now apply first_named_names. }
    unfold match_step in Hs.
    destruct (columns !! first_named (d_name d) columns) as [c0|] eqn:Hc0.
    + destruct (Byte.eqb (type c0) (d_type d)) eqn:Hty; [|discriminate].
      apply byte_eqb_eq in Hty. injection Hs as <-.
      destruct (Nat.eq_dec (first_named (d_name d) columns) j) as [E|E].
      * rewrite E in Hc0. assert (c0 = c) by congruence. subst c0.
        assert (Hj : <[first_named (d_name d) columns := resolve rs d c]>
                       columns !! j = Some (resolve rs d c)).
        { rewrite E. apply list_lookup_insert_eq.
          now apply lookup_lt_Some in Hc. }
        destruct (IH _ _ Hres j _ Hj) as [(d' & Hd' & Hf & Ht & Hr)|[_ Hr]].
        -- left. exists d'. split; [now right|].
           rewrite Hfn in Hf. split; [exact Hf|]. split; [exact Ht|exact Hr].
        -- left. exists d. split; [left|]. tauto.
      * assert (Hj : <[first_named (d_name d) columns := resolve rs d c0]>
                       columns !! j = Some c).
        { now rewrite list_lookup_insert_ne by exact E. }
        destruct (IH _ _ Hres j _ Hj) as [(d' & Hd' & Hf & Ht & Hr)|[Hno Hr]].
        -- left. exists d'. split; [now right|].
           rewrite Hfn in Hf. tauto.
        -- right. split; [|exact Hr]. intros d' Hd'.
           apply elem_of_cons in Hd' as [->|Hd']; [exact E|].
           rewrite <- Hfn. now apply Hno.
    + injection Hs as <-.
      destruct (IH _ _ Hres j _ Hc) as [(d' & Hd' & Hf & Ht & Hr)|[Hno Hr]].
      * left. exists d'. split; [now right|]. tauto.
      * right. split; [|exact Hr]. intros d' Hd'.
        apply elem_of_cons in Hd' as [->|Hd'].
        -- intros E. rewrite E in Hc0. congruence.
        -- now apply Hno.
Qed.

(** The call on a table whose header and descriptors lie in the buffer, in
    terms of the functions that its loops compute. *)
Lemma eph_read_table_prepare_run version data data_size rsa columns t :
  3 <= version ->
  Z.of_nat (length data) <= INT_MAX ->
  parse_table data = Some t ->
  0 <= t_n_col t ->
  Forall (fun c => length (name c) = 4%nat) columns ->
  eph_read_table_prepare version data data_size 0 rsa
    (Z.of_nat (length columns)) columns
  = match match_all (t_row_size t) (t_columns t) columns with
    | inr cols =>
        Done {| p_ret := -1; p_data := data; p_ofs := 0; p_columns := cols;
                p_log := [Wrong_type] |}
    | inl cols =>
        match unresolved cols with
        | Some c =>
            Done {| p_ret := -1; p_data := data; p_ofs := 0;
                    p_columns := cols;
                    p_log := [Cannot_find_column (name c)] |}
        | None =>
            data' ← (if truth (Z.land (t_flags t) 1)
                     then shuffle_at data (16 + 20 * t_n_col t)
                            (t_row_size t) (t_n_row t)
                     else Done data);
            Done {| p_ret := t_n_row t; p_data := data';
                    p_ofs := 16 + 20 * t_n_col t; p_columns := cols;
                    p_log := [] |}
        end
    end.
Proof.
  intros Hv Hsize Ht Hncol Hnames.
  pose proof (descriptors_end data t Ht Hncol) as Hend.
  destruct (parse_table_inv data t Ht) as (Hflags & Hrs & Hnc & Hnr & Hds).
  assert (Hmax : INT_MAX = 2^31 - 1) by reflexivity.
  unfold eph_read_table_prepare. cbn [assert Z.eqb mbind outcome_bind].
  destruct (Z.ltb_spec version 3); [lia|].
  change (0 + 0) with 0. change (0 + 4) with 4. change (0 + 8) with 8.
  change (0 + 12) with 12.
  rewrite Hflags, Hrs, Hnc, Hnr. cbn [access mbind outcome_bind].
  rewrite (match_loop data (t_row_size t) ltac:(lia) _ 0 (t_columns t) columns)
    by (trivial; lia).
  cbn [mbind outcome_bind].
  destruct (match_all (t_row_size t) (t_columns t) columns) as [res|res] eqn:Hm;
    [|reflexivity].
  destruct (match_all_inl _ _ _ _ Hm) as [Hlres _].
  rewrite <- Hlres, Nat2Z.id.
  pose proof (check_loop res (length res) 0 eq_refl) as Hcheck.
  rewrite drop_0 in Hcheck. change (Z.of_nat 0) with 0 in Hcheck.
  rewrite Hcheck. cbn [mbind outcome_bind].
  destruct (unresolved res) as [c'|]; [reflexivity|].
  rewrite mul32_id by (apply in_int_nonneg; lia).
  rewrite (add32_id 16) by (apply in_int_nonneg; lia).
  rewrite (add32_id 0) by (apply in_int_nonneg; lia).
  replace (0 + 16 + t_n_col t * 20) with (16 + 20 * t_n_col t) by lia.
  replace (0 + (16 + t_n_col t * 20)) with (16 + 20 * t_n_col t) by lia.
  reflexivity.
Qed.

Lemma shuffle_at_spec data ofs nb size :
  0 <= ofs -> 0 <= nb -> 0 <= size ->
  ofs + nb * size <= Z.of_nat (length data) -> nb * size <= INT_MAX ->
  exists out,
    shuffle_at data ofs nb size = Done out /\
    length out = length data /\
    take (Z.to_nat ofs) out = take (Z.to_nat ofs) data /\
    (forall i j, 0 <= i < nb -> 0 <= j < size ->
       get out (ofs + (j * nb + i)) = get data (ofs + (i * size + j))) /\
    (forall k, ofs + nb * size <= k -> get out k = get data k).
Proof.
  intros Hofs Hnb Hsize Hfit Hint. unfold shuffle_at.
  destruct (Z.ltb_spec ofs 0); [lia|].
  destruct (Z.ltb_spec (Z.of_nat (length data)) ofs); [lia|].
  cbn [orb].
  destruct (shuffle_bytes_written (drop (Z.to_nat ofs) data) nb size)
    as (out & Hout & Hl & Hlow & Hhigh);
    [lia|lia|rewrite length_drop; lia|lia|].
  rewrite Hout. cbn [mbind outcome_bind]. eexists. split; [reflexivity|].
  rewrite length_drop in Hl.
  assert (Htl : length (take (Z.to_nat ofs) data) = Z.to_nat ofs)
    by (rewrite length_take; lia).
  split; [rewrite length_app; lia|]. split.
  { rewrite take_app_length'; [reflexivity|now symmetry]. }
  assert (Hget : forall k, 0 <= k ->
            get (take (Z.to_nat ofs) data ++ out) (ofs + k)
            = out !! Z.to_nat k).
  { intros k Hk. rewrite get_lookup by lia.
    rewrite lookup_app_r by lia. f_equal. lia. }
  assert (Hdrop : forall k, 0 <= k ->
            drop (Z.to_nat ofs) data !! Z.to_nat k = get data (ofs + k)).
  { intros k Hk. rewrite get_lookup by lia. rewrite lookup_drop.
    f_equal. lia. }
  split.
  - intros i j Hi Hj. rewrite Hget by nia. rewrite Hlow by nia.
    rewrite source_index_cell by lia. apply Hdrop. nia.
  - intros k Hk.
    replace k with (ofs + (k - ofs)) by lia.
    rewrite Hget by nia. rewrite Hhigh by nia. apply Hdrop. nia.
Qed.

(** X9. When [eph_read_table_prepare] succeeds on a table of the current
    format, every declared column has been filled from a column of the
    table that has its name and its type tag: offset, size and source unit
    are the ones of that descriptor, the row stride is the one of the table
    header, and name, type and requested unit are as the caller gave them. *)
Theorem eph_read_table_prepare_resolved (version : Z) (data : list byte)
    (data_size row_size_arg nb_columns : Z) (columns : list eph_table_column)
    (t : table) :
  3 <= version ->
  nb_columns = Z.of_nat (length columns) ->
  Z.of_nat (length data) <= INT_MAX ->
  parse_table data = Some t ->
  0 <= t_n_col t ->
  (Z.land (t_flags t) 1 <> 0 ->
   0 <= t_row_size t /\ 0 <= t_n_row t /\
   16 + 20 * t_n_col t + t_row_size t * t_n_row t <= Z.of_nat (length data)) ->
  Forall (fun c => length (name c) = 4%nat) columns ->
  Forall (fun c => row_size c = 0) columns ->
  exists r,
    eph_read_table_prepare version data data_size 0 row_size_arg nb_columns
      columns = Done r /\
    length (p_columns r) = length columns /\
    (p_log r = [] ->
     forall (j : nat) c, columns !! j = Some c ->
       exists d,
         d ∈ t_columns t /\
         c_string (d_name d) = c_string (name c) /\
         d_type d = type c /\
         p_columns r !! j = Some (resolve (t_row_size t) d c)).
Proof.
  intros Hv -> Hsize Ht Hncol Hrows Hnames Hfresh.
  rewrite (eph_read_table_prepare_run version data data_size row_size_arg
             columns t Hv Hsize Ht Hncol Hnames).
  pose proof (descriptors_end data t Ht Hncol) as Hend.
  destruct (parse_table_inv data t Ht) as (_ & _ & _ & _ & Hds).
  pose proof (descriptors_names _ _ _ _ Hds) as Hdn.
  destruct (match_all (t_row_size t) (t_columns t) columns) as [res|res] eqn:Hm.
  2: { eexists. split; [reflexivity|]. cbn. split; [|discriminate].
       destruct (match_all_kept _ _ _ _ (or_intror Hm)) as (Hn & _).
       apply (f_equal length) in Hn. now rewrite !length_fmap in Hn. }
  destruct (match_all_inl _ _ _ _ Hm) as [Hlres _].
  destruct (unresolved res) as [c'|] eqn:Hu.
  { eexists. split; [reflexivity|]. cbn. split; [exact Hlres|discriminate]. }
  assert (Hdata : exists data',
    (if truth (Z.land (t_flags t) 1)
     then shuffle_at data (16 + 20 * t_n_col t) (t_row_size t) (t_n_row t)
     else Done data) = Done data').
  { unfold truth.
    destruct (Z.eqb_spec (Z.land (t_flags t) 1) 0) as [E|E]; cbn [negb];
      [now eexists|].
    destruct (Hrows E) as (Hr0 & Hn0 & Hfit).
    destruct (shuffle_at_spec data (16 + 20 * t_n_col t) (t_row_size t)
                (t_n_row t)) as (out & Hout & _); [lia..|].
    now exists out. }
  destruct Hdata as [data' ->]. cbn [mbind outcome_bind].
  eexists. split; [reflexivity|]. cbn. split; [exact Hlres|].
  intros _ j c Hc.
  apply unresolved_None in Hu.
  destruct (match_all_resolved _ _ _ _ Hm j c Hc)
    as [(d & Hd & Hf & Hty & Hr)|[_ Hr]].
  - exists d. split; [exact Hd|]. split; [|split; [now symmetry|exact Hr]].
    symmetry. apply named_c_string.
    + eapply (proj1 (Forall_lookup _ _) Hnames); eauto.
    + eapply (proj1 (Forall_forall _ _) Hdn); eauto.
    + apply (first_named_lookup _ columns). now rewrite Hf.
  - exfalso.
    apply (proj1 (Forall_lookup _ _) Hu _ _ Hr).
    apply (proj1 (Forall_lookup _ _) Hfresh _ _ Hc).
Qed.

Lemma eph_read_table_prepare_resolved_witness :
  exists r,
    eph_read_table_prepare 3 mag_id_table 68 0 0 2
      [declare name_id "i" 0 0; declare name_mag "f" 16 0] = Done r /\
    length (p_columns r) = 2%nat /\
    (p_log r = [] ->
     forall (j : nat) c,
       [declare name_id "i" 0 0; declare name_mag "f" 16 0] !! j = Some c ->
       exists d,
         d ∈ [ {| d_name := name_mag; d_type := "f"; d_unit := 1;
                  d_start := 8; d_size := 4 |};
               {| d_name := name_id; d_type := "i"; d_unit := 0;
                  d_start := 0; d_size := 4 |} ] /\
         c_string (d_name d) = c_string (name c) /\
         d_type d = type c /\
         p_columns r !! j = Some (resolve 12 d c)).
Proof.
  apply (eph_read_table_prepare_resolved 3 mag_id_table 68 0 2
           [declare name_id "i" 0 0; declare name_mag "f" 16 0]
           {| t_flags := 0; t_row_size := 12; t_n_col := 2; t_n_row := 1;
              t_columns :=
                [ {| d_name := name_mag; d_type := "f"; d_unit := 1;
                     d_start := 8; d_size := 4 |};
                  {| d_name := name_id; d_type := "i"; d_unit := 0;
                     d_start := 0; d_size := 4 |} ] |}).
  - lia.
  - reflexivity.
  - vm_compute. discriminate.
  - reflexivity.
  - simpl. lia.
  - simpl. intros H. exfalso. apply H. reflexivity.
  - repeat constructor.
  - repeat constructor.
Defined.

(** X10. A successful [eph_read_table_prepare] on a table of the current
    format leaves the buffer as it is when bit 0 of the flags is clear.
    When the bit is set, the header and the descriptors are kept, byte [i]
    of row [j] is the byte that was stored at [i * n_row + j] of the rows
    area, and what follows the rows is kept. In both cases the call
    returns the row count and the cursor is at the first row. *)
Theorem eph_read_table_prepare_rows (version : Z) (data : list byte)
    (data_size row_size_arg nb_columns : Z) (columns : list eph_table_column)
    (t : table) :
  3 <= version ->
  nb_columns = Z.of_nat (length columns) ->
  Z.of_nat (length data) <= INT_MAX ->
  parse_table data = Some t ->
  0 <= t_n_col t ->
  (Z.land (t_flags t) 1 <> 0 ->
   0 <= t_row_size t /\ 0 <= t_n_row t /\
   16 + 20 * t_n_col t + t_row_size t * t_n_row t <= Z.of_nat (length data)) ->
  Forall (fun c => length (name c) = 4%nat) columns ->
  exists r,
    eph_read_table_prepare version data data_size 0 row_size_arg nb_columns
      columns = Done r /\
    length (p_data r) = length data /\
    (p_log r = [] ->
     p_ret r = t_n_row t /\
     p_ofs r = 16 + 20 * t_n_col t /\
     (Z.land (t_flags t) 1 = 0 -> p_data r = data) /\
     (Z.land (t_flags t) 1 <> 0 ->
      take (Z.to_nat (p_ofs r)) (p_data r) = take (Z.to_nat (p_ofs r)) data /\
      (forall i j, 0 <= i < t_row_size t -> 0 <= j < t_n_row t ->
         get (p_data r) (p_ofs r + (j * t_row_size t + i))
         = get data (p_ofs r + (i * t_n_row t + j))) /\
      (forall k, p_ofs r + t_row_size t * t_n_row t <= k ->
         get (p_data r) k = get data k))).
Proof.
  intros Hv -> Hsize Ht Hncol Hrows Hnames.
  rewrite (eph_read_table_prepare_run version data data_size row_size_arg
             columns t Hv Hsize Ht Hncol Hnames).
  destruct (match_all (t_row_size t) (t_columns t) columns) as [res|res].
  2: { eexists. split; [reflexivity|]. cbn. split; [reflexivity|discriminate]. }
  destruct (unresolved res) as [c'|].
  { eexists. split; [reflexivity|]. cbn. split; [reflexivity|discriminate]. }
  unfold truth.
  destruct (Z.eqb_spec (Z.land (t_flags t) 1) 0) as [E|E]; cbn [negb].
  - eexists. split; [reflexivity|]. cbn. split; [reflexivity|]. intros _.
    repeat split; try reflexivity. contradiction.
  - destruct (Hrows E) as (Hr0 & Hn0 & Hfit).
    destruct (shuffle_at_spec data (16 + 20 * t_n_col t) (t_row_size t)
                (t_n_row t)) as (out & -> & Hl & Hhead & Hcells & Htail);
      [lia..|].
    cbn [mbind outcome_bind]. eexists. split; [reflexivity|]. cbn.
    split; [exact Hl|]. intros _.
    repeat split; try assumption; try reflexivity. contradiction.
Qed.

(** The three rows "ad", "be" and "cf" stored as "abc" then "def". *)
Lemma eph_read_table_prepare_rows_witness :
  exists r,
    eph_read_table_prepare 3 shuffled_table 42 0 0 1
      [declare name_id "s" 0 0] = Done r /\
    length (p_data r) = 42%nat /\
    (p_log r = [] ->
     p_ret r = 3 /\
     p_ofs r = 16 + 20 * 1 /\
     (Z.land 1 1 = 0 -> p_data r = shuffled_table) /\
     (Z.land 1 1 <> 0 ->
      take (Z.to_nat (p_ofs r)) (p_data r)
      = take (Z.to_nat (p_ofs r)) shuffled_table /\
      (forall i j, 0 <= i < 2 -> 0 <= j < 3 ->
         get (p_data r) (p_ofs r + (j * 2 + i))
         = get shuffled_table (p_ofs r + (i * 3 + j))) /\
      (forall k, p_ofs r + 2 * 3 <= k ->
         get (p_data r) k = get shuffled_table k))).
Proof.
  apply (eph_read_table_prepare_rows 3 shuffled_table 42 0 1
           [declare name_id "s" 0 0]
           {| t_flags := 1; t_row_size := 2; t_n_col := 1; t_n_row := 3;
              t_columns :=
                [ {| d_name := name_id; d_type := "s"; d_unit := 0;
                     d_start := 0; d_size := 2 |} ] |}).
  - lia.
  - reflexivity.
  - vm_compute. discriminate.
  - reflexivity.
  - simpl. lia.
  - simpl. intros _. lia.
  - repeat constructor.
Defined.

Example eph_read_table_prepare_shuffled :
  p_data <$>
    eph_read_table_prepare 3 shuffled_table 42 0 0 1 [declare name_id "s" 0 0]
  = Done (table_header 1 2 1 3 ++ column_descriptor name_id "s" 0 0 2
          ++ ["a"; "d"; "b"; "e"; "c"; "f"]%byte).
Proof. reflexivity. Qed.

(** X11. Whatever a call of [eph_read_table_prepare] on a table of the
    current format finds, the caller's columns keep their number, their
    names, their type tags and the units asked for; and a call that fails
    (it logs an error) returns -1 and leaves the buffer and the cursor as
    they were. *)
Theorem eph_read_table_prepare_kept (version : Z) (data : list byte)
    (data_size row_size_arg nb_columns : Z) (columns : list eph_table_column)
    (t : table) (r : prepared) :
  3 <= version ->
  nb_columns = Z.of_nat (length columns) ->
  Z.of_nat (length data) <= INT_MAX ->
  parse_table data = Some t ->
  0 <= t_n_col t ->
  Forall (fun c => length (name c) = 4%nat) columns ->
  eph_read_table_prepare version data data_size 0 row_size_arg nb_columns
    columns = Done r ->
  name <$> p_columns r = name <$> columns /\
  type <$> p_columns r = type <$> columns /\
  unit <$> p_columns r = unit <$> columns /\
  (p_log r <> [] -> p_ret r = -1 /\ p_data r = data /\ p_ofs r = 0).
Proof.
  intros Hv -> Hsize Ht Hncol Hnames.
  rewrite (eph_read_table_prepare_run version data data_size row_size_arg
             columns t Hv Hsize Ht Hncol Hnames).
  destruct (match_all (t_row_size t) (t_columns t) columns) as [res|res] eqn:Hm.
  - destruct (match_all_kept _ _ _ _ (or_introl Hm)) as (Hn & Hty & Hu).
    destruct (unresolved res) as [c'|].
    + intros [= <-]. cbn. tauto.
    + destruct (if truth (Z.land (t_flags t) 1)
                then shuffle_at data (16 + 20 * t_n_col t) (t_row_size t)
                       (t_n_row t)
                else Done data) as [data'| |]; [|discriminate..].
      cbn [mbind outcome_bind]. intros [= <-]. cbn.
      repeat split; try assumption; contradiction.
  - destruct (match_all_kept _ _ _ _ (or_intror Hm)) as (Hn & Hty & Hu).
    intros [= <-]. cbn. tauto.
Qed.

(** The second column has another type than declared: the call fails after
    it has resolved the first one. *)
Lemma eph_read_table_prepare_kept_witness :
  let columns := [declare name_mag "f" 16 0; declare name_id "Q" 0 0] in
  let r := {| p_ret := -1; p_data := mag_id_table; p_ofs := 0;
              p_columns :=
                [ {| name := name_mag; type := "f"; unit := 16; start := 8;
                     size := 4; src_unit := 1; row_size := 12 |};
                  declare name_id "Q" 0 0 ];
              p_log := [Wrong_type] |} in
  name <$> p_columns r = name <$> columns /\
  type <$> p_columns r = type <$> columns /\
  unit <$> p_columns r = unit <$> columns /\
  (p_log r <> [] -> p_ret r = -1 /\ p_data r = mag_id_table /\ p_ofs r = 0).
Proof.
  apply (eph_read_table_prepare_kept 3 mag_id_table 68 0 2
           [declare name_mag "f" 16 0; declare name_id "Q" 0 0]
           {| t_flags := 0; t_row_size := 12; t_n_col := 2; t_n_row := 1;
              t_columns :=
                [ {| d_name := name_mag; d_type := "f"; d_unit := 1;
                     d_start := 8; d_size := 4 |};
                  {| d_name := name_id; d_type := "i"; d_unit := 0;
                     d_start := 0; d_size := 4 |} ] |}).
  - lia.
  - reflexivity.
  - vm_compute. discriminate.
  - reflexivity.
  - simpl. lia.
  - repeat constructor.
  - reflexivity.
Defined.

(** ** The search by name *)

(** X12. The search of [eph_read_table_prepare] for a name of the table
    stops at the first declared column whose name, read as a C string of at
    most four characters, is that name; it ends at the number of columns
    when there is none. *)
Theorem find_column_first (columns : list eph_table_column) (nm : list byte) :
  Forall (fun c => length (name c) = 4%nat) columns -> length nm = 4%nat ->
  exists j : nat,
    find_column (length columns) 0 columns nm = Done (Z.of_nat j) /\
    (j <= length columns)%nat /\
    (forall (k : nat) c, (k < j)%nat -> columns !! k = Some c ->
       c_string (name c) <> c_string nm) /\
    (forall c, columns !! j = Some c -> c_string (name c) = c_string nm).
Proof.
  intros Hnames Hnm.
  pose proof (find_column_first_named nm columns Hnames Hnm
                (length columns) 0%nat eq_refl) as Hf.
  rewrite drop_0 in Hf. change (Z.of_nat 0) with 0 in Hf. cbn in Hf.
  exists (first_named nm columns). split; [exact Hf|].
  split; [apply first_named_le|].
  assert (Hlen : forall k c, columns !! k = Some c -> length (name c) = 4%nat).
  { intros k c Hk. eapply (proj1 (Forall_lookup _ _) Hnames); eauto. }
  split.
  - intros k c Hk Hc Hs.
    apply (named_c_string nm c (Hlen _ _ Hc) Hnm) in Hs.
    pose proof (first_named_before nm columns k c Hk Hc). congruence.
  - intros c Hc. apply (named_c_string nm c (Hlen _ _ Hc) Hnm).
    now apply (first_named_lookup nm columns).
Qed.

(** The name "id" among "mag" and "id". *)
Lemma find_column_first_witness :
  exists j : nat,
    find_column 2 0 [declare name_mag "f" 0 0; declare name_id "i" 0 0] name_id
    = Done (Z.of_nat j) /\
    (j <= 2)%nat /\
    (forall (k : nat) c, (k < j)%nat ->
       [declare name_mag "f" 0 0; declare name_id "i" 0 0] !! k = Some c ->
       c_string (name c) <> c_string name_id) /\
    (forall c,
       [declare name_mag "f" 0 0; declare name_id "i" 0 0] !! j = Some c ->
       c_string (name c) = c_string name_id).
Proof.
  apply (find_column_first
           [declare name_mag "f" 0 0; declare name_id "i" 0 0] name_id).
  - repeat constructor.
  - reflexivity.
Defined.

(** ** Unit conversion: flags that agree *)

Lemma testbit_land_15 u k :
  0 <= k < 4 -> Z.testbit (Z.land u 15) k = Z.testbit u k.
Proof.
  intros Hk. rewrite Z.land_spec.
  assert (Hc : k = 0 \/ k = 1 \/ k = 2 \/ k = 3) by lia.
  destruct Hc as [-> | [-> | [-> | ->]]]; cbn; apply andb_true_r.
Qed.

(** X13. [eph_convert_f] returns the value as it is whenever the low four
    bits of the two unit codes agree, whatever their other bits. *)
Theorem eph_convert_f_same_flags (DD2R DR2D : float) (src_unit unit : Z)
    (v : float) :
  Z.land src_unit 15 = Z.land unit 15 ->
  eph_convert_f DD2R DR2D src_unit unit v = v.
Proof.
  intros H. unfold eph_convert_f.
  destruct (negb (truth unit) || (src_unit =? unit)); [reflexivity|].
  assert (Hb : forall k, 0 <= k < 4 ->
            Z.testbit src_unit k = Z.testbit unit k).
  { intros k Hk. rewrite <- (testbit_land_15 src_unit k Hk), H.
    now apply testbit_land_15. }
  rewrite !truth_land_1, !truth_land_2, !truth_land_4, !truth_land_8.
  rewrite (Hb 0), (Hb 1), (Hb 2), (Hb 3) by lia.
  destruct (Z.testbit unit 0), (Z.testbit unit 1), (Z.testbit unit 2),
           (Z.testbit unit 3); reflexivity.
Qed.

(** Arc minutes of a degree, with and without bit 4. *)
Lemma eph_convert_f_same_flags_witness :
  eph_convert_f 0x1.1df46a2529d39p-6%float 0x1.ca5dc1a63c1f8p+5%float 3 19 90
  = 90%float.
Proof.
  apply (eph_convert_f_same_flags 0x1.1df46a2529d39p-6%float
           0x1.ca5dc1a63c1f8p+5%float 3 19 90).
  reflexivity.
Defined.

(** ** Row decoder: columns of other types, and values outside the buffer *)

Lemma for_loop_undef {S : Type} (P : Z -> S -> Prop) body :
  forall (n : nat) (i0 k : Z) (s0 : S),
    P i0 s0 ->
    i0 <= k < i0 + Z.of_nat n ->
    (forall i s, i0 <= i < k -> P i s ->
       exists s', body i s = Done s' /\ P (i + 1) s') ->
    (forall s, P k s -> body k s = Undef) ->
    for_loop n i0 body s0 = Undef.
Proof.
  induction n as [|n IH]; intros i0 k s0 H0 Hk Hstep Hfail; [lia|].
  cbn [for_loop].
  destruct (Z.eq_dec i0 k) as [->|Hne].
  - now rewrite (Hfail s0 H0).
  - destruct (Hstep i0 s0 ltac:(lia) H0) as (s1 & -> & H1).
    cbn [mbind outcome_bind].
    apply (IH (i0 + 1) k s1 H1); [lia| |exact Hfail].
    intros i s Hi. apply Hstep. lia.
Qed.

Section RowArguments.

Variables DD2R DR2D : float.

Lemma column_value_unknown data base c :
  known c = false -> column_value DD2R DR2D data base c = None.
Proof.
  unfold known, column_value. intros H.
  destruct (Byte.eqb (type c) "i"); [discriminate|].
  destruct (Byte.eqb (type c) "f"); [discriminate|].
  destruct (Byte.eqb (type c) "Q"); [discriminate|].
  destruct (Byte.eqb (type c) "s"); [discriminate|reflexivity].
Qed.

Lemma read_column_unknown data base c s :
  known c = false -> read_column DD2R DR2D data base c s = Done s.
Proof.
  unfold known, read_column. intros H. destruct s as [slots ap].
  destruct (Byte.eqb (type c) "i"); [discriminate|].
  destruct (Byte.eqb (type c) "f"); [discriminate|].
  destruct (Byte.eqb (type c) "Q"); [discriminate|].
  destruct (Byte.eqb (type c) "s"); [discriminate|reflexivity].
Qed.

Lemma read_column_outside data base c slots ap :
  known c = true -> column_value DD2R DR2D data base c = None ->
  read_column DD2R DR2D data base c (slots, ap) = Undef.
Proof.
  unfold known, column_value, read_column. intros Hk Hv.
  destruct (Byte.eqb (type c) "i").
  { destruct (read_i32 data (base + start c)); [discriminate|reflexivity]. }
  destruct (Byte.eqb (type c) "f").
  { destruct (read_u32 data (base + start c)); [discriminate|reflexivity]. }
  destruct (Byte.eqb (type c) "Q").
  { destruct (read_u64 data (base + start c)); [discriminate|reflexivity]. }
  destruct (Byte.eqb (type c) "s"); [|discriminate].
  destruct (read_bytes data (base + start c) (size c));
    [discriminate|reflexivity].
Qed.

Lemma row_values_take_S data base columns (k : nat) c :
  columns !! k = Some c ->
  row_values DD2R DR2D data base (take (S k) columns)
  = row_values DD2R DR2D data base (take k columns)
    ++ match column_value DD2R DR2D data base c with
       | Some v => [v]
       | None => []
       end.
Proof.
  intros Hc. unfold row_values.
  rewrite (take_S_r _ _ _ Hc), omap_app. cbn.
  now destruct (column_value DD2R DR2D data base c).
Qed.

Lemma row_values_take_le data base columns (k : nat) :
  (length (row_values DD2R DR2D data base (take k columns))
   <= length (row_values DD2R DR2D data base columns))%nat.
Proof.
  unfold row_values.
  rewrite <- (take_drop k columns) at 2. rewrite omap_app, length_app. lia.
Qed.

(** The loop over the columns: the values fill the first slots. *)
Lemma read_columns_loop data base columns (slots : list slot) :
  (forall c, c ∈ columns -> known c = true ->
     is_Some (column_value DD2R DR2D data base c)) ->
  (length (row_values DD2R DR2D data base columns) <= length slots)%nat ->
  for_loop (length columns) 0
    (fun i s => c ← access (get columns i);
                read_column DD2R DR2D data base c s)
    (slots, 0)
  = Done (row_values DD2R DR2D data base columns
          ++ drop (length (row_values DD2R DR2D data base columns)) slots,
          Z.of_nat (length (row_values DD2R DR2D data base columns))).
Proof.
  intros Hvals Hslots.
  set (vals := fun k : nat => row_values DD2R DR2D data base (take k columns)).
  destruct (for_loop_inv
    (fun i (s : list slot * Z) =>
       s = (vals (Z.to_nat i) ++ drop (length (vals (Z.to_nat i))) slots,
            Z.of_nat (length (vals (Z.to_nat i)))))
    (fun i s => c ← access (get columns i);
                read_column DD2R DR2D data base c s)
    (length columns) 0 (slots, 0))
    as (s' & Hloop & Hs').
  - reflexivity.
  - intros i s Hi ->.
    destruct (lookup_lt_is_Some_2 columns (Z.to_nat i) ltac:(lia)) as [c Hc].
    rewrite get_lookup, Hc by lia. cbn [access mbind outcome_bind].
    replace (Z.to_nat (i + 1)) with (S (Z.to_nat i)) by lia.
    pose proof (row_values_take_S data base columns _ c Hc) as HS.
    pose proof (row_values_take_le data base columns (S (Z.to_nat i))) as Hle.
    fold (vals (S (Z.to_nat i))) in HS, Hle. fold (vals (Z.to_nat i)) in HS.
    destruct (known c) eqn:Hk.
    + destruct (Hvals c (list_elem_of_lookup_2 _ _ _ Hc) Hk) as [v Hv].
      rewrite Hv in HS. rewrite HS in Hle |- *.
      rewrite length_app in Hle |- *. cbn [length] in Hle |- *.
      rewrite (read_column_value DD2R DR2D data base c v _ _ Hv).
      2: { rewrite length_app, length_drop. lia. }
      eexists. split; [reflexivity|]. f_equal; [|lia].
      rewrite Nat2Z.id.
      destruct (lookup_lt_is_Some_2 slots (length (vals (Z.to_nat i)))
                  ltac:(lia)) as [x Hx].
      rewrite (drop_S _ _ _ Hx).
      rewrite insert_app_r_alt by lia. rewrite Nat.sub_diag. cbn.
      rewrite <- app_assoc. cbn. do 3 f_equal. lia.
    + rewrite (read_column_unknown data base c _ Hk).
      rewrite (column_value_unknown data base c Hk) in HS.
      rewrite app_nil_r in HS. rewrite HS.
      eexists. split; reflexivity.
  - rewrite Hloop, Hs'.
    change (0 + Z.of_nat (length columns)) with (Z.of_nat (length columns)).
    rewrite Nat2Z.id. unfold vals. now rewrite firstn_all.
Qed.

(** X14. [eph_read_table_row] hands out its arguments to the columns of a
    type that it knows ('i', 'f', 'Q', 's'), in their order: a column of
    any other type is passed over and takes no argument, so that the values
    of the row fill the first arguments and the others are not written. *)
Theorem eph_read_table_row_arguments (data : list byte)
    (data_size data_ofs nb_columns : Z) (columns : list eph_table_column)
    (slots : list slot) (c0 : eph_table_column) :
  nb_columns = Z.of_nat (length columns) ->
  columns !! 0%nat = Some c0 ->
  (forall c, c ∈ columns -> known c = true ->
     is_Some (column_value DD2R DR2D data data_ofs c)) ->
  (length (row_values DD2R DR2D data data_ofs columns) <= length slots)%nat ->
  in_int (data_ofs + row_size c0) ->
  eph_read_table_row DD2R DR2D data data_size data_ofs nb_columns columns slots
  = Done {| r_ret := 0;
            r_slots :=
              row_values DD2R DR2D data data_ofs columns
              ++ drop (length (row_values DD2R DR2D data data_ofs columns))
                   slots;
            r_ofs := data_ofs + row_size c0 |}.
Proof.
  intros -> Hc0 Hvals Hslots Hofs.
  assert (Hpos : (0 < length columns)%nat) by (now apply lookup_lt_Some in Hc0).
  unfold eph_read_table_row.
  destruct (Z.ltb_spec 0 (Z.of_nat (length columns))); [|lia].
  cbn [assert mbind outcome_bind]. rewrite Nat2Z.id.
  rewrite (read_columns_loop data data_ofs columns slots Hvals Hslots).
  cbn [mbind outcome_bind].
  rewrite (get_lookup columns 0) by lia. change (Z.to_nat 0) with 0%nat.
  rewrite Hc0. cbn [access mbind outcome_bind].
  now rewrite add32_id by exact Hofs.
Qed.

(** X15. [eph_read_table_row] does not look at [data_size]: when a column of a
    known type has its value outside the buffer, wholly or in part, the
    call reads outside the buffer. *)
Theorem eph_read_table_row_outside (data : list byte)
    (data_size data_ofs nb_columns : Z) (columns : list eph_table_column)
    (slots : list slot) :
  nb_columns = Z.of_nat (length columns) ->
  length slots = length columns ->
  Forall (fun c => known c = true) columns ->
  (exists c, c ∈ columns /\ column_value DD2R DR2D data data_ofs c = None) ->
  eph_read_table_row DD2R DR2D data data_size data_ofs nb_columns columns slots
  = Undef.
Proof.
  intros -> Hslots Hknown Hex.
  assert (Hfind : is_Some (list_find
            (fun c => column_value DD2R DR2D data data_ofs c = None) columns)).
  { destruct Hex as (c & Hc & Hv).
    now apply (list_find_elem_of _ columns c). }
  destruct Hfind as [[k c] Hk].
  apply list_find_Some in Hk as (Hc & Hv & Hbefore).
  assert (Hlt : (k < length columns)%nat) by (now apply lookup_lt_Some in Hc).
  unfold eph_read_table_row.
  destruct (Z.ltb_spec 0 (Z.of_nat (length columns))); [|lia].
  cbn [assert mbind outcome_bind]. rewrite Nat2Z.id.
  rewrite (for_loop_undef
    (fun i (s : list slot * Z) => s.2 = i /\ length s.1 = length columns)
    (fun i s => c ← access (get columns i);
                read_column DD2R DR2D data data_ofs c s)
    (length columns) 0 (Z.of_nat k) (slots, 0)); [reflexivity|..].
  - split; [reflexivity|exact Hslots].
  - lia.
  - intros i [sl ap] Hi [Hap Hlen]. cbn in Hap, Hlen. subst ap.
    destruct (lookup_lt_is_Some_2 columns (Z.to_nat i) ltac:(lia)) as [c' Hc'].
    rewrite get_lookup, Hc' by lia. cbn [access mbind outcome_bind].
    destruct (column_value DD2R DR2D data data_ofs c') as [v|] eqn:Hv'.
    + rewrite (read_column_value DD2R DR2D data data_ofs c' v sl i Hv') by lia.
      eexists. split; [reflexivity|]. cbn.
      split; [reflexivity|now rewrite length_insert].
    + exfalso. apply (Hbefore (Z.to_nat i) c' Hc'); [lia|exact Hv'].
  - intros [sl ap] _. rewrite get_nat, Hc. cbn [access mbind outcome_bind].
    apply read_column_outside; [|exact Hv].
    apply (proj1 (Forall_lookup _ _) Hknown _ _ Hc).
Qed.

End RowArguments.

(** A column of type 'd' before the column "id": the integer goes to the
    first argument, and the second one is not written. *)
Lemma eph_read_table_row_arguments_witness :
  eph_read_table_row 0x1.1df46a2529d39p-6%float 0x1.ca5dc1a63c1f8p+5%float
    mag_id_table 68 56 2
    [ {| name := name_mag; type := "d"; unit := 0; start := 8; size := 4;
         src_unit := 0; row_size := 12 |};
      {| name := name_id; type := "i"; unit := 0; start := 0; size := 4;
         src_unit := 0; row_size := 12 |} ]
    [Slot_double 0; Slot_int 0]
  = Done {| r_ret := 0; r_slots := [Slot_int 7; Slot_int 0];
            r_ofs := 56 + 12 |}.
Proof.
  apply (eph_read_table_row_arguments
           0x1.1df46a2529d39p-6%float 0x1.ca5dc1a63c1f8p+5%float
           mag_id_table 68 56 2
           [ {| name := name_mag; type := "d"; unit := 0; start := 8;
                size := 4; src_unit := 0; row_size := 12 |};
             {| name := name_id; type := "i"; unit := 0; start := 0;
                size := 4; src_unit := 0; row_size := 12 |} ]
           [Slot_double 0; Slot_int 0]
           {| name := name_mag; type := "d"; unit := 0; start := 8; size := 4;
              src_unit := 0; row_size := 12 |}).
  - reflexivity.
  - reflexivity.
  - intros c Hc.
    apply elem_of_cons in Hc as [->|Hc]; [discriminate|].
    apply elem_of_cons in Hc as [->|Hc]; [vm_compute; eexists; reflexivity|].
    inversion Hc.
  - vm_compute. lia.
  - unfold in_int, INT_MIN, INT_MAX. simpl. lia.
Defined.

(** A row that starts 8 bytes before the end of the buffer: the float at
    offset 8 of the row lies outside. *)
Lemma eph_read_table_row_outside_witness :
  eph_read_table_row 0x1.1df46a2529d39p-6%float 0x1.ca5dc1a63c1f8p+5%float
    mag_id_table 68 60 2
    [ {| name := name_id; type := "i"; unit := 0; start := 0; size := 4;
         src_unit := 0; row_size := 12 |};
      {| name := name_mag; type := "f"; unit := 16; start := 8; size := 4;
         src_unit := 1; row_size := 12 |} ]
    [Slot_int 0; Slot_double 0]
  = Undef.
Proof.
  apply (eph_read_table_row_outside
           0x1.1df46a2529d39p-6%float 0x1.ca5dc1a63c1f8p+5%float
           mag_id_table 68 60 2).
  - reflexivity.
  - reflexivity.
  - repeat constructor.
  - eexists. split; [right; left|]. reflexivity.
Defined.

(** ** A tile header followed by a compressed block *)

(** X16. A tile header and a compressed block written one after the other
    are read one after the other: [eph_read_tile_header] at the start
    leaves the cursor where [eph_read_compressed_block] finds the two sizes,
    the primitive is given the compressed bytes and their number, and the
    cursor ends at the end of the buffer. *)
Theorem eph_read_tile_header_then_block (codec : Zlib)
    (version nuniq size : Z) (comp : list byte) :
  in_int version -> 4 <= nuniq < 3 * 2 ^ 30 -> 0 <= size <= INT_MAX ->
  20 + Z.of_nat (length comp) <= INT_MAX ->
  let data := tile_header_bytes version nuniq ++ le_bytes 4 size
              ++ le_bytes 4 (Z.of_nat (length comp)) ++ comp in
  let data_size := Z.of_nat (length data) in
  exists h b,
    eph_read_tile_header data data_size 0 = Done h /\
    th_version h = version /\
    4 * 4 ^ th_order h + th_pix h = nuniq /\
    eph_read_compressed_block data data_size (th_ofs h) = Done b /\
    cb_size b = size /\
    cb_ofs b = data_size /\
    (let '(code, block) :=
       zuncompress (zmalloc size) size comp (Z.of_nat (length comp)) in
     if code =? Z_OK then cb_ret b = block /\ cb_log b = []
     else cb_ret b = None /\ cb_log b = [Cannot_uncompress_data]).
Proof.
  intros Hver Hn Hsize Hcomp data data_size.
  assert (Hmax : INT_MAX = 2^31 - 1) by reflexivity.
  assert (Hmin : INT_MIN = - 2^31) by reflexivity.
  assert (Hlen : Z.of_nat (length data) = 20 + Z.of_nat (length comp)).
  { subst data. unfold tile_header_bytes.
    rewrite !length_app, !length_le_bytes. lia. }
  destruct (nuniq_order nuniq Hn) as (o & Ho & Hl & Hp & Hp12).
  assert (Hv : read_i32 data 0 = Some version).
  { apply (read_i32_le_bytes_int data 0 version
             (le_bytes 8 nuniq ++ le_bytes 4 size
              ++ le_bytes 4 (Z.of_nat (length comp)) ++ comp));
      [lia| |exact Hver].
    subst data. unfold tile_header_bytes. now rewrite <- app_assoc. }
  assert (Hd4 : drop 4 data = le_bytes 8 nuniq ++ le_bytes 4 size
                  ++ le_bytes 4 (Z.of_nat (length comp)) ++ comp).
  { subst data. unfold tile_header_bytes. rewrite <- app_assoc.
    now rewrite (drop_app_length' (le_bytes 4 version))
      by (now rewrite length_le_bytes). }
  assert (Hd12 : drop 12 data = le_bytes 4 size
                   ++ le_bytes 4 (Z.of_nat (length comp)) ++ comp).
  { change 12%nat with (4 + 8)%nat. rewrite <- drop_drop, Hd4.
    now rewrite drop_app_length' by (now rewrite length_le_bytes). }
  assert (Hd16 : drop 16 data
                 = le_bytes 4 (Z.of_nat (length comp)) ++ comp).
  { change 16%nat with (12 + 4)%nat. rewrite <- drop_drop, Hd12.
    now rewrite drop_app_length' by (now rewrite length_le_bytes). }
  assert (Hd20 : drop 20 data = comp).
  { change 20%nat with (16 + 4)%nat. rewrite <- drop_drop, Hd16.
    now rewrite drop_app_length' by (now rewrite length_le_bytes). }
  assert (Hu : read_u64 data (0 + 4) = Some nuniq).
  { eapply (read_u64_le_bytes data (0 + 4) nuniq); [lia|exact Hd4|lia]. }
  pose proof (eph_read_tile_header_order data data_size 0 version nuniq o
                ltac:(lia) Hv Hu Hl Ho Hp) as Hh.
  assert (Hs : read_i32 data 12 = Some size).
  { eapply (read_i32_le_bytes_int data 12 size); [lia|exact Hd12|].
    unfold in_int. lia. }
  assert (Hc : read_i32 data (12 + 4) = Some (Z.of_nat (length comp))).
  { eapply (read_i32_le_bytes_int data (12 + 4)); [lia|exact Hd16|].
    unfold in_int. lia. }
  assert (Hb : eph_read_compressed_block data data_size 12
               = let '(code, block) :=
                   zuncompress (zmalloc size) size comp
                     (Z.of_nat (length comp)) in
                 if negb (code =? Z_OK)
                 then Done {| cb_ret := None; cb_size := size;
                              cb_ofs := data_size;
                              cb_log := [Cannot_uncompress_data] |}
                 else Done {| cb_ret := block; cb_size := size;
                              cb_ofs := data_size; cb_log := [] |}).
  { unfold eph_read_compressed_block. rewrite Hs, Hc.
    cbn [access mbind outcome_bind].
    rewrite (wrap64_id size), (wrap64_id (Z.of_nat (length comp))) by lia.
    change (Z.to_nat (12 + 8)) with 20%nat. rewrite Hd20.
    rewrite (add32_id 8), (add32_id 12) by (unfold in_int; lia).
    replace (12 + (8 + Z.of_nat (length comp))) with data_size
      by (subst data_size; lia).
    reflexivity. }
  destruct (zuncompress (zmalloc size) size comp (Z.of_nat (length comp)))
    as [code block].
  destruct (code =? Z_OK); cbn [negb] in Hb.
  - eexists. eexists. split; [exact Hh|].
    cbn [th_version th_order th_pix th_ofs].
    split; [reflexivity|]. split; [lia|].
    split; [exact Hb|]. cbn. tauto.
  - eexists. eexists. split; [exact Hh|].
    cbn [th_version th_order th_pix th_ofs].
    split; [reflexivity|]. split; [lia|].
    split; [exact Hb|]. cbn. tauto.
Qed.

(** The tile of order 3 and pixel 5 with a block of three stored bytes. *)
Lemma eph_read_tile_header_then_block_witness :
  exists h b,
    eph_read_tile_header stored_block_example 23 0 = Done h /\
    th_version h = 2 /\
    4 * 4 ^ th_order h + th_pix h = 4 * 4 ^ 3 + 5 /\
    eph_read_compressed_block (codec := stored_codec) stored_block_example 23
      (th_ofs h) = Done b /\
    cb_size b = 3 /\
    cb_ofs b = 23 /\
    cb_ret b = Some ["a"; "b"; "c"]%byte /\ cb_log b = [].
Proof.
  apply (eph_read_tile_header_then_block stored_codec 2 (4 * 4 ^ 3 + 5) 3
           ["a"; "b"; "c"]%byte).
  - unfold in_int, INT_MIN, INT_MAX. lia.
  - lia.
  - unfold INT_MAX. lia.
  - unfold INT_MAX. simpl. lia.
Defined.

(** ** From the schema to a row *)

Lemma omap_total {A B : Type} (f : A -> option B) (l : list A) :
  (forall x, x ∈ l -> is_Some (f x)) ->
  length (omap f l) = length l /\
  forall j : nat, omap f l !! j = l !! j ≫= f.
Proof.
  induction l as [|x l IH]; intros H; [split; [reflexivity|now intros []]|].
  destruct (H x ltac:(left)) as [y Hy].
  destruct IH as [IHl IHj]; [intros z Hz; apply H; now right|].
  cbn [omap list_omap]. rewrite Hy. cbn. split; [now rewrite IHl|].
  intros [|j]; cbn; [now rewrite Hy|apply IHj].
Qed.

(** X17. The schema matcher and the row decoder fit together. After a
    successful [eph_read_table_prepare] on a table of the current format,
    [eph_read_table_row] at row [k] (the cursor left by the matcher plus [k]
    row strides of the table) with the columns as the matcher resolved them
    returns 0, moves the cursor to row [k + 1], and gives for each declared
    column the value read at the offset, with the size and from the unit,
    that a descriptor of the table with its name and type states. *)
Theorem eph_read_table_prepare_then_row (DD2R DR2D : float) (version : Z)
    (data : list byte) (data_size row_size_arg nb_columns : Z)
    (columns : list eph_table_column) (t : table) (slots : list slot)
    (k : Z) :
  3 <= version ->
  nb_columns = Z.of_nat (length columns) ->
  (0 < length columns)%nat ->
  Z.of_nat (length data) <= INT_MAX ->
  parse_table data = Some t ->
  0 <= t_n_col t ->
  (Z.land (t_flags t) 1 <> 0 ->
   0 <= t_row_size t /\ 0 <= t_n_row t /\
   16 + 20 * t_n_col t + t_row_size t * t_n_row t <= Z.of_nat (length data)) ->
  Forall (fun c => length (name c) = 4%nat) columns ->
  Forall (fun c => row_size c = 0) columns ->
  length slots = length columns ->
  in_int (16 + 20 * t_n_col t + (k + 1) * t_row_size t) ->
  exists r,
    eph_read_table_prepare version data data_size 0 row_size_arg nb_columns
      columns = Done r /\
    (p_log r = [] ->
     (forall c, c ∈ p_columns r ->
        is_Some (column_value DD2R DR2D (p_data r)
                   (p_ofs r + k * t_row_size t) c)) ->
     exists row,
       eph_read_table_row DD2R DR2D (p_data r) data_size
         (p_ofs r + k * t_row_size t) nb_columns (p_columns r) slots
       = Done row /\
       r_ret row = 0 /\
       r_ofs row = p_ofs r + (k + 1) * t_row_size t /\
       forall (j : nat) c, columns !! j = Some c ->
         exists d,
           d ∈ t_columns t /\
           c_string (d_name d) = c_string (name c) /\
           d_type d = type c /\
           r_slots row !! j
           = column_value DD2R DR2D (p_data r) (p_ofs r + k * t_row_size t)
               (resolve (t_row_size t) d c)).
Proof.
  intros Hv -> Hpos Hsize Ht Hncol Hrows Hnames Hfresh Hslots Hofs.
  rewrite (eph_read_table_prepare_run version data data_size row_size_arg
             columns t Hv Hsize Ht Hncol Hnames).
  destruct (parse_table_inv data t Ht) as (_ & _ & _ & _ & Hds).
  pose proof (descriptors_names _ _ _ _ Hds) as Hdn.
  destruct (match_all (t_row_size t) (t_columns t) columns) as [res|res] eqn:Hm.
  2: { eexists. split; [reflexivity|]. cbn. discriminate. }
  destruct (match_all_inl _ _ _ _ Hm) as [Hlres _].
  destruct (unresolved res) as [c'|] eqn:Hu.
  { eexists. split; [reflexivity|]. cbn. discriminate. }
  apply unresolved_None in Hu.
  assert (Hdata : exists data',
    (if truth (Z.land (t_flags t) 1)
     then shuffle_at data (16 + 20 * t_n_col t) (t_row_size t) (t_n_row t)
     else Done data) = Done data').
  { unfold truth.
    destruct (Z.eqb_spec (Z.land (t_flags t) 1) 0) as [E|E]; cbn [negb];
      [now eexists|].
    destruct (Hrows E) as (Hr0 & Hn0 & Hfit).
    destruct (shuffle_at_spec data (16 + 20 * t_n_col t) (t_row_size t)
                (t_n_row t)) as (out & Hout & _); [lia..|].
    now exists out. }
  destruct Hdata as [data' ->]. cbn [mbind outcome_bind].
  eexists. split; [reflexivity|]. cbn [p_log p_data p_ofs p_columns].
  intros _ Hvals.
  set (base := 16 + 20 * t_n_col t + k * t_row_size t) in *.
  assert (Hres : forall (j : nat) c, columns !! j = Some c ->
            exists d, d ∈ t_columns t /\
              c_string (d_name d) = c_string (name c) /\
              d_type d = type c /\
              res !! j = Some (resolve (t_row_size t) d c)).
  { intros j c Hc.
    destruct (match_all_resolved _ _ _ _ Hm j c Hc)
      as [(d & Hd & Hf & Hty & Hr)|[_ Hr]].
    - exists d. split; [exact Hd|]. split; [|split; [now symmetry|exact Hr]].
      symmetry. apply named_c_string.
      + eapply (proj1 (Forall_lookup _ _) Hnames); eauto.
      + eapply (proj1 (Forall_forall _ _) Hdn); eauto.
      + apply (first_named_lookup _ columns). now rewrite Hf.
    - exfalso.
      apply (proj1 (Forall_lookup _ _) Hu _ _ Hr).
      apply (proj1 (Forall_lookup _ _) Hfresh _ _ Hc). }
  destruct (omap_total (column_value DD2R DR2D data' base) res Hvals)
    as [Hlv Hjv].
  fold (row_values DD2R DR2D data' base res) in Hlv, Hjv.
  destruct (lookup_lt_is_Some_2 columns 0 Hpos) as [c0 Hc0].
  destruct (Hres 0%nat c0 Hc0) as (d0 & _ & _ & _ & Hr0).
  unfold eph_read_table_row.
  destruct (Z.ltb_spec 0 (Z.of_nat (length columns))); [|lia].
  cbn [assert mbind outcome_bind]. rewrite Nat2Z.id, <- Hlres.
  rewrite (read_columns_loop DD2R DR2D data' base res slots).
  2: { intros c Hc _. now apply Hvals. }
  2: { rewrite Hlv. lia. }
  cbn [mbind outcome_bind].
  rewrite (get_lookup res 0) by lia. change (Z.to_nat 0) with 0%nat.
  rewrite Hr0. cbn [access mbind outcome_bind resolve row_size].
  rewrite add32_id by (subst base; unfold in_int in *; lia).
  eexists. split; [reflexivity|]. cbn [r_ret r_ofs r_slots].
  split; [reflexivity|]. split; [subst base; lia|].
  intros j c Hc. destruct (Hres j c Hc) as (d & Hd & Hs & Hty & Hr).
  exists d. split; [exact Hd|]. split; [exact Hs|]. split; [exact Hty|].
  rewrite drop_ge by (rewrite Hlv; lia). rewrite app_nil_r.
  rewrite Hjv, Hr. reflexivity.
Qed.

(** The table of "mag" and "id": its one row, the columns declared in the
    other order and the float asked for in radians. *)
Lemma eph_read_table_prepare_then_row_witness :
  exists r,
    eph_read_table_prepare 3 mag_id_table 68 0 0 2
      [declare name_id "i" 0 0; declare name_mag "f" 16 0] = Done r /\
    (p_log r = [] ->
     (forall c, c ∈ p_columns r ->
        is_Some (column_value 0x1.1df46a2529d39p-6%float
                   0x1.ca5dc1a63c1f8p+5%float (p_data r)
                   (p_ofs r + 0 * 12) c)) ->
     exists row,
       eph_read_table_row 0x1.1df46a2529d39p-6%float
         0x1.ca5dc1a63c1f8p+5%float (p_data r) 68 (p_ofs r + 0 * 12) 2
         (p_columns r) [Slot_int 0; Slot_double 0]
       = Done row /\
       r_ret row = 0 /\
       r_ofs row = p_ofs r + (0 + 1) * 12 /\
       forall (j : nat) c,
         [declare name_id "i" 0 0; declare name_mag "f" 16 0] !! j = Some c ->
         exists d,
           d ∈ [ {| d_name := name_mag; d_type := "f"; d_unit := 1;
                    d_start := 8; d_size := 4 |};
                 {| d_name := name_id; d_type := "i"; d_unit := 0;
                    d_start := 0; d_size := 4 |} ] /\
           c_string (d_name d) = c_string (name c) /\
           d_type d = type c /\
           r_slots row !! j
           = column_value 0x1.1df46a2529d39p-6%float
               0x1.ca5dc1a63c1f8p+5%float (p_data r) (p_ofs r + 0 * 12)
               (resolve 12 d c)).
Proof.
  apply (eph_read_table_prepare_then_row
           0x1.1df46a2529d39p-6%float 0x1.ca5dc1a63c1f8p+5%float
           3 mag_id_table 68 0 2
           [declare name_id "i" 0 0; declare name_mag "f" 16 0]
           {| t_flags := 0; t_row_size := 12; t_n_col := 2; t_n_row := 1;
              t_columns :=
                [ {| d_name := name_mag; d_type := "f"; d_unit := 1;
                     d_start := 8; d_size := 4 |};
                  {| d_name := name_id; d_type := "i"; d_unit := 0;
                     d_start := 0; d_size := 4 |} ] |}
           [Slot_int 0; Slot_double 0] 0).
  - lia.
  - reflexivity.
  - simpl. lia.
  - vm_compute. discriminate.
  - reflexivity.
  - simpl. lia.
  - simpl. intros H. exfalso. apply H. reflexivity.
  - repeat constructor.
  - repeat constructor.
  - reflexivity.
  - unfold in_int, INT_MIN, INT_MAX. simpl. lia.
Defined.

(** ** From the old format to a row *)

(** X18. The old format and the row decoder fit together. After
    [eph_read_table_prepare] on a table of a version below 3, the cursor is
    still 0, and [eph_read_table_row] at [k] row sizes with the columns as
    resolved returns 0, moves the cursor on by the row size, and gives for
    each declared column the value at the sum of the sizes of the columns
    before it; a float is given as stored, with no conversion of unit. *)
Theorem eph_read_table_prepare_legacy_then_row (DD2R DR2D : float)
    (version : Z) (data : list byte) (data_size rs nb_columns : Z)
    (columns : list eph_table_column) (slots : list slot) (k : Z) :
  version < 3 -> 0 < rs ->
  Z.of_nat (length data) = data_size -> data_size <= INT_MAX ->
  nb_columns = Z.of_nat (length columns) ->
  (0 < length columns)%nat ->
  length slots = length columns ->
  in_int ((k + 1) * rs) ->
  exists r,
    eph_read_table_prepare version data data_size 0 rs nb_columns columns
    = Done r /\
    p_ofs r = 0 /\
    ((forall c, c ∈ p_columns r ->
        is_Some (column_value DD2R DR2D (p_data r) (k * rs) c)) ->
     exists row,
       eph_read_table_row DD2R DR2D (p_data r) data_size (p_ofs r + k * rs)
         nb_columns (p_columns r) slots = Done row /\
       r_ret row = 0 /\
       r_ofs row = (k + 1) * rs /\
       forall (j : nat) c, columns !! j = Some c ->
         r_slots row !! j
         = column_value DD2R DR2D (p_data r) (k * rs)
             (legacy_resolved rs (sequential_offset columns j) c) /\
         (type c = "f"%byte ->
          r_slots row !! j
          = (fun w => Slot_double (f32_of_bits w))
            <$> read_u32 (p_data r) (k * rs + sequential_offset columns j))).
Proof.
  intros Hv Hrow Hlen Hsize -> Hpos Hslots Hofs.
  assert (Hds : 0 <= data_size) by lia.
  destruct (quot_rows data_size rs Hds Hrow) as [Hq0 Hq].
  destruct (legacy_columns_resolved rs columns) as (cols & st & Hloop & Hcols).
  assert (Hdata : exists data',
    (if negb (rs =? 104)
     then q ← access (div32 data_size rs); shuffle_at data 0 rs q
     else Done data) = Done data').
  { rewrite (div32_quot data_size rs) by lia. cbn [access mbind outcome_bind].
    destruct (negb (rs =? 104)); [|now eexists].
    rewrite shuffle_at_0.
    destruct (shuffle_bytes_written data rs (data_size ÷ rs))
      as (out & Hout & _); [lia..|].
    now exists out. }
  destruct Hdata as [data' Hdata].
  assert (Hprep : eph_read_table_prepare version data data_size 0 rs
                    (Z.of_nat (length columns)) columns
                  = Done {| p_ret := data_size ÷ rs; p_data := data';
                            p_ofs := 0; p_columns := cols; p_log := [] |}).
  { unfold eph_read_table_prepare. cbn [assert Z.eqb mbind outcome_bind].
    destruct (Z.ltb_spec version 3); [|lia].
    rewrite Hdata. cbn [mbind outcome_bind].
    rewrite Nat2Z.id, Hloop. cbn [mbind outcome_bind].
    rewrite (div32_quot data_size rs) by lia. reflexivity. }
  eexists. split; [exact Hprep|]. cbn [p_ofs p_data p_columns].
  split; [reflexivity|]. intros Hvals.
  assert (Hres : forall (j : nat) c, columns !! j = Some c ->
            cols !! j
            = Some (legacy_resolved rs (sequential_offset columns j) c)).
  { intros j c Hc. subst cols. now rewrite list_lookup_imap, Hc. }
  assert (Hlc : length cols = length columns).
  { subst cols. apply length_imap. }
  destruct (omap_total (column_value DD2R DR2D data' (k * rs)) cols Hvals)
    as [Hlv Hjv].
  fold (row_values DD2R DR2D data' (k * rs) cols) in Hlv, Hjv.
  destruct (lookup_lt_is_Some_2 columns 0 Hpos) as [c0 Hc0].
  pose proof (Hres 0%nat c0 Hc0) as Hr0.
  unfold eph_read_table_row.
  destruct (Z.ltb_spec 0 (Z.of_nat (length columns))); [|lia].
  cbn [assert mbind outcome_bind]. rewrite Nat2Z.id, <- Hlc.
  change (0 + k * rs) with (k * rs).
  rewrite (read_columns_loop DD2R DR2D data' (k * rs) cols slots).
  2: { intros c Hc _. now apply Hvals. }
  2: { rewrite Hlv. lia. }
  cbn [mbind outcome_bind].
  rewrite (get_lookup cols 0) by lia. change (Z.to_nat 0) with 0%nat.
  rewrite Hr0. cbn [access mbind outcome_bind legacy_resolved row_size].
  rewrite add32_id by (unfold in_int in *; lia).
  eexists. split; [reflexivity|]. cbn [r_ret r_ofs r_slots].
  split; [reflexivity|]. split; [lia|].
  intros j c Hc.
  rewrite drop_ge by (rewrite Hlv; lia). rewrite app_nil_r.
  rewrite Hjv, (Hres j c Hc). cbn [mbind option_bind].
  split; [reflexivity|]. intros Hf.
  unfold column_value. cbn [legacy_resolved type start src_unit unit].
  rewrite Hf. cbn [Byte.eqb]. change (Byte.eqb "f" "i") with false.
  change (Byte.eqb "f" "f") with true. cbn match.
  destruct (read_u32 data' (k * rs + sequential_offset columns j)) as [w|];
    [|reflexivity].
  cbn [fmap option_fmap option_map]. do 2 f_equal.
  unfold eph_convert_f. now rewrite Z.eqb_refl, orb_true_r.
Qed.

(** Two rows of 16 bytes in the old format: an identifier of 8 bytes, a
    float and a string of 4 characters; the second row. *)
Lemma eph_read_table_prepare_legacy_then_row_witness :
  exists r,
    eph_read_table_prepare 2 (le_bytes 16 0x0807060504030201 ++ le_bytes 16 0)
      32 0 16 3
      [declare name_id "Q" 0 0; declare name_mag "f" 1 0;
       declare name_id "s" 0 4]
    = Done r /\
    p_ofs r = 0 /\
    ((forall c, c ∈ p_columns r ->
        is_Some (column_value 0x1.1df46a2529d39p-6%float
                   0x1.ca5dc1a63c1f8p+5%float (p_data r) (1 * 16) c)) ->
     exists row,
       eph_read_table_row 0x1.1df46a2529d39p-6%float
         0x1.ca5dc1a63c1f8p+5%float (p_data r) 32 (p_ofs r + 1 * 16) 3
         (p_columns r) [Slot_uint64 0; Slot_double 0; Slot_bytes []]
       = Done row /\
       r_ret row = 0 /\
       r_ofs row = (1 + 1) * 16 /\
       forall (j : nat) c,
         [declare name_id "Q" 0 0; declare name_mag "f" 1 0;
          declare name_id "s" 0 4] !! j = Some c ->
         r_slots row !! j
         = column_value 0x1.1df46a2529d39p-6%float 0x1.ca5dc1a63c1f8p+5%float
             (p_data r) (1 * 16)
             (legacy_resolved 16
                (sequential_offset
                   [declare name_id "Q" 0 0; declare name_mag "f" 1 0;
                    declare name_id "s" 0 4] j) c) /\
         (type c = "f"%byte ->
          r_slots row !! j
          = (fun w => Slot_double (f32_of_bits w))
            <$> read_u32 (p_data r)
                  (1 * 16
                   + sequential_offset
                       [declare name_id "Q" 0 0; declare name_mag "f" 1 0;
                        declare name_id "s" 0 4] j))).
Proof.
  apply (eph_read_table_prepare_legacy_then_row
           0x1.1df46a2529d39p-6%float 0x1.ca5dc1a63c1f8p+5%float 2
           (le_bytes 16 0x0807060504030201 ++ le_bytes 16 0) 32 16 3
           [declare name_id "Q" 0 0; declare name_mag "f" 1 0;
            declare name_id "s" 0 4]
           [Slot_uint64 0; Slot_double 0; Slot_bytes []] 1).
  - lia.
  - lia.
  - reflexivity.
  - unfold INT_MAX. lia.
  - reflexivity.
  - simpl. lia.
  - reflexivity.
  - unfold in_int, INT_MIN, INT_MAX. lia.
Defined.
